(** * WebScour crawler (Milestone1.py): a shallow embedding and its properties

    The embedding follows the script top to bottom:
    - [Py]      the Python [str] built-ins the script and [urllib.parse] rely on;
    - [Re]      [re.findall] for the one pattern the script uses;
    - [Urllib]  [urllib.parse] as in CPython 3.11: [urlsplit], [urlparse],
                [urlunsplit], [urlunparse], [urljoin];
    - [Crawler] [get_domain], [fetch_page], [extract_links] and the main
                crawl loop, with the network, the disk and the iteration
                order of Python sets supplied by a [World].

    Then come the definitions the properties are stated with
    ([CrawlerSpec], [UrllibSpec]), some concrete worlds ([Examples]), and
    the properties themselves ([PyProps], [UrllibProps], [CrawlerProps],
    [LinkProps]).

    A Python [str] is a list of characters, each a code point below 256.
    Python's [int] is [Z].  Sleeping and the timings printed by the script
    are left out; the lines printed are recorded in [stdout], and [print]
    and [time.sleep] are taken to return.

    Further properties of the same code follow the ones above: the loop
    branch by branch ([LoopSpec], [LoopProps]), the hyperlinks of a page
    ([LinkSpec], [RegexProps], [ExtractProps]), the characters of parsed
    URLs and what makes parsing fail ([CharSpec], [WorldSpec], [CharProps],
    [TameProps]), domains ([DomainSpec], [DomainProps]), the URLs a crawl
    touches ([FrontierProps]) and the script as a whole ([ScriptProps]).

    The indexer of [indexer/milestone3_indexer.py] is modelled as far as
    it works on text and integers ([Dict], [Indexer], [IndexSpec],
    [IndexProps]): [tokenize], which [search_app/app.py] has as well,
    [compute_tf] and [build_inverted_index].  A [dict] is the list of its
    items in insertion order.  The text of a page comes from BeautifulSoup
    and is taken as given; the logarithms of [compute_idf], the scores of
    [search] and the files are left out.  On code points below 256
    [str.lower] works character by character, and what is proved of
    [tokenize] is proved for texts of such characters. *)

From Stdlib Require Import ZArith Ascii String List Bool Lia.
From stdpp Require Import base option list gmap sets strings.

Abbreviation pystr := (list ascii).

(** String literals are read as Python strings. *)
Coercion list_ascii_of_string : string >-> list.

#[local] Open Scope Z_scope.

(** ** Exceptions and results *)

(** The classes of [requests.exceptions] that derive from
    [RequestException], the base class itself included. *)
Inductive request_exception : Type :=
  | RequestExceptionBase
  | HTTPError
  | ConnectionError
  | ProxyError
  | SSLError
  | Timeout
  | ConnectTimeout
  | ReadTimeout
  | TooManyRedirects
  | MissingSchema
  | InvalidSchema
  | InvalidURL
  | ChunkedEncodingError
  | ContentDecodingError.

Inductive exn : Type :=
  | RequestException (k : request_exception)
  | ValueError
  | OSError
  | OtherException (name : string).

(** A call either returns a value or raises. *)
Inductive result (A : Type) : Type :=
  | Return (a : A)
  | Raise (e : exn).
Arguments Return {A} a.
Arguments Raise {A} e.

#[global] Instance result_ret : MRet result := @Return.
#[global] Instance result_bind : MBind result := fun A B k r =>
  match r with
  | Return a => k a
  | Raise e => Raise e
  end.

(** ** Python [str] built-ins *)
Module Py.

Definition ord (c : ascii) : Z := Z.of_N (N_of_ascii c).

(** [c in s] for a one-character [c]. *)
Definition contains (c : ascii) (s : pystr) : bool := bool_decide (c ∈ s).

(** [bool(s)]: a string is true iff it is not empty. *)
Definition truthy (s : pystr) : bool :=
  match s with [] => false | _ :: _ => true end.

Fixpoint find_aux (c : ascii) (s : pystr) (i : Z) : Z :=
  match s with
  | [] => -1
  | x :: s' => if decide (x = c) then i else find_aux c s' (i + 1)
  end.

(** [s.find(c, start)]: least index [>= start] holding [c], or [-1]. *)
Definition find (c : ascii) (s : pystr) (start : nat) : Z :=
  find_aux c (drop start s) (Z.of_nat start).

Fixpoint rfind_aux (c : ascii) (s : pystr) (i : Z) (last : Z) : Z :=
  match s with
  | [] => last
  | x :: s' => rfind_aux c s' (i + 1) (if decide (x = c) then i else last)
  end.

(** [s.rfind(c)]: greatest index holding [c], or [-1]. *)
Definition rfind (c : ascii) (s : pystr) : Z := rfind_aux c s 0 (-1).

(** A slice bound, clipped the way Python clips it. *)
Definition clip (s : pystr) (i : Z) : nat :=
  let n := Z.of_nat (length s) in
  Z.to_nat (if i <? 0 then Z.max 0 (n + i) else Z.min i n).

(** [s[:i]] and [s[i:]]. *)
Definition upto (s : pystr) (i : Z) : pystr := take (clip s i) s.
Definition from (s : pystr) (i : Z) : pystr := drop (clip s i) s.
(** [s[lo:hi]]. *)
Definition slice (s : pystr) (lo hi : Z) : pystr :=
  take (clip s hi - clip s lo)%nat (drop (clip s lo) s).

Definition startswith (p s : pystr) : bool := bool_decide (p `prefix_of` s).

(** [s.lstrip(chars)], [s.rstrip(chars)], [s.strip(chars)]. *)
Fixpoint lstrip (chars : pystr) (s : pystr) : pystr :=
  match s with
  | [] => []
  | c :: s' => if contains c chars then lstrip chars s' else s
  end.

Definition rstrip (chars : pystr) (s : pystr) : pystr :=
  reverse (lstrip chars (reverse s)).

Definition strip (chars : pystr) (s : pystr) : pystr :=
  rstrip chars (lstrip chars s).

(** [c.isspace()] on the code points below 256. *)
Definition isspace (c : ascii) : bool :=
  let n := ord c in
  ((9 <=? n) && (n <=? 13)) || ((28 <=? n) && (n <=? 32))
  || (n =? 133) || (n =? 160).

Definition whitespace : pystr := filter (fun c => isspace c = true)
  (map (fun n => ascii_of_nat n) (seq 0 256)).

(** [s.strip()] with no argument strips white space. *)
Definition strip_ws (s : pystr) : pystr := strip whitespace s.

Definition isascii (c : ascii) : bool := ord c <? 128.

(** [c.isalpha()] for an ASCII [c]. *)
Definition isalpha_ascii (c : ascii) : bool :=
  let n := ord c in
  ((65 <=? n) && (n <=? 90)) || ((97 <=? n) && (n <=? 122)).

(** [c.lower()] on the code points below 256. *)
Definition lower_char (c : ascii) : ascii :=
  let n := ord c in
  if ((65 <=? n) && (n <=? 90))
     || ((192 <=? n) && (n <=? 222) && negb (n =? 215))
  then ascii_of_N (Z.to_N (n + 32)) else c.

Definition lower (s : pystr) : pystr := map lower_char s.

(** [s.replace(c, "")]. *)
Definition remove_char (c : ascii) (s : pystr) : pystr :=
  filter (fun x => x ≠ c) s.

(** [s.split(c)]: never empty, one more piece than occurrences of [c]. *)
Fixpoint split (c : ascii) (s : pystr) : list pystr :=
  match s with
  | [] => [[]]
  | x :: s' =>
      if decide (x = c) then [] :: split c s'
      else match split c s' with
           | [] => [[x]]
           | w :: ws => (x :: w) :: ws
           end
  end.

(** [s.split(c, 1)] when [c in s]: the text before and after the first [c]. *)
Definition split1 (c : ascii) (s : pystr) : pystr * pystr :=
  let i := find c s 0 in (upto s i, from s (i + 1)).

(** [c.join(parts)]. *)
Fixpoint join (c : ascii) (parts : list pystr) : pystr :=
  match parts with
  | [] => []
  | [p] => p
  | p :: ps => p ++ c :: join c ps
  end.

End Py.

(** ** [re.findall(r'href=["\'](.*?)["\']', html)] *)
Module Re.

Definition dquote : ascii := "034"%char.
Definition squote : ascii := "039"%char.

Definition is_quote (c : ascii) : bool :=
  bool_decide (c = dquote) || bool_decide (c = squote).

Definition newline : ascii := "010"%char.

(** The lazy group [(.*?)] followed by a quote: the text up to the next
    quote of either kind, which must come before any newline ([.] does not
    match a newline).  Returns the group and the text after the quote. *)
Fixpoint lazy_group (s : pystr) : option (pystr * pystr) :=
  match s with
  | [] => None
  | c :: s' =>
      if is_quote c then Some ([], s')
      else if decide (c = newline) then None
      else match lazy_group s' with
           | Some (m, r) => Some (c :: m, r)
           | None => None
           end
  end.

(** A match starting at the head of [s], if there is one. *)
Definition match_here (s : pystr) : option pystr :=
  match s with
  | "h"%char :: "r"%char :: "e"%char :: "f"%char :: "="%char :: q :: s' =>
      if is_quote q then fst <$> lazy_group s' else None
  | _ => None
  end.

(** Matches are found left to right and do not overlap: after a match the
    scan resumes behind its closing quote, [skip] counting the characters
    of the match still to pass. *)
Fixpoint findall_from (skip : nat) (s : pystr) : list pystr :=
  match s with
  | [] => []
  | _ :: s' =>
      match skip with
      | S k => findall_from k s'
      | O =>
          match match_here s with
          | Some m => m :: findall_from (6 + length m) s'
          | None => findall_from 0 s'
          end
      end
  end.

Definition findall_href (html : pystr) : list pystr := findall_from 0 html.

End Re.

(** ** [urllib.parse] (CPython 3.11) *)
Module Urllib.
Import Py.

(** Two checks of [urlsplit] go through other libraries and are taken as
    given: [_check_bracketed_netloc] ([ipaddress]) and the NFKC test that
    [_checknetloc] applies to a netloc with non-ASCII characters
    ([unicodedata]).  Each is [true] when the check passes. *)
Class NetlocChecks : Type := {
  check_bracketed_netloc : pystr -> bool;
  nfkc_netloc_ok : pystr -> bool
}.

Definition uses_relative : list pystr :=
  [] :: map list_ascii_of_string
  [ "ftp"; "http"; "gopher"; "nntp"; "imap"; "wais"; "file"; "https";
    "shttp"; "mms"; "prospero"; "rtsp"; "rtspu"; "sftp"; "svn"; "svn+ssh";
    "ws"; "wss" ]%string.

Definition uses_netloc : list pystr :=
  [] :: map list_ascii_of_string
  [ "ftp"; "http"; "gopher"; "nntp"; "telnet"; "imap"; "wais"; "file";
    "mms"; "https"; "shttp"; "snews"; "prospero"; "rtsp"; "rtspu"; "rsync";
    "svn"; "svn+ssh"; "sftp"; "nfs"; "git"; "git+ssh"; "ws"; "wss" ]%string.

Definition uses_params : list pystr :=
  [] :: map list_ascii_of_string
  [ "ftp"; "hdl"; "prospero"; "http"; "imap"; "https"; "shttp"; "rtsp";
    "rtspu"; "sip"; "sips"; "mms"; "sftp"; "tel" ]%string.

Definition scheme_chars : pystr :=
  "abcdefghijklmnopqrstuvwxyzABCDEFGHIJKLMNOPQRSTUVWXYZ0123456789+-.".

(** The code points 0 to 32. *)
Definition WHATWG_C0_CONTROL_OR_SPACE : pystr := map ascii_of_nat (seq 0 33).

(** Tab, carriage return, newline. *)
Definition UNSAFE_URL_BYTES_TO_REMOVE : pystr :=
  ["009"%char; "013"%char; "010"%char].

(** [ParseResult], the named 6-tuple of [urlparse]. *)
Record ParseResult : Type := mkParseResult {
  scheme : pystr;
  netloc : pystr;
  path : pystr;
  params : pystr;
  query : pystr;
  fragment : pystr
}.

(** [SplitResult], the 5-tuple of [urlsplit]:
    scheme, netloc, path, query, fragment. *)
Definition SplitResult : Type := pystr * pystr * pystr * pystr * pystr.

Definition splitnetloc (url : pystr) (start : nat) : pystr * pystr :=
  let delim :=
    fold_left (fun delim c =>
                 let wdelim := find c url start in
                 if 0 <=? wdelim then Z.min delim wdelim else delim)
              ("/?#" : pystr) (Z.of_nat (length url)) in
  (slice url (Z.of_nat start) delim, from url delim).

Definition splitparams (url : pystr) : pystr * pystr :=
  if contains "/" url then
    let i := find ";" url (Z.to_nat (rfind "/" url)) in
    if i <? 0 then (url, []) else (upto url i, from url (i + 1))
  else
    let i := find ";" url 0 in (upto url i, from url (i + 1)).

Definition urlunsplit (c : SplitResult) : pystr :=
  let '(scheme, netloc, url, query, fragment) := c in
  let url :=
    if truthy netloc
       || (truthy scheme && bool_decide (scheme ∈ uses_netloc)
           && negb (bool_decide (upto url 2 = "//")))
    then
      let url :=
        if truthy url && negb (bool_decide (upto url 1 = "/"))
        then "/" ++ url else url in
      "//" ++ netloc ++ url
    else url in
  let url := if truthy scheme then scheme ++ ":" ++ url else url in
  let url := if truthy query then url ++ "?" ++ query else url in
  let url := if truthy fragment then url ++ "#" ++ fragment else url in
  url.

Definition urlunparse (c : ParseResult) : pystr :=
  let url := if truthy (params c) then path c ++ ";" ++ params c else path c in
  urlunsplit (scheme c, netloc c, url, query c, fragment c).

(** [c.geturl()]. *)
Definition geturl (c : ParseResult) : pystr := urlunparse c.

(** [c._replace(fragment=f)]. *)
Definition replace_fragment (c : ParseResult) (f : pystr) : ParseResult :=
  mkParseResult (scheme c) (netloc c) (path c) (params c) (query c) f.

(** [segments[1:-1] = filter(None, segments[1:-1])]. *)
Definition filter_middle (segments : list pystr) : list pystr :=
  match segments with
  | [] => []
  | [a] => [a]
  | a :: rest =>
      a :: filter (fun s => truthy s = true) (removelast rest)
        ++ [List.last rest []]
  end.

(** The loop over [segments] that builds [resolved_path]. *)
Definition resolve (segments : list pystr) : list pystr :=
  fold_left (fun (resolved_path : list pystr) (seg : pystr) =>
               if bool_decide (seg = "..") then removelast resolved_path
               else if bool_decide (seg = ".") then resolved_path
               else resolved_path ++ [seg])
            segments [].

Section WithChecks.
Context `{NetlocChecks}.

Definition checknetloc (netloc : pystr) : bool :=
  negb (truthy netloc) || forallb isascii netloc || nfkc_netloc_ok netloc.

(** [urlsplit(url, scheme)], with [allow_fragments] at its default. *)
Definition urlsplit (url scheme : pystr) : result SplitResult :=
  let url := lstrip WHATWG_C0_CONTROL_OR_SPACE url in
  let scheme := strip WHATWG_C0_CONTROL_OR_SPACE scheme in
  let url := fold_left (fun u b => remove_char b u)
                       UNSAFE_URL_BYTES_TO_REMOVE url in
  let scheme := fold_left (fun u b => remove_char b u)
                          UNSAFE_URL_BYTES_TO_REMOVE scheme in
  let i := find ":" url 0 in
  let '(scheme, url) :=
    if (0 <? i)
       && match url with
          | c :: _ => isascii c && isalpha_ascii c
          | [] => false
          end
       && forallb (fun c => contains c scheme_chars) (upto url i)
    then (lower (upto url i), from url (i + 1))
    else (scheme, url) in
  '(netloc, url) ←
    (if bool_decide (upto url 2 = "//") then
       let '(netloc, url) := splitnetloc url 2 in
       if (contains "[" netloc && negb (contains "]" netloc))
          || (contains "]" netloc && negb (contains "[" netloc))
       then Raise ValueError
       else if contains "[" netloc && contains "]" netloc
               && negb (check_bracketed_netloc netloc)
       then Raise ValueError
       else Return (netloc, url)
     else Return ([], url));
  let '(url, fragment) :=
    if contains "#" url then split1 "#" url else (url, []) in
  let '(url, query) :=
    if contains "?" url then split1 "?" url else (url, []) in
  if checknetloc netloc
  then Return (scheme, netloc, url, query, fragment)
  else Raise ValueError.

(** [urlparse(url, scheme)]. *)
Definition urlparse (url scheme : pystr) : result ParseResult :=
  '(scheme, netloc, url, query, fragment) ← urlsplit url scheme;
  let '(url, params) :=
    if bool_decide (scheme ∈ uses_params) && contains ";" url
    then splitparams url else (url, []) in
  Return (mkParseResult scheme netloc url params query fragment).

(** [urljoin(base, url)]. *)
Definition urljoin (base url : pystr) : result pystr :=
  if negb (truthy base) then Return url
  else if negb (truthy url) then Return base
  else
    b ← urlparse base [];
    u ← urlparse url (scheme b);
    if negb (bool_decide (scheme u = scheme b))
       || negb (bool_decide (scheme u ∈ uses_relative))
    then Return url
    else if bool_decide (scheme u ∈ uses_netloc) && truthy (netloc u)
    then Return (urlunparse u)
    else
      let netloc' :=
        if bool_decide (scheme u ∈ uses_netloc) then netloc b
        else netloc u in
      if negb (truthy (path u)) && negb (truthy (params u)) then
        let query' := if negb (truthy (query u)) then query b
                      else query u in
        Return (urlunparse (mkParseResult (scheme u) netloc' (path b)
                              (params b) query' (fragment u)))
      else
        let base_parts := split "/" (path b) in
        let base_parts :=
          if negb (bool_decide (List.last base_parts [] = []))
          then removelast base_parts else base_parts in
        let segments :=
          if bool_decide (upto (path u) 1 = "/")
          then split "/" (path u)
          else filter_middle (base_parts ++ split "/" (path u)) in
        let resolved_path := resolve segments in
        let resolved_path :=
          if bool_decide (List.last segments [] = ".")
             || bool_decide (List.last segments [] = "..")
          then resolved_path ++ [[]] else resolved_path in
        let joined := join "/" resolved_path in
        Return (urlunparse (mkParseResult (scheme u) netloc'
                              (if truthy joined then joined else "/")
                              (params u) (query u) (fragment u))).

End WithChecks.

End Urllib.

(** ** The crawler: [Milestone1.py] *)
Module Crawler.
Import Py Urllib.

(** What [requests.get] hands back: [resp.status_code] and [resp.text]. *)
Record Response : Type := mkResponse {
  status_code : Z;
  text : pystr
}.

(** The two kinds of file the script writes. *)
Inductive file : Type :=
  | PageFile (page_id : Z)      (* pages/{page_id}.html *)
  | VisitedFile.                (* pages/visited.txt *)

(** Everything outside the script.  The first argument of the functions is
    the number of loop iterations run so far, so the answers may change
    from one iteration to the next.  [list_of_set] is the order in which
    [list(found)] enumerates a set; Python leaves it unspecified, and no
    property below depends on it being a particular one. *)
Record World : Type := mkWorld {
  makedirs : result unit;
  requests_get : nat -> pystr -> Z -> list (pystr * pystr) -> result Response;
  open_write : nat -> file -> pystr -> result unit;
  list_of_set : nat -> gset pystr -> list pystr
}.

(** The settings at the top of the script. *)
Record Config : Type := mkConfig {
  seed_url : pystr;
  max_pages : Z;
  max_retries : Z
}.

(** The lines printed to standard output (timings left out). *)
Inductive Event : Type :=
  | Saved (f : file)
  | TransientRetry (url : pystr) (count : Z)
  | FailedAfterRetries (url : pystr)
  | PermanentFailure (url : pystr)
  | Summary (seed : pystr) (limit : Z) (crawled : nat)
            (queue_size : nat) (failed_count : option nat).

(** The module-level variables of the script, the clock and the output. *)
Record State : Type := mkState {
  queue : list pystr;
  visited : list pystr;
  visited_set : gset pystr;
  retries : gmap pystr Z;
  failed : gset pystr;
  page_id : Z;
  now : nat;
  stdout : list Event
}.

(** A stretch of the script either runs to its end or is left by an
    exception; the state is the one reached at that point. *)
Inductive outcome : Type :=
  | Normal (st : State)
  | Raised (e : exn) (st : State).

Definition state_of (o : outcome) : State :=
  match o with Normal st => st | Raised _ st => st end.

Section Program.
Context `{NetlocChecks}.

(** [get_domain(url)]. *)
Definition get_domain (url : pystr) : result pystr :=
  u ← urlparse url [];
  Return (lower (netloc u)).

Definition user_agent : list (pystr * pystr) :=
  [("User-Agent" : pystr, "WebScourCrawler/1.0" : pystr)].

(** [fetch_page(url, timeout)]: the body and the status string. *)
Definition fetch_page (w : World) (t : nat) (url : pystr) (timeout : Z)
  : result (option pystr * pystr) :=
  match requests_get w t url timeout user_agent with
  | Return resp =>
      let status_code := status_code resp in
      if status_code =? 200 then Return (Some (text resp), "ok" : pystr)
      else if (500 <=? status_code) && (status_code <? 600)
      then Return (None, "transient" : pystr)
      else Return (None, "permanent" : pystr)
  | Raise (RequestException _) => Return (None, "transient" : pystr)
  | Raise e => Raise e
  end.

(** Lines 77-80 of [extract_links]: the value of [abs_link] after
    resolving the link against the base and dropping the fragment. *)
Definition defragmented (base_url link : pystr) : result pystr :=
  joined ← urljoin base_url link;
  parsed ← urlparse joined [];
  Return (geturl (replace_fragment parsed [])).

(** Lines 77-83: the value of [abs_link] after the trailing slashes
    are stripped as well. *)
Definition abs_link (base_url link : pystr) : result pystr :=
  a ← defragmented base_url link;
  Return (rstrip "/" a).

(** Line 86: only HTTP and HTTPS links are kept. *)
Definition accepted (abs_link : pystr) : bool :=
  startswith "http://" abs_link || startswith "https://" abs_link.

(** Line 73. *)
Definition non_navigational (link : pystr) : bool :=
  startswith "#" link || startswith "mailto:" link
  || startswith "javascript:" link || startswith "tel:" link.

(** The [for link in raw_links] loop, filling [found]. *)
Fixpoint scan_links (base_url : pystr) (raw_links : list pystr)
    (found : gset pystr) : result (gset pystr) :=
  match raw_links with
  | [] => Return found
  | link :: rest =>
      let link := strip_ws link in
      if negb (truthy link) then scan_links base_url rest found
      else if non_navigational link then scan_links base_url rest found
      else
        a ← abs_link base_url link;
        if accepted a then scan_links base_url rest ({[a]} ∪ found)
        else scan_links base_url rest found
  end.

(** [extract_links(html, base_url)]; [order] is [list(found)]. *)
Definition extract_links (order : gset pystr -> list pystr)
    (html base_url : pystr) : result (list pystr) :=
  found ← scan_links base_url (Re.findall_href html) ∅;
  Return (order found).

Context (cfg : Config) (w : World).

Definition initial : State :=
  {| queue := [rstrip "/" (seed_url cfg)];
     visited := [];
     visited_set := ∅;
     retries := ∅;
     failed := ∅;
     page_id := 1;
     now := 0;
     stdout := [] |}.

(** [while queue and len(visited) < max_pages]. *)
Definition loop_cond (st : State) : bool :=
  match queue st with [] => false | _ :: _ => true end
  && (Z.of_nat (length (visited st)) <? max_pages cfg).

(** Lines 139-143: the [for link in links] loop on [queue].  An
    exception of [get_domain] leaves the loop with the queue as built
    so far. *)
Fixpoint enqueue (seed_domain : pystr) (links : list pystr)
    (visited_set : gset pystr) (queue : list pystr)
  : list pystr * option exn :=
  match links with
  | [] => (queue, None)
  | link :: links' =>
      match get_domain link with
      | Raise e => (queue, Some e)
      | Return d =>
          if bool_decide (d ≠ seed_domain)
          then enqueue seed_domain links' visited_set queue
          else if bool_decide (link ∉ visited_set)
                  && bool_decide (link ∉ queue)
          then enqueue seed_domain links' visited_set (queue ++ [link])
          else enqueue seed_domain links' visited_set queue
      end
  end.

(** One pass through the body of the main loop (lines 115-163). *)
Definition loop_body (seed_domain : pystr) (st : State) : outcome :=
  match queue st with
  | [] => Raised (OtherException "IndexError") st
  | url :: rest =>
      let t := now st in
      (* url = queue.pop(0) *)
      let st := mkState rest (visited st) (visited_set st) (retries st)
                  (failed st) (page_id st) (S t) (stdout st) in
      if bool_decide (url ∈ visited_set st) then Normal st
      else
        match fetch_page w t url 5 with
        | Raise e => Raised e st
        | Return (html, status) =>
            match bool_decide (status = ("ok" : pystr)), html with
            | true, Some html =>
                (* Case 1: successful fetch *)
                match open_write w t (PageFile (page_id st)) html with
                | Raise e => Raised e st
                | Return _ =>
                    let st :=
                      mkState (queue st) (visited st ++ [url])
                        ({[url]} ∪ visited_set st) (retries st)
                        (failed st) (page_id st + 1) (now st)
                        (stdout st ++ [Saved (PageFile (page_id st))]) in
                    match extract_links (list_of_set w t) html url with
                    | Raise e => Raised e st
                    | Return links =>
                        let '(q, err) :=
                          enqueue seed_domain links (visited_set st)
                            (queue st) in
                        let st :=
                          mkState q (visited st) (visited_set st)
                            (retries st) (failed st) (page_id st)
                            (now st) (stdout st) in
                        match err with
                        | Some e => Raised e st
                        | None => Normal st
                        end
                    end
                end
            | _, _ =>
                if bool_decide (status = ("transient" : pystr)) then
                  (* Case 2: transient failure *)
                  let count := default 0 (retries st !! url) + 1 in
                  if count <=? max_retries cfg then
                    Normal
                      (mkState (queue st ++ [url]) (visited st)
                         (visited_set st) (<[url := count]> (retries st))
                         (failed st) (page_id st) (now st)
                         (stdout st ++ [TransientRetry url count]))
                  else
                    Normal
                      (mkState (queue st) (visited st) (visited_set st)
                         (retries st) ({[url]} ∪ failed st) (page_id st)
                         (now st)
                         (stdout st ++ [FailedAfterRetries url]))
                else
                  (* Case 3: permanent failure *)
                  Normal
                    (mkState (queue st) (visited st) (visited_set st)
                       (retries st) ({[url]} ∪ failed st) (page_id st)
                       (now st) (stdout st ++ [PermanentFailure url]))
            end
        end
  end.

(** The main loop.  [None]: the iterations allowed by [fuel] did not
    suffice. *)
Fixpoint crawl_loop (seed_domain : pystr) (fuel : nat) (st : State)
  : option outcome :=
  if loop_cond st then
    match fuel with
    | O => None
    | S fuel' =>
        match loop_body seed_domain st with
        | Normal st' => crawl_loop seed_domain fuel' st'
        | Raised e st' => Some (Raised e st')
        end
    end
  else Some (Normal st).

(** The content of [visited.txt]: one URL per line. *)
Definition manifest (visited : list pystr) : pystr :=
  flat_map (fun u => u ++ [Re.newline]) visited.

(** Lines 167-182: write the manifest, print the summary. *)
Definition finish (st : State) : outcome :=
  match open_write w (now st) VisitedFile (manifest (visited st)) with
  | Raise e => Raised e st
  | Return _ =>
      Normal
        (mkState (queue st) (visited st) (visited_set st) (retries st)
           (failed st) (page_id st) (now st)
           (stdout st
            ++ [Summary (seed_url cfg) (max_pages cfg)
                  (length (visited st)) (length (queue st))
                  (if decide (failed st = ∅) then None
                   else Some (size (failed st)))]))
  end.

(** The whole script.  A failure before the loop is reported with the
    initial state. *)
Definition main (fuel : nat) : option outcome :=
  match makedirs w with
  | Raise e => Some (Raised e initial)
  | Return _ =>
      match get_domain (seed_url cfg) with
      | Raise e => Some (Raised e initial)
      | Return seed_domain =>
          match crawl_loop seed_domain fuel initial with
          | None => None
          | Some (Raised e st) => Some (Raised e st)
          | Some (Normal st) => Some (finish st)
          end
      end
  end.

End Program.

End Crawler.

(** * Definitions used to state the properties *)

(** ** Runs of the crawl loop *)
Module CrawlerSpec.
Import Py Urllib Crawler.

(** How often the retry branch has put [u] back in the queue, how often
    it has given [u] up, and the transient failures seen for [u]. *)
Definition is_retry (u : pystr) (ev : Event) : bool :=
  match ev with TransientRetry v _ => bool_decide (v = u) | _ => false end.
Definition is_give_up (u : pystr) (ev : Event) : bool :=
  match ev with FailedAfterRetries v => bool_decide (v = u) | _ => false end.
Definition is_summary (ev : Event) : bool :=
  match ev with Summary _ _ _ _ _ => true | _ => false end.

Definition requeues (u : pystr) (log : list Event) : nat :=
  length (List.filter (is_retry u) log).
Definition give_ups (u : pystr) (log : list Event) : nat :=
  length (List.filter (is_give_up u) log).
Definition transient_failures (u : pystr) (log : list Event) : nat :=
  (requeues u log + give_ups u log)%nat.

Section Config.
Context (cfg : Config).

(** One iteration, case by case: what an iteration does to the state,
    whether the body runs to its end or is left by an exception.  [T_pop]
    is the skip of an already visited URL and also the state an exception
    of [fetch_page] or of the page write leaves behind; [T_saved] covers a
    successful fetch, [added] being the links appended before the body
    ended. *)
Inductive transition : State → State → Prop :=
  | T_pop st url rest :
      queue st = url :: rest →
      transition st
        (mkState rest (visited st) (visited_set st) (retries st)
           (failed st) (page_id st) (S (now st)) (stdout st))
  | T_saved st url rest added :
      queue st = url :: rest →
      url ∉ visited_set st →
      Z.of_nat (length (visited st)) < max_pages cfg →
      (∀ u, u ∈ added → u ∉ ({[url]} ∪ visited_set st : gset pystr)) →
      (NoDup rest → NoDup (rest ++ added)) →
      transition st
        (mkState (rest ++ added) (visited st ++ [url])
           ({[url]} ∪ visited_set st) (retries st) (failed st)
           (page_id st + 1) (S (now st))
           (stdout st ++ [Saved (PageFile (page_id st))]))
  | T_retry st url rest :
      queue st = url :: rest →
      url ∉ visited_set st →
      default 0 (retries st !! url) + 1 ≤ max_retries cfg →
      transition st
        (mkState (rest ++ [url]) (visited st) (visited_set st)
           (<[url := default 0 (retries st !! url) + 1]> (retries st))
           (failed st) (page_id st) (S (now st))
           (stdout st
            ++ [TransientRetry url (default 0 (retries st !! url) + 1)]))
  | T_give_up st url rest :
      queue st = url :: rest →
      url ∉ visited_set st →
      max_retries cfg < default 0 (retries st !! url) + 1 →
      transition st
        (mkState rest (visited st) (visited_set st) (retries st)
           ({[url]} ∪ failed st) (page_id st) (S (now st))
           (stdout st ++ [FailedAfterRetries url]))
  | T_permanent st url rest :
      queue st = url :: rest →
      url ∉ visited_set st →
      transition st
        (mkState rest (visited st) (visited_set st) (retries st)
           ({[url]} ∪ failed st) (page_id st) (S (now st))
           (stdout st ++ [PermanentFailure url])).

(** The loop invariant. *)
Record inv (st : State) : Prop := mkInv {
  inv_nodup : NoDup (queue st);
  inv_disjoint : ∀ u, u ∈ queue st → u ∉ visited_set st;
  inv_vset : ∀ u, u ∈ visited_set st ↔ u ∈ visited st;
  inv_bound : Z.of_nat (length (visited st)) ≤ Z.max 0 (max_pages cfg);
  inv_page_id : page_id st = 1 + Z.of_nat (length (visited st));
  inv_requeues :
    ∀ u, Z.of_nat (requeues u (stdout st)) = default 0 (retries st !! u);
  inv_retries : ∀ u, default 0 (retries st !! u) ≤ Z.max 0 (max_retries cfg);
  inv_give_up :
    ∀ u, (0 < give_ups u (stdout st))%nat →
         max_retries cfg ≤ default 0 (retries st !! u) ∧ u ∈ failed st;
  inv_no_summary : ∀ ev, ev ∈ stdout st → is_summary ev = false
}.

(** The termination measure: [budget] is the number of pages still
    allowed; [load] charges every queued URL one unit for its fetch and one
    for each retry it may still get.  A successful fetch lowers [budget];
    every other iteration keeps it and lowers [load]. *)
Definition budget (st : State) : nat :=
  Z.to_nat (max_pages cfg - Z.of_nat (length (visited st))).

Definition weight (r : gmap pystr Z) (u : pystr) : nat :=
  S (Z.to_nat (max_retries cfg - default 0 (r !! u))).

Definition load (st : State) : nat :=
  sum_list_with (weight (retries st)) (queue st).

End Config.

Section Runs.
Context `{NetlocChecks} (cfg : Config) (w : World) (seed_domain : pystr).

(** One complete iteration of the loop: the loop test holds in [st] and
    the body runs to its end, leaving [st']. *)
Definition step (st st' : State) : Prop :=
  loop_cond cfg st = true ∧ loop_body cfg w seed_domain st = Normal st'.

(** The states the loop passes through: the states between complete
    iterations, and the state in which an exception leaves the body. *)
Definition reachable (st : State) : Prop :=
  ∃ st0, rtc step (initial cfg) st0
         ∧ (st = st0
            ∨ (loop_cond cfg st0 = true
               ∧ ∃ e, loop_body cfg w seed_domain st0 = Raised e st)).

(** The state at the [n]-th test of the loop condition, if the loop gets
    that far. *)
Fixpoint state_at (n : nat) (st : State) : option State :=
  match n with
  | O => Some st
  | S n' =>
      if loop_cond cfg st then
        match loop_body cfg w seed_domain st with
        | Normal st' => state_at n' st'
        | Raised _ _ => None
        end
      else None
  end.

(** How the loop ends after [n] iterations started from [st]: either the
    loop test fails in the state reached, or the [n]-th iteration was left
    by an exception. *)
Definition ends_with (n : nat) (st : State) (o : outcome) : Prop :=
  match o with
  | Normal st' => state_at n st = Some st' ∧ loop_cond cfg st' = false
  | Raised e st' =>
      ∃ m st_m, n = S m ∧ state_at m st = Some st_m
                ∧ loop_body cfg w seed_domain st_m = Raised e st'
  end.

End Runs.

End CrawlerSpec.

(** ** The steps of [urlsplit] *)
Module UrllibSpec.
Import Py Urllib.

(** The part of [urlsplit] that follows the detection of the scheme. *)
Definition after_scheme `{NetlocChecks} (scheme url : pystr)
  : result SplitResult :=
  '(netloc, url) ←
    (if bool_decide (upto url 2 = "//") then
       let '(netloc, url) := splitnetloc url 2 in
       if (contains "[" netloc && negb (contains "]" netloc))
          || (contains "]" netloc && negb (contains "[" netloc))
       then Raise ValueError
       else if contains "[" netloc && contains "]" netloc
               && negb (check_bracketed_netloc netloc)
       then Raise ValueError
       else Return (netloc, url)
     else Return ([], url));
  let '(url, fragment) :=
    if contains "#" url then split1 "#" url else (url, []) in
  let '(url, query) :=
    if contains "?" url then split1 "?" url else (url, []) in
  if checknetloc netloc
  then Return (scheme, netloc, url, query, fragment)
  else Raise ValueError.

(** A character that [urlsplit] neither removes nor reads as the start of
    the fragment. *)
Definition plain (c : ascii) : Prop :=
  (c ∉ UNSAFE_URL_BYTES_TO_REMOVE) ∧ c ≠ "#"%char.

#[export] Instance plain_dec (c : ascii) : Decision (plain c).
Proof. unfold plain. apply _. Defined.

End UrllibSpec.

(** ** Concrete worlds *)
Module Examples.
Import Py Urllib Crawler.

(** Library checks that let every netloc pass. *)
#[export] Instance lenient_checks : NetlocChecks :=
  {| check_bracketed_netloc := fun _ => true;
     nfkc_netloc_ok := fun _ => true |}.

Definition s_url : pystr := "http://s.example".
Definition a_url : pystr := "http://s.example/a".
Definition b_url : pystr := "http://s.example/b".

(** [<a href="u">]. *)
Definition anchor (u : pystr) : pystr :=
  "<a href=" ++ [Re.dquote] ++ u ++ [Re.dquote] ++ ">".

(** An enumeration order for sets: [a_url], then [b_url], then the
    rest. *)
Definition a_then_b (X : gset pystr) : list pystr :=
  List.filter (fun u => bool_decide (u ∈ X)) [a_url; b_url]
  ++ List.filter (fun u => negb (bool_decide (u ∈ [a_url; b_url])))
       (elements X).

Definition ok_write : nat → file → pystr → result unit :=
  fun _ _ _ => Return tt.

(** The seed links to [a_url] and [b_url]; [a_url] answers 503 and
    [b_url] answers 200 with no links. *)
Definition flaky_world : World :=
  {| makedirs := Return tt;
     requests_get := fun _ url _ _ =>
       if bool_decide (url = s_url)
       then Return (mkResponse 200 (anchor "/a" ++ anchor "/b"))
       else if bool_decide (url = a_url)
       then Return (mkResponse 503 [])
       else Return (mkResponse 200 "<p>b</p>");
     open_write := ok_write;
     list_of_set := fun _ => a_then_b |}.

Definition flaky_cfg : Config :=
  {| seed_url := "http://s.example/"; max_pages := 2; max_retries := 1 |}.

(** The seed links to [a_url] and [b_url]; [a_url] answers 404 on its
    first fetch and 200 afterwards; [b_url] links back to [a_url]. *)
Definition relink_world : World :=
  {| makedirs := Return tt;
     requests_get := fun t url _ _ =>
       if bool_decide (url = s_url)
       then Return (mkResponse 200 (anchor "/a" ++ anchor "/b"))
       else if bool_decide (url = a_url)
       then Return (mkResponse (if (t <=? 1)%nat then 404 else 200) [])
       else Return (mkResponse 200 (anchor "/a"));
     open_write := ok_write;
     list_of_set := fun _ => a_then_b |}.

Definition relink_cfg : Config :=
  {| seed_url := "http://s.example/"; max_pages := 5; max_retries := 3 |}.

(** The seed answers 200 with no links, and no page can be written. *)
Definition full_disk_world : World :=
  {| makedirs := Return tt;
     requests_get := fun _ _ _ _ => Return (mkResponse 200 "<p>hi</p>");
     open_write := fun _ f _ =>
       match f with PageFile _ => Raise OSError | VisitedFile => Return tt end;
     list_of_set := fun _ => elements |}.

Definition seed_page_url : pystr := "http://seed.example/page".

(** A page body with the four hyperlinks of the example. *)
Definition four_links_page : pystr :=
  "<html><body>" ++ anchor "#top" ++ anchor "mailto:a@b.com"
  ++ anchor "/x" ++ anchor "http://other.example/y" ++ "</body></html>".

(** Every page answers 200 and has no links. *)
Definition quiet_world : World :=
  {| makedirs := Return tt;
     requests_get := fun _ _ _ _ => Return (mkResponse 200 "<p>hi</p>");
     open_write := ok_write;
     list_of_set := fun _ => elements |}.

(** Every request times out. *)
Definition offline_world : World :=
  {| makedirs := Return tt;
     requests_get := fun _ _ _ _ => Raise (RequestException Timeout);
     open_write := ok_write;
     list_of_set := fun _ => elements |}.

(** The seed links to [a_url] and [b_url]; every other page links to
    http://[::1, a host with an unclosed bracket. *)
Definition bracket_world : World :=
  {| makedirs := Return tt;
     requests_get := fun _ url _ _ =>
       if bool_decide (url = s_url)
       then Return (mkResponse 200 (anchor "/a" ++ anchor "/b"))
       else Return (mkResponse 200 (anchor "http://[::1"));
     open_write := ok_write;
     list_of_set := fun _ => a_then_b |}.

(** Every page is [four_links_page]. *)
Definition four_links_world : World :=
  {| makedirs := Return tt;
     requests_get := fun _ _ _ _ => Return (mkResponse 200 four_links_page);
     open_write := ok_write;
     list_of_set := fun _ => elements |}.

Definition four_links_cfg : Config :=
  {| seed_url := seed_page_url; max_pages := 5; max_retries := 3 |}.

(** The page of the example, served over HTTPS. *)
Definition https_page_url : pystr := "https://seed.example/page".

End Examples.

(** ** One iteration of the loop, branch by branch *)
Module LoopSpec.
Import Py Urllib Crawler CrawlerSpec.

(** [list(found)] lists every element of the set [found] exactly once. *)
Definition lists_sets (w : World) : Prop :=
  ∀ t (X : gset pystr), list_of_set w t X ≡ₚ elements X.

(** The states an iteration can leave behind, given the state [st] it
    starts from, the URL popped and the rest of the queue. *)
Definition popped (st : State) (rest : list pystr) : State :=
  mkState rest (visited st) (visited_set st) (retries st) (failed st)
    (page_id st) (S (now st)) (stdout st).

Definition saved (st : State) (url : pystr) (q : list pystr) : State :=
  mkState q (visited st ++ [url]) ({[url]} ∪ visited_set st) (retries st)
    (failed st) (page_id st + 1) (S (now st))
    (stdout st ++ [Saved (PageFile (page_id st))]).

Definition requeued (st : State) (url : pystr) (rest : list pystr) (count : Z)
  : State :=
  mkState (rest ++ [url]) (visited st) (visited_set st)
    (<[url := count]> (retries st)) (failed st) (page_id st) (S (now st))
    (stdout st ++ [TransientRetry url count]).

Definition dropped (st : State) (url : pystr) (rest : list pystr) (ev : Event)
  : State :=
  mkState rest (visited st) (visited_set st) (retries st)
    ({[url]} ∪ failed st) (page_id st) (S (now st)) (stdout st ++ [ev]).

Section Iteration.
Context `{NetlocChecks} (cfg : Config) (w : World) (seed_domain : pystr).

(** The branches of the loop body, each with the calls it makes and what
    they answered. *)
Inductive iteration (st : State) : outcome → Prop :=
  | I_skip url rest :
      queue st = url :: rest →
      url ∈ visited_set st →
      iteration st (Normal (popped st rest))
  | I_fetch_raises url rest e :
      queue st = url :: rest →
      url ∉ visited_set st →
      fetch_page w (now st) url 5 = Raise e →
      iteration st (Raised e (popped st rest))
  | I_write_raises url rest html e :
      queue st = url :: rest →
      url ∉ visited_set st →
      fetch_page w (now st) url 5 = Return (Some html, "ok" : pystr) →
      open_write w (now st) (PageFile (page_id st)) html = Raise e →
      iteration st (Raised e (popped st rest))
  | I_extract_raises url rest html e :
      queue st = url :: rest →
      url ∉ visited_set st →
      fetch_page w (now st) url 5 = Return (Some html, "ok" : pystr) →
      open_write w (now st) (PageFile (page_id st)) html = Return tt →
      extract_links (list_of_set w (now st)) html url = Raise e →
      iteration st (Raised e (saved st url rest))
  | I_saved url rest html links q err :
      queue st = url :: rest →
      url ∉ visited_set st →
      fetch_page w (now st) url 5 = Return (Some html, "ok" : pystr) →
      open_write w (now st) (PageFile (page_id st)) html = Return tt →
      extract_links (list_of_set w (now st)) html url = Return links →
      enqueue seed_domain links ({[url]} ∪ visited_set st) rest = (q, err) →
      iteration st
        match err with
        | None => Normal (saved st url q)
        | Some e => Raised e (saved st url q)
        end
  | I_retry url rest html :
      queue st = url :: rest →
      url ∉ visited_set st →
      fetch_page w (now st) url 5 = Return (html, "transient" : pystr) →
      default 0 (retries st !! url) + 1 ≤ max_retries cfg →
      iteration st
        (Normal (requeued st url rest (default 0 (retries st !! url) + 1)))
  | I_give_up url rest html :
      queue st = url :: rest →
      url ∉ visited_set st →
      fetch_page w (now st) url 5 = Return (html, "transient" : pystr) →
      max_retries cfg < default 0 (retries st !! url) + 1 →
      iteration st (Normal (dropped st url rest (FailedAfterRetries url)))
  | I_permanent url rest html status :
      queue st = url :: rest →
      url ∉ visited_set st →
      fetch_page w (now st) url 5 = Return (html, status) →
      status ≠ ("transient" : pystr) →
      status ≠ ("ok" : pystr) ∨ html = None →
      iteration st (Normal (dropped st url rest (PermanentFailure url))).

End Iteration.

(** What the output says: the files reported as saved and the URLs
    reported as failed, in the order of the lines. *)
Definition saved_files (log : list Event) : list file :=
  omap (λ ev, match ev with Saved f => Some f | _ => None end) log.

Definition reported_failed (log : list Event) : list pystr :=
  omap (λ ev, match ev with
              | FailedAfterRetries u | PermanentFailure u => Some u
              | _ => None
              end) log.

(** [pages/1.html], ..., [pages/n.html]. *)
Definition page_files (n : nat) : list file :=
  (λ k, PageFile (Z.of_nat k)) <$> seq 1 n.

End LoopSpec.

(** ** Hyperlinks in a page *)
Module LinkSpec.
Import Py Urllib Crawler.

(** A text that can stand between the quotes of an [href]: it has no
    quote of either kind and no newline. *)
Definition hrefable (u : pystr) : Prop :=
  Forall (λ c, Re.is_quote c = false ∧ c ≠ Re.newline) u.

(** [href=], an opening quote, the text, a closing quote. *)
Definition href (q : ascii) (u : pystr) (q' : ascii) : pystr :=
  "href=" ++ q :: u ++ [q'].

(** A page made of hyperlinks, each followed by some other text. *)
Definition hyperlinks (items : list (ascii * pystr * ascii * pystr)) : pystr :=
  flat_map (λ '(q, u, q', sep), href q u q' ++ sep) items.

(** The raw link [raw] of a page at [base] is turned into the absolute
    link [l] and kept (lines 65-87 of [extract_links]). *)
Definition yields `{NetlocChecks} (base raw l : pystr) : Prop :=
  strip_ws raw ≠ []
  ∧ non_navigational (strip_ws raw) = false
  ∧ abs_link base (strip_ws raw) = Return l
  ∧ accepted l = true.

End LinkSpec.

(** ** The characters of a URL *)
Module CharSpec.
Import Py Urllib.

(** An ASCII character other than a square bracket. *)
Definition tame (c : ascii) : Prop :=
  isascii c = true ∧ c ≠ "["%char ∧ c ≠ "]"%char.

#[export] Instance tame_dec (c : ascii) : Decision (tame c).
Proof. unfold tame. apply _. Defined.

(** All six components of a parsed URL are made of characters with the
    property [P]. *)
Definition components (P : ascii → Prop) (c : ParseResult) : Prop :=
  Forall P (scheme c) ∧ Forall P (netloc c) ∧ Forall P (path c)
  ∧ Forall P (params c) ∧ Forall P (query c) ∧ Forall P (fragment c).

End CharSpec.

(** ** Worlds whose pages have tame links *)
Module WorldSpec.
Import Py Urllib Crawler LoopSpec CharSpec.

(** The [href]s of every page answered with status 200 are made of ASCII
    characters other than square brackets. *)
Definition tame_pages (w : World) : Prop :=
  ∀ t url resp, requests_get w t url 5 user_agent = Return resp →
                status_code resp = 200 →
                Forall (Forall tame) (Re.findall_href (text resp)).

End WorldSpec.

(** ** Hosts *)
Module DomainSpec.
Import Py Urllib CharSpec.

(** A character that can stand in the host part of a URL as it is: an
    ASCII character that is not a square bracket, does not end the host
    ("/", "?", "#") and is not removed by [urlsplit] (tab, carriage
    return, newline). *)
Definition hostchar (c : ascii) : Prop :=
  tame c ∧ (c ∉ ["/"; "?"; "#"]%char) ∧ c ∉ UNSAFE_URL_BYTES_TO_REMOVE.

#[export] Instance hostchar_dec (c : ascii) : Decision (hostchar c).
Proof. unfold hostchar. apply _. Defined.

(** What may follow the host: nothing, or a text that starts with "/",
    "?" or "#". *)
Definition after_host (rest : pystr) : Prop :=
  match rest with
  | [] => True
  | d :: _ => d ∈ ["/"; "?"; "#"]%char
  end.

End DomainSpec.

(** ** More concrete worlds *)
Module Worlds.
Import Py Urllib Crawler Examples.

(** As [flaky_cfg], with retries switched off. *)
Definition no_retry_cfg : Config :=
  {| seed_url := "http://s.example/"; max_pages := 5; max_retries := 0 |}.

(** A page limit of zero. *)
Definition idle_cfg : Config :=
  {| seed_url := "http://s.example/"; max_pages := 0; max_retries := 3 |}.

(** The seed page links to http://[::1, a host with an unclosed
    bracket. *)
Definition broken_link_world : World :=
  {| makedirs := Return tt;
     requests_get := fun _ _ _ _ =>
       Return (mkResponse 200 (anchor "/a" ++ anchor " http://[::1 "));
     open_write := ok_write;
     list_of_set := fun _ => elements |}.

(** The first request is interrupted from the keyboard. *)
Definition interrupted_world : World :=
  {| makedirs := Return tt;
     requests_get := fun _ _ _ _ =>
       Raise (OtherException "KeyboardInterrupt");
     open_write := ok_write;
     list_of_set := fun _ => elements |}.

(** A page with two hyperlinks, one in double and one in single
    quotes. *)
Definition two_links : list (ascii * pystr * ascii * pystr) :=
  [ (Re.dquote, "/a" : pystr, Re.dquote, ">A</a> <a " : pystr);
    (Re.squote, "b.htm" : pystr, Re.squote, ">B</a>" : pystr) ].

End Worlds.

(** ** Python dicts *)
Module Dict.

Section Dict.
Context {K V : Type} `{EqDecision K}.

(** A [dict] is the list of its items in insertion order; no key occurs
    twice. *)

(** [d.get(k)]: the value at [k], if [k] is a key. *)
Fixpoint get (d : list (K * V)) (k : K) : option V :=
  match d with
  | [] => None
  | (k', v) :: d' => if decide (k' = k) then Some v else get d' k
  end.

(** [d[k] = v]: a key that is there keeps its place, a new key goes to
    the end. *)
Fixpoint set (d : list (K * V)) (k : K) (v : V) : list (K * V) :=
  match d with
  | [] => [(k, v)]
  | (k', v') :: d' =>
      if decide (k' = k) then (k', v) :: d' else (k', v') :: set d' k v
  end.

(** [d.keys()]. *)
Definition keys (d : list (K * V)) : list K := fst <$> d.

End Dict.

End Dict.

(** ** The indexer: [indexer/milestone3_indexer.py] *)
Module Indexer.
Import Py.

(** [string.punctuation]. *)
Definition punctuation : pystr :=
  "!" ++ [Re.dquote] ++ "#$%&'()*+,-./:;<=>?@[\]^_`{|}~".

(** [text.translate(translator)] for the table that [str.maketrans]
    builds to delete the characters of [chars]. *)
Definition delete_chars (chars : pystr) (text : pystr) : pystr :=
  filter (λ c, c ∉ chars) text.

(** [text.split()]: the maximal runs of characters that are not white
    space; [word] is the run being read. *)
Fixpoint split_ws_from (word : pystr) (text : pystr) : list pystr :=
  match text with
  | [] => if truthy word then [word] else []
  | c :: rest =>
      if isspace c then
        if truthy word then word :: split_ws_from [] rest
        else split_ws_from [] rest
      else split_ws_from (word ++ [c]) rest
  end.

Definition split_ws (text : pystr) : list pystr := split_ws_from [] text.

(** [tokenize(text)]. *)
Definition tokenize (text : pystr) : list pystr :=
  let text := lower text in
  let text := delete_chars punctuation text in
  split_ws text.

(** [compute_tf(tokens)]. *)
Definition compute_tf (tokens : list pystr) : list (pystr * Z) :=
  fold_left (λ tf word, Dict.set tf word (default 0 (Dict.get tf word) + 1))
            tokens [].

Section Index.
(** [extract_text_from_html] goes through BeautifulSoup and is taken as
    given. *)
Context (extract_text_from_html : pystr → result pystr).

(** The inner loop of [build_inverted_index]:
    [inverted_index.setdefault(word, []).append([doc_id, freq])] for the
    items of [tf]. *)
Definition add_postings (doc_id : pystr) (tf : list (pystr * Z))
    (inverted_index : list (pystr * list (pystr * Z)))
  : list (pystr * list (pystr * Z)) :=
  fold_left (λ index '(word, freq),
               Dict.set index word
                 (default [] (Dict.get index word) ++ [(doc_id, freq)]))
            tf inverted_index.

(** The outer loop, over [documents.items()]. *)
Fixpoint index_documents (documents : list (pystr * pystr))
    (inverted_index : list (pystr * list (pystr * Z)))
  : result (list (pystr * list (pystr * Z))) :=
  match documents with
  | [] => Return inverted_index
  | (doc_id, html) :: documents' =>
      text ← extract_text_from_html html;
      let tokens := tokenize text in
      let tf := compute_tf tokens in
      index_documents documents' (add_postings doc_id tf inverted_index)
  end.

(** [build_inverted_index(documents)]. *)
Definition build_inverted_index (documents : list (pystr * pystr))
  : result (list (pystr * list (pystr * Z))) :=
  index_documents documents [].

End Index.

End Indexer.

(** ** Tokens and postings *)
Module IndexSpec.
Import Py Indexer.

(** A token as [tokenize] produces them: not empty, and made of
    characters that are not white space, not punctuation and not upper
    case. *)
Definition clean (c : ascii) : Prop :=
  isspace c = false ∧ (c ∉ punctuation) ∧ lower_char c = c.

#[export] Instance clean_dec (c : ascii) : Decision (clean c).
Proof. unfold clean. apply _. Defined.

Definition token (t : pystr) : Prop := t ≠ [] ∧ Forall clean t.

(** How often [w] occurs in [tokens]. *)
Definition occurrences (w : pystr) (tokens : list pystr) : nat :=
  length (filter (λ t, t = w) tokens).

(** The postings of the word [w] for documents given with their texts:
    one entry for each document in which [w] occurs, in the order of the
    documents, with the number of occurrences. *)
Definition postings (w : pystr) (texts : list (pystr * pystr))
  : list (pystr * Z) :=
  omap (λ '(doc_id, text),
          let n := occurrences w (tokenize text) in
          if decide (n = 0%nat) then None else Some (doc_id, Z.of_nat n))
       texts.

End IndexSpec.

(** * Properties of the string built-ins *)
Module PyProps.
Import Py.

Lemma contains_true c s : contains c s = true ↔ c ∈ s.
Proof. unfold contains. apply bool_decide_eq_true. Qed.

Lemma contains_false c s : contains c s = false ↔ c ∉ s.
Proof. unfold contains. apply bool_decide_eq_false. Qed.

Lemma truthy_true (s : pystr) : truthy s = true ↔ s ≠ [].
Proof. by destruct s. Qed.

Lemma truthy_false (s : pystr) : truthy s = false ↔ s = [].
Proof. by destruct s. Qed.

(** *** Stripping *)

Lemma lstrip_spec chars s :
  ∃ pre, s = pre ++ lstrip chars s
         ∧ Forall (λ c, c ∈ chars) pre
         ∧ ∀ c, head (lstrip chars s) = Some c → c ∉ chars.
Proof.
  induction s as [|x s IH]; simpl.
  - exists []. split; [done|]. split; [constructor|]. done.
  - destruct (contains x chars) eqn:Hx.
    + destruct IH as (pre & Hs & Hpre & Hhd).
      exists (x :: pre). split; [simpl; by f_equal|].
      split; [|done]. constructor; [|done]. by apply contains_true.
    + exists []. split; [done|]. split; [constructor|].
      simpl. intros c [= <-]. by apply contains_false.
Qed.

Lemma lstrip_fixed chars s :
  (∀ c, head s = Some c → c ∉ chars) → lstrip chars s = s.
Proof.
  destruct s as [|x s]; simpl; [done|]. intros Hhd.
  by rewrite (proj2 (contains_false x chars) (Hhd x eq_refl)).
Qed.

Lemma rstrip_spec chars s :
  ∃ suf, s = rstrip chars s ++ suf
         ∧ Forall (λ c, c ∈ chars) suf
         ∧ ∀ c, last (rstrip chars s) = Some c → c ∉ chars.
Proof.
  unfold rstrip.
  destruct (lstrip_spec chars (reverse s)) as (pre & Hs & Hpre & Hhd).
  exists (reverse pre). split; [|split].
  - rewrite <- reverse_app, <- Hs. by rewrite reverse_involutive.
  - by apply Forall_reverse.
  - intros c. rewrite last_reverse. apply Hhd.
Qed.

Lemma rstrip_fixed chars s :
  (∀ c, last s = Some c → c ∉ chars) → rstrip chars s = s.
Proof.
  intros Hl. unfold rstrip. rewrite lstrip_fixed.
  - apply reverse_involutive.
  - intros c. rewrite head_reverse. apply Hl.
Qed.

Lemma rstrip_idemp chars s : rstrip chars (rstrip chars s) = rstrip chars s.
Proof.
  apply rstrip_fixed. by destruct (rstrip_spec chars s) as (_ & _ & _ & Hl).
Qed.

Lemma Forall_one_char (c : ascii) (l : pystr) :
  Forall (λ x, x ∈ [c]) l → l = replicate (length l) c.
Proof.
  induction 1 as [|x l Hx _ IH]; simpl; [done|].
  apply list_elem_of_singleton in Hx. by rewrite Hx, <- IH.
Qed.

(** *** Slices and [find] *)

Lemma clip_nonneg (s : pystr) (i : Z) :
  0 ≤ i ≤ Z.of_nat (length s) → clip s i = Z.to_nat i.
Proof.
  intros Hi. unfold clip. destruct (Z.ltb_spec i 0); [lia|].
  f_equal. lia.
Qed.

Lemma upto_app_length (a b : pystr) : upto (a ++ b) (Z.of_nat (length a)) = a.
Proof.
  unfold upto. rewrite clip_nonneg by (rewrite length_app; lia).
  rewrite Nat2Z.id. by rewrite take_app_length.
Qed.

Lemma from_app_length (a b : pystr) : from (a ++ b) (Z.of_nat (length a)) = b.
Proof.
  unfold from. rewrite clip_nonneg by (rewrite length_app; lia).
  rewrite Nat2Z.id. by rewrite drop_app_length.
Qed.

(** [find_aux] either misses, or points at the first occurrence. *)
Lemma find_aux_spec (c : ascii) (s : pystr) (i : Z) :
  (find_aux c s i = -1 ∧ c ∉ s)
  ∨ (∃ a b, s = a ++ c :: b ∧ (c ∉ a)
            ∧ find_aux c s i = i + Z.of_nat (length a)).
Proof.
  revert i. induction s as [|x s IH]; intros i; simpl.
  - left. split; [done|]. apply not_elem_of_nil.
  - destruct (decide (x = c)) as [->|Hne].
    + right. exists [], s. split; [done|].
      split; [apply not_elem_of_nil|]. simpl. lia.
    + destruct (IH (i + 1)) as [(Hr & Hnin)|(a & b & -> & Hnin & Hr)].
      * left. split; [done|].
        apply not_elem_of_cons. split; [by apply not_eq_sym|done].
      * right. exists (x :: a), b. split; [done|]. split.
        -- apply not_elem_of_cons. split; [by apply not_eq_sym|done].
        -- rewrite Hr. simpl. lia.
Qed.

(** A hit of [s.find(c, start)] cuts [s] in two at that index. *)
Lemma find_hit (c : ascii) (s : pystr) (start : nat) (r : Z) :
  find c s start = r → 0 ≤ r →
  ∃ a b, s = a ++ c :: b
         ∧ Z.of_nat (length a) = r
         ∧ (start ≤ length a)%nat
         ∧ c ∉ drop start a.
Proof.
  unfold find. intros Hf Hr.
  destruct (find_aux_spec c (drop start s) (Z.of_nat start))
    as [(Hm & _)|(a & b & Hs & Hnin & Hhit)]; [lia|].
  exists (take start s ++ a), b.
  assert (start ≤ length s)%nat as Hlen.
  { destruct (Nat.le_gt_cases start (length s)) as [|Hgt]; [done|].
    rewrite drop_ge in Hs by lia. by destruct a. }
  split; [|split; [|split]].
  - rewrite <- app_assoc, <- Hs. by rewrite take_drop.
  - rewrite length_app, length_take. lia.
  - rewrite length_app, length_take. lia.
  - rewrite drop_app_length'; [done|]. rewrite length_take. lia.
Qed.

(** A miss of [s.find(c, start)]: there is no [c] from [start] on. *)
Lemma find_miss (c : ascii) (s : pystr) (start : nat) :
  find c s start < 0 → c ∉ drop start s.
Proof.
  unfold find. intros Hf.
  destruct (find_aux_spec c (drop start s) (Z.of_nat start))
    as [(_ & Hnin)|(a & b & Hs & Hnin & Hhit)]; [done|lia].
Qed.

Lemma find_contains (c : ascii) (s : pystr) :
  contains c s = true → 0 ≤ find c s 0.
Proof.
  intros Hc. apply contains_true in Hc.
  destruct (Z.lt_ge_cases (find c s 0) 0) as [Hlt|]; [|done].
  by apply find_miss in Hlt.
Qed.

Lemma upto_hit (a b : pystr) (c : ascii) :
  upto (a ++ c :: b) (Z.of_nat (length a)) = a.
Proof. apply upto_app_length. Qed.

Lemma from_hit (a b : pystr) (c : ascii) :
  from (a ++ c :: b) (Z.of_nat (length a) + 1) = b.
Proof.
  replace (a ++ c :: b) with ((a ++ [c]) ++ b) by (by rewrite <- app_assoc).
  replace (Z.of_nat (length a) + 1) with (Z.of_nat (length (a ++ [c])))
    by (rewrite length_app; simpl; lia).
  apply from_app_length.
Qed.

(** [s.split(c, 1)] cuts at the first [c]. *)
Lemma split1_spec (c : ascii) (s a b : pystr) :
  contains c s = true → split1 c s = (a, b) →
  s = a ++ c :: b ∧ c ∉ a.
Proof.
  intros Hc. unfold split1. intros Hs.
  destruct (find_hit c s 0 _ eq_refl (find_contains _ _ Hc))
    as (a' & b' & -> & Hlen & _ & Hnin).
  rewrite <- Hlen, upto_hit, from_hit in Hs. by injection Hs as <- <-.
Qed.

(** *** Cutting a list at a character *)

(** A list cut in two ways, the second at a character that the tail of
    the first cut does not have: the second cut lies in the head of the
    first. *)
Lemma app_cut_head {A} (a0 x a b : list A) (c : A) :
  a0 ++ x = a ++ c :: b → c ∉ x →
  ∃ m, a0 = a ++ c :: m ∧ b = m ++ x.
Proof.
  revert a. induction a0 as [|y a0 IH]; intros a Heq Hc.
  - exfalso. apply Hc. simpl in Heq. rewrite Heq. apply elem_of_app.
    right. by left.
  - destruct a as [|y' a]; simpl in Heq.
    + injection Heq as -> <-. by exists a0.
    + injection Heq as -> Heq. destruct (IH a Heq Hc) as (m & -> & ->).
      by exists m.
Qed.

(** The first occurrence of a character is where it is. *)
Lemma first_cut_inj {A} (a a' b b' : list A) (c : A) :
  a ++ c :: b = a' ++ c :: b' → c ∉ a → c ∉ a' → a = a' ∧ b = b'.
Proof.
  revert a'. induction a as [|y a IH]; intros a' Heq Ha Ha'.
  - destruct a' as [|y' a']; simpl in Heq.
    + by injection Heq as <-.
    + injection Heq as <- _. exfalso. apply Ha'. by left.
  - destruct a' as [|y' a']; simpl in Heq.
    + injection Heq as -> _. exfalso. apply Ha. by left.
    + injection Heq as <- Heq.
      apply not_elem_of_cons in Ha as [_ Ha].
      apply not_elem_of_cons in Ha' as [_ Ha'].
      destruct (IH a' Heq Ha Ha') as [-> ->]. done.
Qed.

Lemma last_cut {A} `{EqDecision A} (l : list A) (c : A) :
  c ∈ l → ∃ a b, l = a ++ c :: b ∧ c ∉ b.
Proof.
  induction l as [|x l IH]; intros Hin; [by apply elem_of_nil in Hin|].
  destruct (decide (c ∈ l)) as [Hl|Hl].
  - destruct (IH Hl) as (a & b & -> & Hb). by exists (x :: a), b.
  - apply elem_of_cons in Hin as [->|Hin]; [|done]. by exists [], l.
Qed.

Lemma nonempty_snoc {A} (l : list A) : l ≠ [] → ∃ l0 x, l = l0 ++ [x].
Proof.
  intros Hl. induction l as [|x l _] using rev_ind; [done|].
  by exists l, x.
Qed.

(** *** [rfind] *)

Lemma rfind_aux_spec (c : ascii) (s : pystr) (i last : Z) :
  (rfind_aux c s i last = last ∧ c ∉ s)
  ∨ (∃ a b, s = a ++ c :: b ∧ (c ∉ b)
            ∧ rfind_aux c s i last = i + Z.of_nat (length a)).
Proof.
  revert i last. induction s as [|x s IH]; intros i last; simpl.
  - left. split; [done|]. apply not_elem_of_nil.
  - destruct (IH (i + 1) (if decide (x = c) then i else last))
      as [(Hr & Hnin)|(a & b & -> & Hnin & Hr)].
    + destruct (decide (x = c)) as [->|Hne].
      * right. exists [], s. split; [done|]. split; [done|].
        rewrite Hr. simpl. lia.
      * left. split; [done|].
        apply not_elem_of_cons. split; [by apply not_eq_sym|done].
    + right. exists (x :: a), b. split; [done|]. split; [done|].
      rewrite Hr. simpl. lia.
Qed.

Lemma rfind_hit (c : ascii) (s : pystr) :
  c ∈ s →
  ∃ a b, s = a ++ c :: b ∧ (c ∉ b) ∧ rfind c s = Z.of_nat (length a).
Proof.
  intros Hin. unfold rfind.
  destruct (rfind_aux_spec c s 0 (-1)) as [(_ & Hnin)|(a & b & Hs & Hb & Hr)];
    [done|].
  exists a, b. split; [done|]. split; [done|]. rewrite Hr. lia.
Qed.

End PyProps.

(** * Properties of [urllib.parse] *)
Module UrllibProps.
Import Py PyProps Urllib UrllibSpec.

Lemma find_aux_range (c : ascii) (t : pystr) (i : Z) :
  find_aux c t i = -1 ∨ i ≤ find_aux c t i < i + Z.of_nat (length t).
Proof.
  destruct (find_aux_spec c t i) as [[Hm _]|(a & b & -> & _ & Hh)];
    [by left|right].
  rewrite Hh, length_app. simpl. lia.
Qed.

Lemma find_aux_before (c : ascii) (t : pystr) (i : Z) (k : nat) :
  0 ≤ i →
  find_aux c t i = -1 ∨ i + Z.of_nat k ≤ find_aux c t i →
  c ∉ take k t.
Proof.
  intros Hi Hk.
  destruct (find_aux_spec c t i) as [[Hm Hnin]|(a & b & -> & Hnin & Hh)].
  - intros Hin. apply Hnin. by apply (subseteq_take k t).
  - rewrite take_app_le by lia. intros Hin. apply Hnin.
    by apply (subseteq_take k a).
Qed.

Lemma find_aux_at (c : ascii) (t : pystr) (i : Z) (k : nat) :
  0 ≤ i → find_aux c t i = i + Z.of_nat k → ∃ r', drop k t = c :: r'.
Proof.
  intros Hi Hk.
  destruct (find_aux_spec c t i) as [[Hm _]|(a & b & -> & _ & Hh)]; [lia|].
  exists b. assert (k = length a) as -> by lia. by rewrite drop_app_length.
Qed.

Lemma slice_from_2 (t : pystr) (k : nat) :
  (k ≤ length t)%nat →
  slice ("/"%char :: "/"%char :: t) 2 (2 + Z.of_nat k) = take k t
  ∧ from ("/"%char :: "/"%char :: t) (2 + Z.of_nat k) = drop k t.
Proof.
  intros Hk. unfold slice, from.
  rewrite !clip_nonneg by (simpl; lia).
  replace (Z.to_nat (2 + Z.of_nat k)) with (S (S k)) by lia.
  replace (Z.to_nat 2) with 2%nat by lia.
  replace (S (S k) - 2)%nat with k by lia. done.
Qed.

(** [_splitnetloc(url, 2)] on a URL that starts with two slashes: the
    netloc runs up to the first of the delimiters "/", "?", "#". *)
Lemma splitnetloc_spec (t n r : pystr) :
  splitnetloc ("/"%char :: "/"%char :: t) 2 = (n, r) →
  t = n ++ r
  ∧ ("/"%char ∉ n) ∧ ("?"%char ∉ n) ∧ ("#"%char ∉ n)
  ∧ (r = [] ∨ ∃ d r', r = d :: r' ∧ d ∈ ["/"; "?"; "#"]%char).
Proof.
  unfold splitnetloc.
  change (list_ascii_of_string "/?#") with ["/"; "?"; "#"]%char.
  cbn [fold_left]. unfold find. cbn [drop]. rewrite !drop_0.
  change (Z.of_nat 2) with 2.
  set (len := Z.of_nat (length ("/"%char :: "/"%char :: t))).
  assert (len = 2 + Z.of_nat (length t)) as Hlen by (unfold len; simpl; lia).
  clearbody len.
  pose proof (find_aux_range "/" t 2) as R1.
  pose proof (find_aux_range "?" t 2) as R2.
  pose proof (find_aux_range "#" t 2) as R3.
  pose proof (find_aux_before "/" t 2) as B1.
  pose proof (find_aux_before "?" t 2) as B2.
  pose proof (find_aux_before "#" t 2) as B3.
  pose proof (find_aux_at "/" t 2) as A1.
  pose proof (find_aux_at "?" t 2) as A2.
  pose proof (find_aux_at "#" t 2) as A3.
  set (i1 := find_aux "/" t 2) in *.
  set (i2 := find_aux "?" t 2) in *.
  set (i3 := find_aux "#" t 2) in *.
  clearbody i1 i2 i3.
  match goal with
  | |- (slice _ _ ?D, _) = _ → _ => set (delim := D)
  end.
  assert (2 ≤ delim ≤ len
          ∧ (i1 = -1 ∨ delim ≤ i1) ∧ (i2 = -1 ∨ delim ≤ i2)
          ∧ (i3 = -1 ∨ delim ≤ i3)
          ∧ (delim = len ∨ delim = i1 ∨ delim = i2 ∨ delim = i3))
    as (Hd & D1 & D2 & D3 & Hwhich).
  { unfold delim.
    destruct (Z.leb_spec 0 i1); destruct (Z.leb_spec 0 i2);
      destruct (Z.leb_spec 0 i3); lia. }
  clearbody delim.
  assert (delim = 2 + Z.of_nat (Z.to_nat (delim - 2))) as Hk by lia.
  set (k := Z.to_nat (delim - 2)) in *.
  assert (k ≤ length t)%nat as Hkt by lia.
  rewrite Hk. destruct (slice_from_2 t k Hkt) as [-> ->].
  intros [= <- <-].
  split; [by rewrite take_drop|].
  split; [apply B1; lia|]. split; [apply B2; lia|]. split; [apply B3; lia|].
  destruct (decide (k = length t)) as [->|Hne].
  { left. by rewrite drop_all. }
  right.
  destruct Hwhich as [?|[Hw|[Hw|Hw]]]; [lia|..].
  - destruct (A1 k) as [r' ->]; [lia|lia|]. exists "/"%char, r'.
    split; [done|]. by left.
  - destruct (A2 k) as [r' ->]; [lia|lia|]. exists "?"%char, r'.
    split; [done|]. right. by left.
  - destruct (A3 k) as [r' ->]; [lia|lia|]. exists "#"%char, r'.
    split; [done|]. right. right. by left.
Qed.

(** [_splitparams(url)] either finds no parameters or cuts [url] at a
    semicolon. *)
Lemma splitparams_spec (p p' pa : pystr) :
  contains ";" p = true → splitparams p = (p', pa) →
  p = p' ++ ";"%char :: pa ∨ (p' = p ∧ pa = []).
Proof.
  intros Hc. unfold splitparams. destruct (contains "/" p).
  - destruct (Z.ltb_spec (find ";" p (Z.to_nat (rfind "/" p))) 0) as [Hlt|Hge].
    + intros [= <- <-]. by right.
    + destruct (find_hit _ _ _ _ eq_refl Hge) as (a & b & -> & Hlen & _).
      rewrite <- Hlen, upto_hit, from_hit. intros [= <- <-]. by left.
  - destruct (find_hit _ _ _ _ eq_refl (find_contains _ _ Hc))
      as (a & b & -> & Hlen & _).
    rewrite <- Hlen, upto_hit, from_hit. intros [= <- <-]. by left.
Qed.

Lemma remove_char_safe (b : ascii) (s : pystr) :
  b ∉ s → remove_char b s = s.
Proof.
  unfold remove_char. induction s as [|x s IH]; [done|].
  intros Hnin. apply not_elem_of_cons in Hnin as [Hne Hnin].
  rewrite filter_cons_True by (by apply not_eq_sym). by rewrite IH.
Qed.

(** When [url] needs no cleaning and starts with a scheme, [urlsplit]
    ignores the default scheme and carries on with the detected one. *)
Lemma urlsplit_detect `{NetlocChecks} (x d : pystr) :
  lstrip WHATWG_C0_CONTROL_OR_SPACE x = x →
  fold_left (λ u b, remove_char b u) UNSAFE_URL_BYTES_TO_REMOVE x = x →
  (0 <? find ":" x 0)
  && match x with
     | c :: _ => isascii c && isalpha_ascii c
     | [] => false
     end
  && forallb (λ c, contains c scheme_chars) (upto x (find ":" x 0)) = true →
  urlsplit x d
  = after_scheme (lower (upto x (find ":" x 0))) (from x (find ":" x 0 + 1)).
Proof.
  intros Hl Hf Hc. unfold urlsplit. rewrite Hl. cbv zeta. rewrite Hf, Hc.
  reflexivity.
Qed.

Lemma unsafe_free (x : pystr) :
  Forall (λ c, c ∉ UNSAFE_URL_BYTES_TO_REMOVE) x →
  fold_left (λ u b, remove_char b u) UNSAFE_URL_BYTES_TO_REMOVE x = x.
Proof.
  intros Hsafe. unfold UNSAFE_URL_BYTES_TO_REMOVE. cbn [fold_left].
  assert (∀ b, b ∈ UNSAFE_URL_BYTES_TO_REMOVE → b ∉ x) as Hnin.
  { intros b Hb Hin. by apply (proj1 (Forall_forall _ _) Hsafe b Hin). }
  rewrite (remove_char_safe "009"%char x) by (apply Hnin; by left).
  rewrite (remove_char_safe "013"%char x) by (apply Hnin; right; by left).
  by rewrite (remove_char_safe "010"%char x)
    by (apply Hnin; right; right; by left).
Qed.

Lemma urlsplit_http `{NetlocChecks} (t d : pystr) :
  Forall (λ c, c ∉ UNSAFE_URL_BYTES_TO_REMOVE) t →
  urlsplit ("http://" ++ t) d
  = after_scheme "http" ("/"%char :: "/"%char :: t).
Proof.
  intros Hsafe.
  assert (find ":" ("http://" ++ t) 0 = 4) as Hfind by reflexivity.
  rewrite urlsplit_detect; rewrite ?Hfind.
  - f_equal.
    + change (("http://" : pystr) ++ t) with (("http" : pystr) ++ ("://" ++ t)).
      change 4 with (Z.of_nat (length ("http" : pystr))).
      by rewrite upto_app_length.
    + change (("http://" : pystr) ++ t)
        with (("http:" : pystr) ++ ("/"%char :: "/"%char :: t)).
      change (4 + 1) with (Z.of_nat (length ("http:" : pystr))).
      by rewrite from_app_length.
  - apply lstrip_fixed. simpl. intros c [= <-]. apply contains_false.
    by vm_compute.
  - apply unsafe_free. change (("http://" : pystr) ++ t)
      with (("http://" : pystr) ++ t).
    apply Forall_app. split; [|done].
    repeat constructor; apply contains_false; by vm_compute.
  - replace (upto ("http://" ++ t) 4) with ("http" : pystr); [reflexivity|].
    change (("http://" : pystr) ++ t) with (("http" : pystr) ++ ("://" ++ t)).
    change 4 with (Z.of_nat (length ("http" : pystr))).
    by rewrite upto_app_length.
Qed.

Lemma urlsplit_https `{NetlocChecks} (t d : pystr) :
  Forall (λ c, c ∉ UNSAFE_URL_BYTES_TO_REMOVE) t →
  urlsplit ("https://" ++ t) d
  = after_scheme "https" ("/"%char :: "/"%char :: t).
Proof.
  intros Hsafe.
  assert (find ":" ("https://" ++ t) 0 = 5) as Hfind by reflexivity.
  rewrite urlsplit_detect; rewrite ?Hfind.
  - f_equal.
    + change (("https://" : pystr) ++ t)
        with (("https" : pystr) ++ ("://" ++ t)).
      change 5 with (Z.of_nat (length ("https" : pystr))).
      by rewrite upto_app_length.
    + change (("https://" : pystr) ++ t)
        with (("https:" : pystr) ++ ("/"%char :: "/"%char :: t)).
      change (5 + 1) with (Z.of_nat (length ("https:" : pystr))).
      by rewrite from_app_length.
  - apply lstrip_fixed. simpl. intros c [= <-]. apply contains_false.
    by vm_compute.
  - apply unsafe_free. apply Forall_app. split; [|done].
    repeat constructor; apply contains_false; by vm_compute.
  - replace (upto ("https://" ++ t) 5) with ("https" : pystr); [reflexivity|].
    change (("https://" : pystr) ++ t)
      with (("https" : pystr) ++ ("://" ++ t)).
    change 5 with (Z.of_nat (length ("https" : pystr))).
    by rewrite upto_app_length.
Qed.

(** What [urlsplit] makes of the text [t] behind "scheme://" when [t] has
    no "#": netloc, path and query are consecutive pieces of [t]. *)
Lemma after_scheme_spec `{NetlocChecks} (sch t s n p q f : pystr) :
  after_scheme sch ("/"%char :: "/"%char :: t) = Return (s, n, p, q, f) →
  "#"%char ∉ t →
  s = sch ∧ f = []
  ∧ (p = [] ∨ ∃ p0, p = "/"%char :: p0)
  ∧ ((t = n ++ p ∧ q = []) ∨ t = n ++ p ++ "?"%char :: q).
Proof.
  unfold after_scheme. intros Hsplit Hfrag.
  assert (upto ("/"%char :: "/"%char :: t) 2 = ("//" : pystr)) as Hup.
  { unfold upto. by rewrite clip_nonneg by (simpl; lia). }
  rewrite bool_decide_eq_true_2 in Hsplit by exact Hup.
  destruct (splitnetloc ("/"%char :: "/"%char :: t) 2) as [n0 r] eqn:Hnet.
  apply splitnetloc_spec in Hnet as (Ht & _ & Hnq & _ & Hr).
  destruct ((contains "[" n0 && negb (contains "]" n0))
            || (contains "]" n0 && negb (contains "[" n0))); [done|].
  destruct (contains "[" n0 && contains "]" n0
            && negb (check_bracketed_netloc n0)); [done|].
  cbn [mbind result_bind] in Hsplit.
  assert ("#"%char ∉ r) as Hfr.
  { intros Hin. apply Hfrag. rewrite Ht. apply elem_of_app. by right. }
  rewrite (proj2 (contains_false _ _) Hfr) in Hsplit.
  destruct (contains "?" r) eqn:Hq.
  - destruct (split1 "?" r) as [p1 q1] eqn:Hs1.
    apply (split1_spec _ _ _ _ Hq) in Hs1 as [-> Hnp].
    destruct (checknetloc n0); [|done].
    injection Hsplit as <- <- <- <- <-.
    split; [done|]. split; [done|]. split; [|by right].
    destruct Hr as [Hr|(d & r' & Hr & Hd)].
    + by destruct p1.
    + destruct p1 as [|x p1]; [by left|right].
      injection Hr as -> _. exists p1.
      apply elem_of_cons in Hd as [->|Hd]; [done|].
      apply elem_of_cons in Hd as [->|Hd].
      * exfalso. apply Hnp. by left.
      * apply list_elem_of_singleton in Hd as ->.
        exfalso. apply Hfr. by left.
  - destruct (checknetloc n0); [|done].
    injection Hsplit as <- <- <- <- <-.
    split; [done|]. split; [done|]. split; [|by left].
    apply contains_false in Hq.
    destruct Hr as [Hr|(d & r' & -> & Hd)]; [by left|right].
    exists r'.
    apply elem_of_cons in Hd as [->|Hd]; [done|].
    apply elem_of_cons in Hd as [->|Hd].
    * exfalso. apply Hq. by left.
    * apply list_elem_of_singleton in Hd as ->.
      exfalso. apply Hfr. by left.
Qed.

(** *** The characters of a parsed URL *)

Lemma remove_char_spec (b c : ascii) (s : pystr) :
  c ∈ remove_char b s ↔ c ∈ s ∧ c ≠ b.
Proof. unfold remove_char. rewrite list_elem_of_filter. tauto. Qed.

Lemma cleaned_safe (x : pystr) :
  Forall (λ c, c ∉ UNSAFE_URL_BYTES_TO_REMOVE)
    (fold_left (λ u b, remove_char b u) UNSAFE_URL_BYTES_TO_REMOVE x).
Proof.
  unfold UNSAFE_URL_BYTES_TO_REMOVE. cbn [fold_left].
  apply Forall_forall. intros c Hc.
  apply remove_char_spec in Hc as [Hc H3].
  apply remove_char_spec in Hc as [Hc H2].
  apply remove_char_spec in Hc as [Hc H1].
  intros Hin. apply elem_of_cons in Hin as [->|Hin]; [done|].
  apply elem_of_cons in Hin as [->|Hin]; [done|].
  by apply list_elem_of_singleton in Hin as ->.
Qed.

Lemma upto_two_slashes (u : pystr) :
  upto u 2 = ("//" : pystr) → ∃ t, u = "/"%char :: "/"%char :: t.
Proof.
  destruct u as [|a [|b t]]; [by vm_compute..|].
  unfold upto. rewrite clip_nonneg by (simpl; lia).
  intros [= -> ->]. by exists t.
Qed.

(** The pieces [urlsplit] cuts the text behind the scheme into. *)
Lemma after_scheme_pieces `{NetlocChecks} (s0 u0 s n p q f : pystr) :
  after_scheme s0 u0 = Return (s, n, p, q, f) →
  s = s0
  ∧ ∃ r u,
      ((u0 = "/"%char :: "/"%char :: n ++ r ∧ "#"%char ∉ n)
       ∨ (n = [] ∧ r = u0))
      ∧ (r = u ++ "#"%char :: f ∨ (r = u ∧ f = []))
      ∧ ("#"%char ∉ u)
      ∧ (u = p ++ "?"%char :: q ∨ (u = p ∧ q = [])).
Proof.
  unfold after_scheme. intros Hsplit.
  assert (∃ r,
    ((u0 = "/"%char :: "/"%char :: n ++ r ∧ "#"%char ∉ n)
     ∨ (n = [] ∧ r = u0))
    ∧ (let '(url, fragment) :=
         if contains "#" r then split1 "#" r else (r, []) in
       let '(url0, query) :=
         if contains "?" url then split1 "?" url else (url, []) in
       if checknetloc n
       then Return (s0, n, url0, query, fragment)
       else Raise ValueError) = Return (s, n, p, q, f)) as (r & Hr & Hrest).
  { case_bool_decide as Hup.
    - apply upto_two_slashes in Hup as [t ->].
      destruct (splitnetloc ("/"%char :: "/"%char :: t) 2) as [n0 r] eqn:Hnet.
      apply splitnetloc_spec in Hnet as (Ht & _ & _ & Hnf & _).
      destruct ((contains "[" n0 && negb (contains "]" n0))
                || (contains "]" n0 && negb (contains "[" n0))); [done|].
      destruct (contains "[" n0 && contains "]" n0
                && negb (check_bracketed_netloc n0)); [done|].
      cbn [mbind result_bind] in Hsplit.
      assert (n0 = n) as ->.
      { destruct (contains "#" r); destruct (split1 "#" r);
          destruct (contains "?" _); try destruct (split1 "?" _);
          destruct (checknetloc n0); try done; by injection Hsplit. }
      exists r. split; [left; by rewrite Ht|done].
    - cbn [mbind result_bind] in Hsplit.
      assert (n = []) as ->.
      { destruct (contains "#" u0); destruct (split1 "#" u0);
          destruct (contains "?" _); try destruct (split1 "?" _);
          destruct (checknetloc []); try done; by injection Hsplit. }
      exists u0. split; [by right|done]. }
  assert (∃ u, (r = u ++ "#"%char :: f ∨ (r = u ∧ f = []))
               ∧ ("#"%char ∉ u)
               ∧ (let '(url0, query) :=
                    if contains "?" u then split1 "?" u else (u, []) in
                  if checknetloc n
                  then Return (s0, n, url0, query, f)
                  else Raise ValueError) = Return (s, n, p, q, f))
    as (u & Hu & Hnf & Hrest').
  { destruct (contains "#" r) eqn:Hc.
    - destruct (split1 "#" r) as [u f0] eqn:Hs1.
      apply (split1_spec _ _ _ _ Hc) in Hs1 as [-> Hnin].
      assert (f0 = f) as ->.
      { destruct (contains "?" u); try destruct (split1 "?" u);
          destruct (checknetloc n); try done; by injection Hrest. }
      exists u. split; [by left|done].
    - assert (f = []) as ->.
      { destruct (contains "?" r); try destruct (split1 "?" r);
          destruct (checknetloc n); try done; by injection Hrest. }
      exists r. split; [by right|]. split; [|done].
      by apply contains_false. }
  split.
  { destruct (contains "?" u); try destruct (split1 "?" u);
      destruct (checknetloc n); try done; by injection Hrest'. }
  exists r, u. split; [done|]. split; [done|]. split; [done|].
  destruct (contains "?" u) eqn:Hc.
  - destruct (split1 "?" u) as [p0 q0] eqn:Hs1.
    apply (split1_spec _ _ _ _ Hc) in Hs1 as [-> _].
    destruct (checknetloc n); [|done]. injection Hrest' as _ <- <-.
    by left.
  - destruct (checknetloc n); [|done]. injection Hrest' as _ <- <-.
    by right.
Qed.

Lemma scheme_chars_plain :
  Forall (λ c, plain (lower_char c)) scheme_chars.
Proof. apply (bool_decide_unpack _). by vm_compute. Qed.

(** [urlsplit] with no default scheme: the scheme found (or none) and the
    text it goes on with. *)
Lemma urlsplit_after `{NetlocChecks} (x : pystr) :
  ∃ s0 u0,
    urlsplit x [] = after_scheme s0 u0
    ∧ Forall plain s0
    ∧ Forall (λ c, c ∉ UNSAFE_URL_BYTES_TO_REMOVE) u0.
Proof.
  unfold urlsplit. cbv zeta.
  pose proof (cleaned_safe (lstrip WHATWG_C0_CONTROL_OR_SPACE x)) as Hsafe.
  set (x2 := fold_left (λ u b, remove_char b u) UNSAFE_URL_BYTES_TO_REMOVE
               (lstrip WHATWG_C0_CONTROL_OR_SPACE x)) in *.
  clearbody x2.
  replace (fold_left (λ u b, remove_char b u) UNSAFE_URL_BYTES_TO_REMOVE
             (strip WHATWG_C0_CONTROL_OR_SPACE []))
    with ([] : pystr) by (by vm_compute).
  destruct ((0 <? find ":" x2 0)
            && match x2 with
               | c :: _ => isascii c && isalpha_ascii c
               | [] => false
               end
            && forallb (λ c, contains c scheme_chars) (upto x2 (find ":" x2 0)))
    eqn:Hc.
  - eexists _, _. split; [reflexivity|]. split.
    + apply andb_true_iff in Hc as [_ Hall].
      unfold lower. apply Forall_fmap, Forall_forall. intros c Hin.
      rewrite forallb_forall in Hall.
      specialize (Hall c (proj1 (list_elem_of_In _ _) Hin)).
      apply contains_true in Hall.
      by apply (proj1 (Forall_forall _ _) scheme_chars_plain).
    + unfold from. by apply Forall_drop.
  - eexists _, _. split; [reflexivity|]. split; [constructor|done].
Qed.

Lemma Forall_plain (l : pystr) :
  Forall (λ c, c ∉ UNSAFE_URL_BYTES_TO_REMOVE) l → "#"%char ∉ l →
  Forall plain l.
Proof.
  intros Hsafe Hnf. apply Forall_forall. intros c Hin. split.
  - by apply (proj1 (Forall_forall _ _) Hsafe).
  - intros ->. by apply Hnf.
Qed.

Lemma plain_delimiters :
  plain ":"%char ∧ plain "/"%char ∧ plain ";"%char ∧ plain "?"%char.
Proof. repeat split; try discriminate; apply contains_false; by vm_compute. Qed.

(** Whatever [urlparse] returns, the URL rebuilt without the fragment has
    no tab, carriage return, newline or "#". *)
Lemma urlparse_plain `{NetlocChecks} (x : pystr) (c : ParseResult) :
  urlparse x [] = Return c →
  Forall plain (geturl (replace_fragment c [])).
Proof.
  unfold urlparse. destruct (urlsplit_after x) as (s0 & u0 & -> & Hs0 & Hu0).
  destruct (after_scheme s0 u0) as [[[[[s n] p] q] f]|e] eqn:Ha; [|done].
  apply after_scheme_pieces in Ha as (-> & r & u & Hn & Hr & Hnf & Hu).
  cbn [mbind result_bind].
  assert (Forall plain n
          ∧ Forall (λ c, c ∉ UNSAFE_URL_BYTES_TO_REMOVE) r) as [Pn Sr].
  { destruct Hn as [[-> Hnn]|[-> ->]]; [|by split; [constructor|]].
    apply Forall_cons in Hu0 as [_ Hu0]. apply Forall_cons in Hu0 as [_ Hu0].
    apply Forall_app in Hu0 as [Sn Sr]. split; [|done].
    by apply Forall_plain. }
  assert (Forall plain u) as Pu.
  { apply Forall_plain; [|done].
    destruct Hr as [->|[-> _]]; [|done]. by apply Forall_app in Sr as [? _]. }
  assert (Forall plain p ∧ Forall plain q) as [Pp Pq].
  { destruct Hu as [->|[-> ->]]; [|by split; [|constructor]].
    apply Forall_app in Pu as [Pp Pq]. apply Forall_cons in Pq as [_ Pq].
    done. }
  destruct plain_delimiters as (Pc & Psl & Psc & Pqm).
  intros Hc.
  assert (∃ p' pa, c = mkParseResult s0 n p' pa q f
                   ∧ Forall plain p' ∧ Forall plain pa)
    as (p' & pa & -> & Pp' & Ppa).
  { destruct (bool_decide (s0 ∈ uses_params) && contains ";" p) eqn:Hb.
    - apply andb_true_iff in Hb as [_ Hb].
      destruct (splitparams p) as [p' pa] eqn:Hsp.
      injection Hc as <-. exists p', pa. split; [done|].
      apply (splitparams_spec _ _ _ Hb) in Hsp as [->|[-> ->]].
      + apply Forall_app in Pp as [Pp' Ppa].
        apply Forall_cons in Ppa as [_ Ppa]. done.
      + by split; [|constructor].
    - injection Hc as <-. exists p, []. by split; [|split; [|constructor]]. }
  unfold geturl, replace_fragment, urlunparse, urlunsplit.
  cbn [scheme netloc path params query fragment truthy].
  repeat match goal with
         | |- context [if ?b then _ else _] => destruct b
         end;
    repeat (apply Forall_app; split); repeat (apply Forall_cons; split);
    try done; constructor.
Qed.

(** *** Parameters *)

(** What [_splitparams] returns as the path has no ";" in its last
    segment, and what it returns as the parameters has no "/". *)
Lemma splitparams_tail (p p' pa : pystr) :
  contains ";" p = true → splitparams p = (p', pa) →
  (∀ a b, p' = a ++ ";"%char :: b → "/"%char ∈ b) ∧ "/"%char ∉ pa.
Proof.
  intros Hc. unfold splitparams. destruct (contains "/" p) eqn:Hs.
  - apply contains_true in Hs.
    destruct (rfind_hit "/" p Hs) as (a0 & b0 & Hp & Hb0 & ->).
    rewrite Nat2Z.id.
    destruct (Z.ltb_spec (find ";" p (length a0)) 0) as [Hlt|Hge].
    + intros [= <- <-]. split; [|apply not_elem_of_nil].
      apply find_miss in Hlt. rewrite Hp, drop_app_length in Hlt.
      intros a b Heq. rewrite Hp in Heq.
      destruct (app_cut_head _ _ _ _ _ Heq Hlt) as (m & _ & ->).
      apply elem_of_app. right. by left.
    + destruct (find_hit _ _ _ _ eq_refl Hge) as (a1 & b1 & Hp1 & Hlen & Hle & Hnin).
      rewrite <- Hlen. rewrite Hp1 at 1 2. rewrite upto_hit, from_hit.
      intros [= <- <-].
      assert (∃ k, a1 = a0 ++ "/"%char :: k ∧ b0 = k ++ ";"%char :: b1)
        as (k & -> & ->).
      { rewrite Hp in Hp1.
        assert (a1 = take (length a1) (a0 ++ "/"%char :: b0)) as Ha1
          by (rewrite Hp1; by rewrite take_app_length).
        rewrite take_app_ge in Ha1 by done.
        destruct (length a1 - length a0)%nat as [|d] eqn:Hd.
        - exfalso. simpl in Ha1. rewrite app_nil_r in Ha1. subst a1.
          apply app_inv_head in Hp1. by injection Hp1.
        - simpl in Ha1. exists (take d b0). split; [done|].
          rewrite Ha1 in Hp1. rewrite <- app_assoc in Hp1.
          apply app_inv_head in Hp1. simpl in Hp1. injection Hp1 as Hp1.
          rewrite <- (take_drop d b0) in Hp1 at 1.
          apply app_inv_head in Hp1. rewrite <- Hp1. by rewrite take_drop. }
      rewrite drop_app_length in Hnin.
      split.
      * intros a b Heq.
        destruct (app_cut_head _ _ _ _ _ Heq Hnin) as (m & _ & ->).
        apply elem_of_app. right. by left.
      * intros Hin. apply Hb0. apply elem_of_app. right. by right.
  - apply contains_false in Hs.
    destruct (find_hit _ _ _ _ eq_refl (find_contains _ _ Hc))
      as (a1 & b1 & -> & Hlen & _ & Hnin).
    rewrite <- Hlen, upto_hit, from_hit. intros [= <- <-].
    rewrite drop_0 in Hnin. split.
    + intros a b ->. exfalso. apply Hnin. apply elem_of_app. right. by left.
    + intros Hin. apply Hs. apply elem_of_app. right. by right.
Qed.

(** *** The delimiters in the components of a parsed URL *)

Lemma scheme_chars_marks :
  Forall (λ c, lower_char c ≠ ":"%char ∧ lower_char c ≠ "?"%char)
    scheme_chars.
Proof. apply (bool_decide_unpack _). by vm_compute. Qed.

Lemma urlsplit_scheme `{NetlocChecks} (x : pystr) :
  ∃ s0 u0,
    urlsplit x [] = after_scheme s0 u0 ∧ (":"%char ∉ s0) ∧ ("?"%char ∉ s0).
Proof.
  unfold urlsplit. cbv zeta.
  set (x2 := fold_left (λ u b, remove_char b u) UNSAFE_URL_BYTES_TO_REMOVE
               (lstrip WHATWG_C0_CONTROL_OR_SPACE x)).
  clearbody x2.
  replace (fold_left (λ u b, remove_char b u) UNSAFE_URL_BYTES_TO_REMOVE
             (strip WHATWG_C0_CONTROL_OR_SPACE []))
    with ([] : pystr) by (by vm_compute).
  destruct ((0 <? find ":" x2 0)
            && match x2 with
               | c :: _ => isascii c && isalpha_ascii c
               | [] => false
               end
            && forallb (λ c, contains c scheme_chars) (upto x2 (find ":" x2 0)))
    eqn:Hc.
  - eexists _, _. split; [reflexivity|].
    apply andb_true_iff in Hc as [_ Hall].
    rewrite forallb_forall in Hall.
    assert (∀ c, c ∈ lower (upto x2 (find ":" x2 0)) →
                 c ≠ ":"%char ∧ c ≠ "?"%char) as Hm.
    { intros c Hin. unfold lower in Hin.
      apply list_elem_of_fmap in Hin as (c0 & -> & Hin).
      specialize (Hall c0 (proj1 (list_elem_of_In _ _) Hin)).
      apply contains_true in Hall.
      by apply (proj1 (Forall_forall _ _) scheme_chars_marks). }
    split; intros Hin; by destruct (Hm _ Hin).
  - eexists _, _. split; [reflexivity|]. split; apply not_elem_of_nil.
Qed.

Lemma after_scheme_marks `{NetlocChecks} (s0 u0 s n p q f : pystr) :
  after_scheme s0 u0 = Return (s, n, p, q, f) →
  s = s0 ∧ ("/"%char ∉ n) ∧ ("?"%char ∉ n) ∧ ("?"%char ∉ p).
Proof.
  unfold after_scheme. intros Hsplit.
  assert (∃ r,
    ("/"%char ∉ n) ∧ ("?"%char ∉ n)
    ∧ (let '(url, fragment) :=
         if contains "#" r then split1 "#" r else (r, []) in
       let '(url0, query) :=
         if contains "?" url then split1 "?" url else (url, []) in
       if checknetloc n
       then Return (s0, n, url0, query, fragment)
       else Raise ValueError) = Return (s, n, p, q, f))
    as (r & Hn1 & Hn2 & Hrest).
  { case_bool_decide as Hup.
    - apply upto_two_slashes in Hup as [t ->].
      destruct (splitnetloc ("/"%char :: "/"%char :: t) 2) as [n0 r] eqn:Hnet.
      apply splitnetloc_spec in Hnet as (Ht & Hn1 & Hn2 & _ & _).
      destruct ((contains "[" n0 && negb (contains "]" n0))
                || (contains "]" n0 && negb (contains "[" n0))); [done|].
      destruct (contains "[" n0 && contains "]" n0
                && negb (check_bracketed_netloc n0)); [done|].
      cbn [mbind result_bind] in Hsplit.
      assert (n0 = n) as ->.
      { destruct (contains "#" r); destruct (split1 "#" r);
          destruct (contains "?" _); try destruct (split1 "?" _);
          destruct (checknetloc n0); try done; by injection Hsplit. }
      by exists r.
    - cbn [mbind result_bind] in Hsplit.
      assert (n = []) as ->.
      { destruct (contains "#" u0); destruct (split1 "#" u0);
          destruct (contains "?" _); try destruct (split1 "?" _);
          destruct (checknetloc []); try done; by injection Hsplit. }
      exists u0. split; [apply not_elem_of_nil|].
      split; [apply not_elem_of_nil|done]. }
  split.
  { destruct (contains "#" r); destruct (split1 "#" r);
      destruct (contains "?" _); try destruct (split1 "?" _);
      destruct (checknetloc n); try done; by injection Hrest. }
  split; [done|]. split; [done|].
  destruct (if contains "#" r then split1 "#" r else (r, [])) as [u f0].
  destruct (contains "?" u) eqn:Hc.
  - destruct (split1 "?" u) as [p0 q0] eqn:Hs1.
    apply (split1_spec _ _ _ _ Hc) in Hs1 as [-> Hnin].
    destruct (checknetloc n); [|done]. by injection Hrest as _ <- _ _.
  - destruct (checknetloc n); [|done]. injection Hrest as _ <- _ _.
    by apply contains_false.
Qed.

(** Where the delimiters ":", "/", "?" and ";" cannot be in a parsed
    URL. *)
Lemma urlparse_marks `{NetlocChecks} (x : pystr) (c : ParseResult) :
  urlparse x [] = Return c →
  (":"%char ∉ scheme c) ∧ ("?"%char ∉ scheme c)
  ∧ ("/"%char ∉ netloc c) ∧ ("?"%char ∉ netloc c)
  ∧ ("?"%char ∉ path c) ∧ ("?"%char ∉ params c)
  ∧ ("/"%char ∉ params c)
  ∧ (scheme c ∈ uses_params →
     ∀ a b, path c = a ++ ";"%char :: b → "/"%char ∈ b).
Proof.
  unfold urlparse. destruct (urlsplit_scheme x) as (s0 & u0 & -> & Hs1 & Hs2).
  destruct (after_scheme s0 u0) as [[[[[s n] p] q] f]|e] eqn:Ha; [|done].
  apply after_scheme_marks in Ha as (-> & Hn1 & Hn2 & Hp).
  cbn [mbind result_bind].
  destruct (bool_decide (s0 ∈ uses_params) && contains ";" p) eqn:Hb.
  - apply andb_true_iff in Hb as [_ Hb].
    destruct (splitparams p) as [p' pa] eqn:Hsp. intros [= <-].
    cbn [scheme netloc path params].
    destruct (splitparams_tail _ _ _ Hb Hsp) as [Htail Hpa].
    assert (("?"%char ∉ p') ∧ "?"%char ∉ pa) as [Hp' Hpa'].
    { apply (splitparams_spec _ _ _ Hb) in Hsp as [->|[-> ->]].
      - split; intros Hin; apply Hp; apply elem_of_app;
          [by left|right; by right].
      - split; [done|apply not_elem_of_nil]. }
    by repeat split.
  - intros [= <-]. cbn [scheme netloc path params].
    repeat split; try done; try apply not_elem_of_nil.
    intros Hin a b ->. exfalso.
    rewrite (bool_decide_eq_true_2 _ Hin) in Hb. cbn [andb] in Hb.
    apply contains_false in Hb. apply Hb. apply elem_of_app. right. by left.
Qed.

(** *** What [urlunsplit] builds *)

(** Without a fragment, [urlunsplit] puts the scheme and a colon, then
    [url1], then the query behind a question mark; [url1] ends with the
    path, and what comes before the path is made of slashes and the
    netloc. *)
Lemma urlunsplit_shape (s n X q : pystr) :
  ∃ url1 Z,
    urlunsplit (s, n, X, q, [])
    = (if truthy s then s ++ ":"%char :: url1 else url1)
      ++ (if truthy q then "?"%char :: q else [])
    ∧ url1 = Z ++ X
    ∧ (∀ c, c ∈ Z → c = "/"%char ∨ c ∈ n)
    ∧ (X = [] → url1 = "/"%char :: "/"%char :: n ∨ url1 = []).
Proof.
  unfold urlunsplit. cbn [truthy].
  destruct (truthy n
            || truthy s && bool_decide (s ∈ uses_netloc)
               && negb (bool_decide (upto X 2 = "//"))).
  - destruct (truthy X && negb (bool_decide (upto X 1 = "/"))) eqn:Hx.
    + exists ("/"%char :: "/"%char :: n ++ "/"%char :: X),
             ("/"%char :: "/"%char :: n ++ ["/"%char]).
      split; [|split; [|split]].
      * destruct (truthy s), (truthy q); cbn [list_ascii_of_string app];
          by rewrite <- ?app_assoc, ?app_nil_r.
      * cbn [app]. by rewrite <- app_assoc.
      * intros c Hc. apply elem_of_cons in Hc as [->|Hc]; [by left|].
        apply elem_of_cons in Hc as [->|Hc]; [by left|].
        apply elem_of_app in Hc as [Hc|Hc]; [by right|].
        apply list_elem_of_singleton in Hc as ->. by left.
      * intros ->. done.
    + exists ("/"%char :: "/"%char :: n ++ X), ("/"%char :: "/"%char :: n).
      split; [|split; [|split]].
      * destruct (truthy s), (truthy q); cbn [list_ascii_of_string app];
          by rewrite <- ?app_assoc, ?app_nil_r.
      * done.
      * intros c Hc. apply elem_of_cons in Hc as [->|Hc]; [by left|].
        apply elem_of_cons in Hc as [->|Hc]; [by left|]. by right.
      * intros ->. left. by rewrite app_nil_r.
  - exists X, []. split; [|split; [|split]].
    + destruct (truthy s), (truthy q); cbn [list_ascii_of_string app];
        by rewrite <- ?app_assoc, ?app_nil_r.
    + done.
    + intros c Hc. by apply elem_of_nil in Hc.
    + intros ->. by right.
Qed.

(** A URL that [geturl] has built from a parsed URL has no last path
    segment that ends in its only ";" right before the query: such a
    segment would be a path with empty parameters, and [urlunparse] writes
    no ";" for those. *)
Lemma geturl_no_empty_params `{NetlocChecks} (x : pystr) (c : ParseResult)
    (sch a l b : pystr) :
  urlparse x [] = Return c →
  sch = ("http" : pystr) ∨ sch = ("https" : pystr) →
  geturl (replace_fragment c [])
  = sch ++ ":"%char :: "/"%char :: "/"%char
        :: a ++ "/"%char :: l ++ ";"%char :: "?"%char :: b →
  "?"%char ∉ a → "?"%char ∉ l → "/"%char ∉ l → ";"%char ∉ l → False.
Proof.
  intros Hparse Hsch HU Ha Hl1 Hl2 Hl3.
  destruct (urlparse_marks x c Hparse)
    as (Hs1 & Hs2 & Hn1 & Hn2 & Hp1 & Hpa1 & Hpa2 & Htail).
  destruct c as [s n p pa q f].
  cbn [scheme netloc path params query fragment] in *.
  unfold geturl, replace_fragment, urlunparse in HU.
  cbn [scheme netloc path params query fragment] in HU.
  pose (X := if truthy pa then p ++ ";" ++ pa else p).
  fold X in HU.
  destruct (urlunsplit_shape s n X q) as (url1 & Z & HG & Hurl1 & HZ & Hempty).
  rewrite HG in HU. clear HG.
  assert ("?"%char ∉ X) as HX.
  { unfold X. destruct (truthy pa); [|done].
    cbn [list_ascii_of_string app]. intros Hin.
    apply elem_of_app in Hin as [Hin|Hin]; [done|].
    apply elem_of_cons in Hin as [Hin|Hin]; [done|]. done. }
  assert ("?"%char ∉ url1) as Hq1.
  { rewrite Hurl1. intros Hin. apply elem_of_app in Hin as [Hin|Hin]; [|done].
    destruct (HZ _ Hin) as [Hc|Hc]; [done|]. done. }
  assert ((":"%char ∉ sch) ∧ ("?"%char ∉ sch) ∧ sch ∈ uses_params
          ∧ ∃ h sch', sch = h :: sch' ∧ h ≠ "/"%char)
    as (Hc1 & Hc2 & Hc3 & (h & sch' & Hc4 & Hc5)).
  { destruct Hsch as [-> | ->];
      (split; [apply (bool_decide_unpack _); by vm_compute|]);
      (split; [apply (bool_decide_unpack _); by vm_compute|]);
      (split; [apply (bool_decide_unpack _); by vm_compute|]);
      by eexists _, _. }
  (* the text before the query *)
  set (T := a ++ "/"%char :: l ++ [";"%char]).
  assert ((if truthy s then s ++ ":"%char :: url1 else url1)
          = sch ++ ":"%char :: "/"%char :: "/"%char :: T) as HG.
  { assert ("?"%char ∉ sch ++ ":"%char :: "/"%char :: "/"%char :: T) as HV0.
    { unfold T. intros Hin.
      repeat (apply elem_of_app in Hin as [Hin|Hin]
              || apply elem_of_cons in Hin as [Hin|Hin]); try done.
      by apply elem_of_nil in Hin. }
    assert ("?"%char ∉ (if truthy s then s ++ ":"%char :: url1 else url1))
      as HG0.
    { destruct (truthy s); [|done]. intros Hin.
      apply elem_of_app in Hin as [Hin|Hin]; [done|].
      apply elem_of_cons in Hin as [Hin|Hin]; done. }
    replace (sch ++ ":"%char :: "/"%char :: "/"%char
                 :: a ++ "/"%char :: l ++ ";"%char :: "?"%char :: b)
      with ((sch ++ ":"%char :: "/"%char :: "/"%char :: T) ++ "?"%char :: b)
      in HU.
    2:{ unfold T. repeat (rewrite <- app_assoc; cbn [app]). done. }
    destruct (truthy q).
    - by apply first_cut_inj in HU as [? _].
    - exfalso. rewrite app_nil_r in HU. apply HG0. rewrite HU.
      apply elem_of_app. right. by left. }
  (* the scheme *)
  assert (s ∈ uses_params
          ∧ (s = [] ∨ url1 = "/"%char :: "/"%char :: T)) as [Hs3 Hs4].
  { destruct s as [|y s]; cbn [truthy] in HG.
    - split; [|by left]. apply (bool_decide_unpack _). by vm_compute.
    - apply first_cut_inj in HG as [-> ->]; [|done..].
      split; [done|by right]. }
  specialize (Htail Hs3).
  (* the end of the path *)
  assert (∃ Zg, Zg ++ X = (sch ++ ":"%char :: "/"%char :: "/"%char :: a)
                           ++ "/"%char :: (l ++ [";"%char])) as [Zg HZg].
  { exists (if truthy s then s ++ ":"%char :: Z else Z).
    replace ((sch ++ ":"%char :: "/"%char :: "/"%char :: a)
             ++ "/"%char :: (l ++ [";"%char]))
      with (sch ++ ":"%char :: "/"%char :: "/"%char :: T)
      by (unfold T; by repeat (rewrite <- app_assoc; cbn [app])).
    rewrite <- HG, Hurl1. destruct (truthy s); [|done].
    by repeat (rewrite <- app_assoc; cbn [app]). }
  destruct pa as [|y pa].
  - cbn [truthy] in X. destruct (decide (p = [])) as [->|Hp].
    + (* no path at all *)
      destruct Hs4 as [->|Hs4].
      * cbn [truthy] in HG. rewrite Hc4 in HG.
        destruct (Hempty eq_refl) as [He|He]; rewrite He in HG;
          [injection HG as Hh _; congruence|done].
      * destruct (Hempty eq_refl) as [He|He]; rewrite He in Hs4; [|done].
        injection Hs4 as ->. apply Hn1. unfold T.
        apply elem_of_app. right. by left.
    + destruct (nonempty_snoc p Hp) as (p0 & z & ->).
      unfold X in HZg. rewrite app_assoc in HZg.
      replace ((sch ++ ":"%char :: "/"%char :: "/"%char :: a)
               ++ "/"%char :: l ++ [";"%char])
        with (((sch ++ ":"%char :: "/"%char :: "/"%char :: a)
               ++ "/"%char :: l) ++ [";"%char])
        in HZg by (by rewrite <- app_assoc).
      apply app_inj_tail in HZg as [_ ->].
      assert ("/"%char ∈ ([] : pystr)) as Hin by (by apply (Htail p0 [])).
      by apply elem_of_nil in Hin.
  - cbn [truthy] in X. unfold X in HZg. cbn [list_ascii_of_string app] in HZg.
    rewrite app_assoc in HZg.
    assert ("/"%char ∉ ";"%char :: y :: pa) as Hns.
    { apply not_elem_of_cons. split; [done|exact Hpa2]. }
    destruct (app_cut_head _ _ _ _ _ HZg Hns) as (m & _ & Hm).
    destruct (nonempty_snoc (y :: pa)) as (pa0 & z & Hpa0); [done|].
    rewrite Hpa0 in Hm.
    replace (m ++ ";"%char :: pa0 ++ [z]) with ((m ++ ";"%char :: pa0) ++ [z])
      in Hm by (by rewrite <- app_assoc).
    apply app_inj_tail in Hm as [-> _].
    apply Hl3. apply elem_of_app. right. by left.
Qed.

(** *** The round trip *)

(** The round trip through [urlparse] and [urlunparse] gives back a URL
    "scheme://t" whose text [t] has no "#", starts with a host, has no
    empty query and does not end in ";", and in which no last path segment
    ends in its only ";" right before the query. *)
Lemma roundtrip_core `{NetlocChecks} (v sch t : pystr) (c : ParseResult) :
  (∀ d, urlsplit v d = after_scheme sch ("/"%char :: "/"%char :: t)) →
  v = sch ++ ":"%char :: "/"%char :: "/"%char :: t →
  sch ∈ uses_params → sch ≠ [] →
  "#"%char ∉ t →
  urlparse v [] = Return c →
  netloc c ≠ [] →
  last t ≠ Some "?"%char → last t ≠ Some ";"%char →
  (∀ a l b, t = a ++ "/"%char :: l ++ ";"%char :: "?"%char :: b →
            "?"%char ∉ a → "?"%char ∉ l → "/"%char ∉ l → ";"%char ∉ l →
            False) →
  (∀ d, urlparse v d = Return c)
  ∧ scheme c = sch ∧ fragment c = [] ∧ urlunparse c = v.
Proof.
  intros Hsplit Hv Hparams Hsch Hfrag Hparse Hnet Hq Hsemi Hsq.
  split.
  { intros d. rewrite <- Hparse. unfold urlparse.
    by rewrite (Hsplit d), (Hsplit []). }
  unfold urlparse in Hparse. rewrite Hsplit in Hparse.
  destruct (after_scheme sch ("/"%char :: "/"%char :: t))
    as [[[[[s n] p] q] f]|e] eqn:Hafter; [|done].
  destruct (after_scheme_marks _ _ _ _ _ _ _ Hafter) as (_ & _ & Hnq & Hpq).
  apply after_scheme_spec in Hafter as (-> & -> & Hp & Ht); [|done].
  cbn [mbind result_bind] in Hparse.
  rewrite (bool_decide_eq_true_2 _ Hparams) in Hparse. cbn [andb] in Hparse.
  assert (∃ p' pa, c = mkParseResult sch n p' pa q []
                   ∧ (if truthy pa then p' ++ ";"%char :: pa else p') = p)
    as (p' & pa & -> & Hpp).
  { destruct (contains ";" p) eqn:Hc.
    - destruct (splitparams p) as [p' pa] eqn:Hsp.
      injection Hparse as <-. exists p', pa. split; [done|].
      destruct (splitparams_tail _ _ _ Hc Hsp) as [Htail _].
      apply (splitparams_spec _ _ _ Hc) in Hsp as [Hsp|[-> ->]]; [|done].
      destruct pa as [|x pa]; [|done]. exfalso.
      destruct Ht as [[-> ->]| ->].
      + apply Hsemi. rewrite Hsp, app_assoc. by rewrite last_snoc.
      + assert ("/"%char ∈ p') as Hin.
        { destruct Hp as [->|[p0 ->]]; [by destruct p'|].
          destruct p' as [|y p']; [done|]. injection Hsp as <- _. by left. }
        destruct (last_cut p' "/"%char Hin) as (a' & l & -> & Hl).
        apply (Hsq (n ++ a') l q).
        * rewrite Hsp. by repeat (rewrite <- app_assoc; cbn [app]).
        * intros Hx. apply elem_of_app in Hx as [Hx|Hx]; [done|].
          apply Hpq. rewrite Hsp. apply elem_of_app. left.
          apply elem_of_app. by left.
        * intros Hx. apply Hpq. rewrite Hsp. apply elem_of_app. left.
          apply elem_of_app. right. by right.
        * done.
        * intros Hx. apply list_elem_of_split in Hx as (l1 & l2 & ->).
          apply Hl. apply elem_of_app. right. right.
          apply (Htail (a' ++ "/"%char :: l1) l2).
          by repeat (rewrite <- app_assoc; cbn [app]).
    - injection Hparse as <-. by exists p, []. }
  cbn [netloc] in Hnet.
  split; [done|]. split; [done|].
  unfold urlunparse, urlunsplit.
  cbn [scheme netloc path params query fragment].
  replace (if truthy pa then p' ++ ";" ++ pa else p') with p
    by (rewrite <- Hpp; by destruct pa).
  rewrite (proj2 (truthy_true n) Hnet), (proj2 (truthy_true sch) Hsch).
  cbn [orb truthy].
  assert ((if truthy p && negb (bool_decide (upto p 1 = "/"))
           then "/" ++ p else p) = p) as ->.
  { destruct Hp as [->|[p0 ->]]; [done|]. cbn [truthy andb].
    rewrite bool_decide_eq_true_2; [done|].
    unfold upto. by rewrite clip_nonneg by (simpl; lia). }
  rewrite Hv. destruct Ht as [[-> ->]| ->].
  - reflexivity.
  - destruct q as [|x q].
    + exfalso. apply Hq. by rewrite !app_assoc, last_snoc.
    + cbn [truthy list_ascii_of_string app].
      repeat (rewrite <- app_assoc; cbn [app]). reflexivity.
Qed.

End UrllibProps.

(** * Properties of the crawl loop *)
Module CrawlerProps.
Import Py Urllib Crawler CrawlerSpec Examples.

Section Loop.
Context `{NetlocChecks} (cfg : Config) (w : World) (sd : pystr).

(** *** The enqueue loop *)

Lemma enqueue_spec links vs q q' err :
  enqueue sd links vs q = (q', err) →
  ∃ added, q' = q ++ added
           ∧ (NoDup q → NoDup q')
           ∧ (∀ u, u ∈ added → (u ∉ vs) ∧ u ∈ links).
Proof.
  revert q. induction links as [|l links IH]; simpl; intros q Heq.
  - inversion Heq; subst. exists []. rewrite app_nil_r.
    split; [done|]. split; [done|]. intros u Hu. by apply elem_of_nil in Hu.
  - destruct (get_domain l) as [d|e].
    + case_bool_decide as Hd.
      * destruct (IH _ Heq) as (added & -> & Hnd & Hin).
        exists added. split; [done|]. split; [done|].
        intros u Hu. destruct (Hin u Hu). split; [done|]. by right.
      * destruct (bool_decide (l ∉ vs) && bool_decide (l ∉ q)) eqn:Hc.
        -- apply andb_true_iff in Hc as [Hv Hq].
           apply bool_decide_eq_true in Hv, Hq.
           destruct (IH _ Heq) as (added & -> & Hnd & Hin).
           exists (l :: added). split; [by rewrite <- app_assoc|].
           split.
           ++ intros Hq0. apply Hnd. apply NoDup_app. split; [done|].
              split; [|apply NoDup_singleton].
              intros x Hx Hx'. apply list_elem_of_singleton in Hx'.
              by subst.
           ++ intros u Hu. apply elem_of_cons in Hu as [->|Hu].
              ** split; [done|]. by left.
              ** destruct (Hin u Hu). split; [done|]. by right.
        -- destruct (IH _ Heq) as (added & -> & Hnd & Hin).
           exists added. split; [done|]. split; [done|].
           intros u Hu. destruct (Hin u Hu). split; [done|]. by right.
    + inversion Heq; subst. exists []. rewrite app_nil_r.
      split; [done|]. split; [done|]. intros u Hu.
      by apply elem_of_nil in Hu.
Qed.

Lemma body_transition st :
  loop_cond cfg st = true →
  transition cfg st (state_of (loop_body cfg w sd st)).
Proof.
  intros Hc. unfold loop_cond in Hc.
  apply andb_true_iff in Hc as [Hq Hlt]. apply Z.ltb_lt in Hlt.
  unfold loop_body. destruct (queue st) as [|url rest] eqn:Eq; [done|].
  cbn [visited_set visited queue retries failed page_id now stdout].
  case_bool_decide as Hv; [by apply (T_pop cfg st url)|].
  destruct (fetch_page w (now st) url 5) as [[html status]|e];
    [|by apply (T_pop cfg st url)].
  assert (Hother :
    transition cfg st (state_of
      (if bool_decide (status = ("transient" : pystr))
       then
         if default 0 (retries st !! url) + 1 <=? max_retries cfg
         then Normal
             (mkState (rest ++ [url]) (visited st) (visited_set st)
                (<[url := default 0 (retries st !! url) + 1]> (retries st))
                (failed st) (page_id st) (S (now st))
                (stdout st
                 ++ [TransientRetry url
                       (default 0 (retries st !! url) + 1)]))
         else Normal
             (mkState rest (visited st) (visited_set st) (retries st)
                ({[url]} ∪ failed st) (page_id st) (S (now st))
                (stdout st ++ [FailedAfterRetries url]))
       else Normal
           (mkState rest (visited st) (visited_set st) (retries st)
              ({[url]} ∪ failed st) (page_id st) (S (now st))
              (stdout st ++ [PermanentFailure url]))))).
  { case_bool_decide.
    - destruct (Z.leb_spec (default 0 (retries st !! url) + 1)
                  (max_retries cfg)); simpl.
      + by apply T_retry.
      + by apply T_give_up.
    - simpl. by apply T_permanent. }
  destruct (bool_decide (status = ("ok" : pystr))); [|exact Hother].
  destruct html as [html|]; [|exact Hother].
  destruct (open_write w (now st) (PageFile (page_id st)) html);
    [|by apply (T_pop cfg st url)].
  destruct (extract_links (list_of_set w (now st)) html url)
    as [links|e]; simpl.
  - destruct (enqueue sd links ({[url]} ∪ visited_set st) rest)
      as [q err] eqn:Een.
    destruct (enqueue_spec _ _ _ _ _ Een) as (added & -> & Hnd & Hin).
    assert (transition cfg st
      (mkState (rest ++ added) (visited st ++ [url])
         ({[url]} ∪ visited_set st) (retries st) (failed st)
         (page_id st + 1) (S (now st))
         (stdout st ++ [Saved (PageFile (page_id st))]))) as Ht.
    { apply T_saved; try done. intros u Hu. by destruct (Hin u Hu). }
    by destruct err.
  - replace rest with (rest ++ []) at 1 by apply app_nil_r.
    apply T_saved; try done.
    + intros u Hu. by apply elem_of_nil in Hu.
    + by rewrite app_nil_r.
Qed.

(** *** The loop invariant *)

Lemma requeues_snoc u log ev :
  requeues u (log ++ [ev])
  = (requeues u log + if is_retry u ev then 1 else 0)%nat.
Proof.
  unfold requeues. rewrite List.filter_app, length_app. simpl.
  by destruct (is_retry u ev).
Qed.

Lemma give_ups_snoc u log ev :
  give_ups u (log ++ [ev])
  = (give_ups u log + if is_give_up u ev then 1 else 0)%nat.
Proof.
  unfold give_ups. rewrite List.filter_app, length_app. simpl.
  by destruct (is_give_up u ev).
Qed.

Lemma inv_initial : inv cfg (initial cfg).
Proof.
  split; simpl; try done.
  - apply NoDup_singleton.
  - intros u. rewrite elem_of_nil. set_solver.
  - lia.
  - intros u. rewrite lookup_empty. simpl. lia.
  - unfold give_ups. simpl. lia.
  - intros ev Hev. by apply elem_of_nil in Hev.
Qed.

Ltac log_snoc :=
  repeat (rewrite ?requeues_snoc, ?give_ups_snoc; simpl);
  rewrite ?Nat.add_0_r.

Lemma inv_transition st st' : transition cfg st st' → inv cfg st → inv cfg st'.
Proof.
  intros Ht [Hnd Hdis Hvs Hb Hpid Hrq Hrt Hgu Hns].
  destruct Ht as [st url rest Eq | st url rest added Eq Hv Hlt Hadd Hnda
                 | st url rest Eq Hv Hle | st url rest Eq Hv Hgt
                 | st url rest Eq Hv];
    rewrite Eq in Hnd, Hdis; apply NoDup_cons in Hnd as [Hur Hnd];
    split; cbn [visited_set visited queue retries failed page_id now stdout];
    try done.
  - (* pop: queue *) intros u Hu. apply Hdis. by right.
  - (* saved *) by apply Hnda.
  - intros u Hu. apply elem_of_app in Hu as [Hu|Hu]; [|by apply Hadd].
    intros Hin. apply elem_of_union in Hin as [Hin|Hin].
    + apply elem_of_singleton in Hin. by subst.
    + revert Hin. apply Hdis. by right.
  - intros u. rewrite elem_of_union, elem_of_singleton, elem_of_app,
      list_elem_of_singleton, Hvs. tauto.
  - rewrite length_app. simpl. lia.
  - rewrite length_app. simpl. lia.
  - intros u. log_snoc. apply Hrq.
  - intros u. log_snoc. apply Hgu.
  - intros ev Hev. apply elem_of_app in Hev as [Hev|Hev]; [by apply Hns|].
    apply list_elem_of_singleton in Hev. by subst.
  - (* retry *) apply NoDup_app. split; [done|]. split.
    + intros x Hx Hx'. apply list_elem_of_singleton in Hx'. by subst.
    + apply NoDup_singleton.
  - intros u Hu. apply elem_of_app in Hu as [Hu|Hu].
    + apply Hdis. by right.
    + apply list_elem_of_singleton in Hu. by subst.
  - intros u. log_snoc. case_bool_decide as Hu.
    + subst u. rewrite lookup_insert_eq. simpl.
      rewrite Nat2Z.inj_add, Hrq. done.
    + rewrite lookup_insert_ne by done. rewrite Nat.add_0_r. apply Hrq.
  - intros u. destruct (decide (url = u)) as [->|Hne].
    + rewrite lookup_insert_eq. simpl. lia.
    + rewrite lookup_insert_ne by done. apply Hrt.
  - intros u. log_snoc. intros Hpos. destruct (Hgu u Hpos) as [Hmax Hf].
    split; [|done]. destruct (decide (url = u)) as [->|Hne].
    + rewrite lookup_insert_eq. simpl. lia.
    + by rewrite lookup_insert_ne.
  - intros ev Hev. apply elem_of_app in Hev as [Hev|Hev]; [by apply Hns|].
    apply list_elem_of_singleton in Hev. by subst.
  - (* give up *) intros u Hu. apply Hdis. by right.
  - intros u. log_snoc. apply Hrq.
  - intros u. log_snoc. case_bool_decide as Hu.
    + subst u. intros _. split; [lia|]. apply elem_of_union. left.
      by apply elem_of_singleton.
    + rewrite Nat.add_0_r. intros Hpos. destruct (Hgu u Hpos).
      split; [done|]. apply elem_of_union. by right.
  - intros ev Hev. apply elem_of_app in Hev as [Hev|Hev]; [by apply Hns|].
    apply list_elem_of_singleton in Hev. by subst.
  - (* permanent *) intros u Hu. apply Hdis. by right.
  - intros u. log_snoc. apply Hrq.
  - intros u. log_snoc. intros Hpos. destruct (Hgu u Hpos).
    split; [done|]. apply elem_of_union. by right.
  - intros ev Hev. apply elem_of_app in Hev as [Hev|Hev]; [by apply Hns|].
    apply list_elem_of_singleton in Hev. by subst.
Qed.

Lemma steps_inv st : rtc (step cfg w sd) (initial cfg) st → inv cfg st.
Proof.
  intros Hr.
  apply (rtc_ind_r (R := step cfg w sd) (inv cfg) (initial cfg));
    [apply inv_initial| |done].
  intros x y _ [Hc Hb] Hx. eapply inv_transition; [|done].
  replace y with (state_of (loop_body cfg w sd x)) by (by rewrite Hb).
  by apply body_transition.
Qed.

Lemma steps_reachable st :
  rtc (step cfg w sd) (initial cfg) st → reachable cfg w sd st.
Proof. intros Hr. exists st. split; [done|]. by left. Qed.

Lemma reachable_inv st : reachable cfg w sd st → inv cfg st.
Proof.
  intros (st0 & Hr & [->|(Hc & e & Hb)]); [by apply steps_inv|].
  eapply inv_transition; [|by apply steps_inv].
  replace st with (state_of (loop_body cfg w sd st0)) by (by rewrite Hb).
  by apply body_transition.
Qed.

(** *** Runs of the loop *)

Lemma state_at_rtc n st st' :
  state_at cfg w sd n st = Some st' → rtc (step cfg w sd) st st'.
Proof.
  revert st. induction n as [|n IH]; simpl; intros st Hn.
  - inversion Hn. apply rtc_refl.
  - destruct (loop_cond cfg st) eqn:Hc; [|done].
    destruct (loop_body cfg w sd st) as [st1|e st1] eqn:Hb; [|done].
    eapply rtc_l; [|by apply IH]. by split.
Qed.

Lemma crawl_loop_reachable fuel st o :
  rtc (step cfg w sd) (initial cfg) st →
  crawl_loop cfg w sd fuel st = Some o →
  reachable cfg w sd (state_of o).
Proof.
  revert st. induction fuel as [|n IH]; simpl; intros st Hst Hn;
    destruct (loop_cond cfg st) eqn:Hc; try done;
    try (inversion Hn; by apply steps_reachable).
  destruct (loop_body cfg w sd st) as [st1|e st1] eqn:Hb.
  - apply (IH st1); [|done]. eapply rtc_r; [done|]. by split.
  - inversion Hn. exists st. split; [done|]. right. split; [done|].
    by exists e.
Qed.

Lemma state_at_crawl_loop n k st st' :
  state_at cfg w sd n st = Some st' →
  crawl_loop cfg w sd (n + k) st = crawl_loop cfg w sd k st'.
Proof.
  revert st. induction n as [|n IH]; simpl; intros st Hn.
  - by inversion Hn.
  - destruct (loop_cond cfg st) eqn:Hc; [|done].
    destruct (loop_body cfg w sd st) as [st1|e st1] eqn:Hb; [|done].
    by apply IH.
Qed.

Lemma sum_list_with_le {A} (f g : A → nat) (l : list A) :
  (∀ x, f x ≤ g x)%nat → (sum_list_with f l ≤ sum_list_with g l)%nat.
Proof.
  intros Hfg. induction l as [|x l IH]; simpl; [lia|].
  specialize (Hfg x). lia.
Qed.

Lemma transition_decreases st st' :
  transition cfg st st' →
  (budget cfg st' < budget cfg st)%nat
  ∨ (budget cfg st' = budget cfg st ∧ load cfg st' < load cfg st)%nat.
Proof.
  intros Ht.
  destruct Ht as [st url rest Eq | st url rest added Eq Hv Hlt Hadd Hnda
                 | st url rest Eq Hv Hle | st url rest Eq Hv Hgt
                 | st url rest Eq Hv];
    unfold budget, load;
    cbn [visited_set visited queue retries failed page_id now stdout];
    rewrite Eq; simpl.
  - right. unfold weight. lia.
  - left. rewrite length_app. simpl. lia.
  - right. split; [done|]. rewrite sum_list_with_app. simpl.
    assert (sum_list_with
              (weight cfg (<[url:=(default 0 (retries st !! url) + 1)%Z]>
                         (retries st)))
              rest
            ≤ sum_list_with (weight cfg (retries st)) rest)%nat as Hrest.
    { apply sum_list_with_le. intros v. unfold weight.
      destruct (decide (url = v)) as [->|Hne].
      - rewrite lookup_insert_eq. simpl. lia.
      - rewrite lookup_insert_ne by done. lia. }
    rewrite lookup_insert_eq. simpl. lia.
  - right. unfold weight. lia.
  - right. unfold weight. lia.
Qed.

(** The loop stops after some number [n] of iterations: the loop test
    held at each of the [n] states it started an iteration from, and
    either the test fails in the state reached, or the last iteration
    was left by an exception. *)
Lemma crawl_loop_stops st :
  ∃ n o,
    crawl_loop cfg w sd n st = Some o
    ∧ (∀ k, (k < n)%nat →
         ∃ st_k, state_at cfg w sd k st = Some st_k
                 ∧ loop_cond cfg st_k = true)
    ∧ ends_with cfg w sd n st o.
Proof.
  remember (budget cfg st) as b eqn:Hb. remember (load cfg st) as l eqn:Hl.
  revert l st Hb Hl.
  induction b as [b IHb] using lt_wf_ind.
  induction l as [l IHl] using lt_wf_ind. intros st Hb Hl.
  destruct (loop_cond cfg st) eqn:Hc.
  - destruct (loop_body cfg w sd st) as [st1|e st1] eqn:Hbody.
    + assert (transition cfg st st1) as Ht.
      { replace st1 with (state_of (loop_body cfg w sd st))
          by (by rewrite Hbody).
        by apply body_transition. }
      assert (∃ n o,
        crawl_loop cfg w sd n st1 = Some o
        ∧ (∀ k, (k < n)%nat →
             ∃ st_k, state_at cfg w sd k st1 = Some st_k
                     ∧ loop_cond cfg st_k = true)
        ∧ ends_with cfg w sd n st1 o) as (n & o & Hrun & Hbefore & Hlast).
      { destruct (transition_decreases _ _ Ht) as [Hlt|[Heq Hlt]].
        - eapply (IHb (budget cfg st1)); [lia|done..].
        - eapply (IHl (load cfg st1)); [lia| |done]. lia. }
      exists (S n), o. simpl. rewrite Hc, Hbody.
      split; [done|]. split.
      * intros [|k] Hk; simpl.
        -- by exists st.
        -- rewrite Hc, Hbody. apply Hbefore. lia.
      * destruct o as [st'|e st']; simpl in *.
        -- by rewrite Hc, Hbody.
        -- destruct Hlast as (m & st_m & -> & Hm & Hraise).
           exists (S m), st_m. split; [done|]. simpl.
           by rewrite Hc, Hbody.
    + exists 1%nat, (Raised e st1). simpl. rewrite Hc, Hbody.
      split; [done|]. split.
      * intros [|k] Hk; [|lia]. by exists st.
      * by exists 0%nat, st.
  - exists 0%nat, (Normal st). simpl. rewrite Hc.
    split; [done|]. split; [|done]. intros k Hk. lia.
Qed.

End Loop.

(** *** [fetch_page] *)

(** C2: one fetch attempt is classified by its outcome: status 200 gives
    "ok" with the response body, a status in [500,600) gives "transient",
    any other status gives "permanent", and an exception of the request
    layer (connection error, DNS failure, timeout, TLS error: all classes
    of [RequestException]) gives "transient". *)
Theorem fetch_page_classification (w : World) (t : nat) (url : pystr)
    (timeout : Z) :
  (∀ body,
      requests_get w t url timeout user_agent
      = Return (mkResponse 200 body) →
      fetch_page w t url timeout = Return (Some body, "ok" : pystr))
  ∧ (∀ code body,
      requests_get w t url timeout user_agent
      = Return (mkResponse code body) →
      500 ≤ code < 600 →
      fetch_page w t url timeout = Return (None, "transient" : pystr))
  ∧ (∀ code body,
      requests_get w t url timeout user_agent
      = Return (mkResponse code body) →
      code ≠ 200 → ¬ (500 ≤ code < 600) →
      fetch_page w t url timeout = Return (None, "permanent" : pystr))
  ∧ (∀ k,
      requests_get w t url timeout user_agent
      = Raise (RequestException k) →
      fetch_page w t url timeout = Return (None, "transient" : pystr)).
Proof.
  unfold fetch_page. split; [|split; [|split]].
  - intros body ->. done.
  - intros code body -> Hc. simpl.
    destruct (Z.eqb_spec code 200); [lia|].
    destruct (Z.leb_spec 500 code); [|lia].
    destruct (Z.ltb_spec code 600); [|lia]. done.
  - intros code body -> Hne Hc. simpl.
    destruct (Z.eqb_spec code 200); [done|].
    destruct (Z.leb_spec 500 code); [|done].
    destruct (Z.ltb_spec code 600); [lia|done].
  - intros k ->. done.
Qed.

Lemma fetch_page_classification_witness :
  fetch_page full_disk_world 0 s_url 5
  = Return (Some ("<p>hi</p>" : pystr), "ok" : pystr)
  ∧ fetch_page flaky_world 0 a_url 5 = Return (None, "transient" : pystr)
  ∧ fetch_page relink_world 0 a_url 5 = Return (None, "permanent" : pystr)
  ∧ fetch_page offline_world 0 s_url 5 = Return (None, "transient" : pystr).
Proof.
  split; [|split; [|split]].
  - apply (proj1 (fetch_page_classification full_disk_world 0 s_url 5)).
    reflexivity.
  - apply (proj1 (proj2 (fetch_page_classification flaky_world 0 a_url 5))
             503 []); [reflexivity|lia].
  - apply (proj1 (proj2 (proj2
             (fetch_page_classification relink_world 0 a_url 5))) 404 []);
      [reflexivity|lia|lia].
  - apply (proj2 (proj2 (proj2
             (fetch_page_classification offline_world 0 s_url 5))) Timeout).
    reflexivity.
Defined.

(** C10: as long as [requests.get] raises nothing but request-layer
    exceptions, [fetch_page] returns and does not raise; its status is one
    of "ok", "transient", "permanent"; and it returns a body exactly when
    the status is "ok". *)
Theorem fetch_page_total (w : World) (t : nat) (url : pystr) (timeout : Z) :
  (∀ e, requests_get w t url timeout user_agent = Raise e →
        ∃ k, e = RequestException k) →
  ∃ body status,
    fetch_page w t url timeout = Return (body, status)
    ∧ (status = ("ok" : pystr) ∨ status = ("transient" : pystr)
       ∨ status = ("permanent" : pystr))
    ∧ (body ≠ None ↔ status = ("ok" : pystr)).
Proof.
  intros Hexn. unfold fetch_page.
  destruct (requests_get w t url timeout user_agent) as [resp|e].
  - simpl. destruct (status_code resp =? 200).
    + eexists _, _. split; [done|]. split; [by left|]. done.
    + destruct ((500 <=? status_code resp) && (status_code resp <? 600)).
      * eexists _, _. split; [done|]. split; [right; by left|].
        split; [done|]. intros Heq. by vm_compute in Heq.
      * eexists _, _. split; [done|]. split; [right; by right|].
        split; [done|]. intros Heq. by vm_compute in Heq.
  - destruct (Hexn e eq_refl) as [k ->].
    eexists _, _. split; [done|]. split; [right; by left|].
    split; [done|]. intros Heq. by vm_compute in Heq.
Qed.

Lemma fetch_page_total_witness :
  ∃ body status,
    fetch_page offline_world 0 s_url 5 = Return (body, status)
    ∧ (status = ("ok" : pystr) ∨ status = ("transient" : pystr)
       ∨ status = ("permanent" : pystr))
    ∧ (body ≠ None ↔ status = ("ok" : pystr)).
Proof.
  apply (fetch_page_total offline_world 0 s_url 5).
  intros e He. exists Timeout. simpl in He. by inversion He.
Defined.

(** *** The crawl loop *)

Lemma main_state `{NetlocChecks} cfg w fuel o :
  main cfg w fuel = Some o →
  ∃ sd st, reachable cfg w sd st
           ∧ visited (state_of o) = visited st
           ∧ visited_set (state_of o) = visited_set st
           ∧ queue (state_of o) = queue st
           ∧ failed (state_of o) = failed st.
Proof.
  unfold main. intros Hm.
  assert (∃ sd st, reachable cfg w sd st ∧ initial cfg = st) as Hinit.
  { exists [], (initial cfg). split; [|done].
    apply steps_reachable, rtc_refl. }
  destruct (makedirs w).
  2:{ inversion Hm; subst. destruct Hinit as (sd & st & Hr & <-).
      by exists sd, (initial cfg). }
  destruct (get_domain (seed_url cfg)) as [sd|e].
  2:{ inversion Hm; subst. destruct Hinit as (sd & st & Hr & <-).
      by exists sd, (initial cfg). }
  destruct (crawl_loop cfg w sd fuel (initial cfg)) as [o'|] eqn:Hrun;
    [|done].
  apply crawl_loop_reachable in Hrun; [|apply rtc_refl].
  destruct o' as [st|e st]; inversion Hm; subst; simpl in Hrun.
  - exists sd, st. split; [done|]. unfold finish.
    by destruct (open_write w (now st) VisitedFile (manifest (visited st))).
  - by exists sd, st.
Qed.

(** C3: the number of visited pages never exceeds [max_pages]: in every
    state the loop passes through (between iterations, and where an
    exception leaves it) and in the state the script ends with. *)
Theorem visited_within_max_pages `{NetlocChecks} (cfg : Config) (w : World) :
  0 ≤ max_pages cfg →
  (∀ sd st, reachable cfg w sd st →
            Z.of_nat (length (visited st)) ≤ max_pages cfg)
  ∧ (∀ fuel o, main cfg w fuel = Some o →
               Z.of_nat (length (visited (state_of o))) ≤ max_pages cfg).
Proof.
  intros Hpos.
  assert (∀ sd st, reachable cfg w sd st →
                   Z.of_nat (length (visited st)) ≤ max_pages cfg) as Hreach.
  { intros sd st Hr. pose proof (inv_bound _ _ (reachable_inv _ _ _ _ Hr)).
    lia. }
  split; [done|]. intros fuel o Hm.
  destruct (main_state _ _ _ _ Hm) as (sd & st & Hr & -> & _).
  by eapply Hreach.
Qed.

Lemma visited_within_max_pages_witness :
  0 ≤ max_pages relink_cfg
  ∧ ∀ fuel o, main relink_cfg relink_world fuel = Some o →
              Z.of_nat (length (visited (state_of o))) ≤ max_pages relink_cfg.
Proof.
  assert (0 ≤ max_pages relink_cfg) as Hpos by (simpl; lia).
  split; [exact Hpos|].
  exact (proj2 (visited_within_max_pages relink_cfg relink_world Hpos)).
Defined.

(** C5, as the code has it: between iterations, and where an exception
    leaves the loop, no URL is both visited and queued, and the queue
    holds no URL twice.  (The failed set is not part of it: the enqueue
    filter looks at the visited set and the queue only.) *)
Theorem visited_queue_disjoint `{NetlocChecks} (cfg : Config) (w : World)
    (sd : pystr) (st : State) :
  reachable cfg w sd st →
  NoDup (queue st)
  ∧ ∀ u, ¬ (u ∈ queue st ∧ (u ∈ visited st ∨ u ∈ visited_set st)).
Proof.
  intros Hr. destruct (reachable_inv _ _ _ _ Hr) as [Hnd Hdis Hvs _ _ _ _ _ _].
  split; [done|]. intros u [Hq [Hv|Hv]].
  - apply (Hdis u Hq). by apply Hvs.
  - by apply (Hdis u Hq).
Qed.

(** The state of the [relink_world] run at the fourth loop test. *)
Lemma relink_state_3 :
  ∃ st, state_at relink_cfg relink_world "s.example" 3 (initial relink_cfg)
        = Some st
        ∧ queue st = [a_url] ∧ visited st = [s_url; b_url]
        ∧ a_url ∈ failed st.
Proof.
  eexists. split; [vm_compute; reflexivity|].
  split; [reflexivity|]. split; [reflexivity|].
  apply (bool_decide_unpack _). vm_compute. exact I.
Qed.

Lemma visited_queue_disjoint_witness :
  ∃ st, state_at relink_cfg relink_world "s.example" 3 (initial relink_cfg)
        = Some st
        ∧ NoDup (queue st)
        ∧ ∀ u, ¬ (u ∈ queue st ∧ (u ∈ visited st ∨ u ∈ visited_set st)).
Proof.
  destruct relink_state_3 as (st & Hst & _).
  exists st. split; [exact Hst|].
  apply (visited_queue_disjoint relink_cfg relink_world "s.example" st).
  apply steps_reachable, (state_at_rtc _ _ _ 3). exact Hst.
Defined.

(** C5 as stated fails: in the [relink_world] run the URL [a_url] is in
    the failed set and in the queue at the fourth loop test, and in the
    failed set and the visited list when the run ends. *)
Lemma one_container_counterexample :
  ∃ st st',
    state_at relink_cfg relink_world "s.example" 3 (initial relink_cfg)
    = Some st
    ∧ a_url ∈ queue st ∧ a_url ∈ failed st
    ∧ main relink_cfg relink_world 10 = Some (Normal st')
    ∧ a_url ∈ visited st' ∧ a_url ∈ failed st'.
Proof.
  destruct relink_state_3 as (st & Hst & Hq & _ & Hf).
  exists st. eexists. split; [exact Hst|].
  split; [rewrite Hq; by apply list_elem_of_singleton|].
  split; [exact Hf|].
  split; [vm_compute; reflexivity|].
  split; apply (bool_decide_unpack _); vm_compute; exact I.
Qed.

(** C1, as the code has it: when the fetch of the queue head [url] is the
    [i]-th transient failure seen for it, then [url] goes back to the tail
    of the queue with retry counter [i] if [i <= max_retries], and it is
    dropped from the queue and added to the failed set otherwise; so a
    target is given up at its [(max_retries+1)]-th transient failure, and
    the retry branch never re-enqueues it more than [max_retries] times. *)
Theorem retry_until_exhausted `{NetlocChecks} (cfg : Config) (w : World)
    (sd : pystr) (st : State) (url : pystr) (rest : list pystr)
    (html : option pystr) :
  0 ≤ max_retries cfg →
  reachable cfg w sd st →
  queue st = url :: rest →
  fetch_page w (now st) url 5 = Return (html, "transient" : pystr) →
  let i := Z.of_nat (transient_failures url (stdout st)) + 1 in
  ∃ st',
    loop_body cfg w sd st = Normal st'
    ∧ (i ≤ max_retries cfg →
       queue st' = rest ++ [url] ∧ failed st' = failed st
       ∧ retries st' !! url = Some i)
    ∧ (max_retries cfg < i →
       queue st' = rest ∧ failed st' = {[url]} ∪ failed st)
    ∧ Z.of_nat (requeues url (stdout st')) ≤ max_retries cfg.
Proof.
  intros Hpos Hr Hq Hfetch i.
  destruct (reachable_inv _ _ _ _ Hr) as [_ Hdis _ _ _ Hrq Hrt Hgu _].
  assert (url ∉ visited_set st) as Hv.
  { apply Hdis. rewrite Hq. by left. }
  pose proof (Hrq url) as Hrq'. pose proof (Hrt url) as Hrt'.
  pose proof (Hgu url) as Hgu'.
  assert (i = default 0 (retries st !! url)
              + Z.of_nat (give_ups url (stdout st)) + 1) as Hi.
  { unfold i, transient_failures. lia. }
  clearbody i.
  unfold loop_body. rewrite Hq.
  cbn [visited_set visited queue retries failed page_id now stdout].
  rewrite (bool_decide_eq_false_2 _ Hv), Hfetch.
  replace (bool_decide (("transient" : pystr) = ("ok" : pystr)))
    with false by (by vm_compute).
  rewrite bool_decide_eq_true_2 by done.
  destruct (Z.leb_spec (default 0 (retries st !! url) + 1) (max_retries cfg))
    as [Hle|Hgt]; eexists; (split; [reflexivity|]);
    cbn [visited_set visited queue retries failed page_id now stdout].
  - assert (give_ups url (stdout st) = 0%nat) as Hg0.
    { destruct (give_ups url (stdout st)); [done|].
      destruct Hgu' as [Hmax _]; lia. }
    split; [|split].
    + intros _. rewrite lookup_insert_eq. split; [done|]. split; [done|].
      f_equal. lia.
    + lia.
    + rewrite requeues_snoc. simpl. rewrite bool_decide_eq_true_2 by done.
      lia.
  - split; [|split].
    + intros Hi'. destruct (give_ups url (stdout st)) eqn:Hg; [lia|].
      destruct Hgu' as [Hmax _]; lia.
    + done.
    + rewrite requeues_snoc. simpl. lia.
Qed.

Lemma retry_until_exhausted_witness :
  ∃ st',
    loop_body relink_cfg offline_world "s.example" (initial relink_cfg)
    = Normal st'
    ∧ (1 ≤ max_retries relink_cfg →
       queue st' = [] ++ [s_url] ∧ failed st' = failed (initial relink_cfg)
       ∧ retries st' !! s_url = Some 1)
    ∧ (max_retries relink_cfg < 1 →
       queue st' = [] ∧ failed st' = {[s_url]} ∪ failed (initial relink_cfg))
    ∧ Z.of_nat (requeues s_url (stdout st')) ≤ max_retries relink_cfg.
Proof.
  apply (retry_until_exhausted relink_cfg offline_world "s.example"
           (initial relink_cfg) s_url [] None).
  - simpl. lia.
  - apply steps_reachable, rtc_refl.
  - reflexivity.
  - reflexivity.
Defined.

(** C1 as stated fails: in the [flaky_world] run, with [max_retries = 1],
    the URL [a_url] receives one transient failure and no success, and
    the run ends with [a_url] in the queue and not in the failed set. *)
Lemma max_retries_failures_counterexample :
  ∃ st,
    main flaky_cfg flaky_world 10 = Some (Normal st)
    ∧ Z.of_nat (transient_failures a_url (stdout st)) = max_retries flaky_cfg
    ∧ (a_url ∉ visited st) ∧ (a_url ∉ failed st) ∧ a_url ∈ queue st.
Proof.
  eexists. split; [vm_compute; reflexivity|].
  split; [reflexivity|].
  split; [|split].
  - apply (bool_decide_unpack _). vm_compute. exact I.
  - apply (bool_decide_unpack _). vm_compute. exact I.
  - by apply list_elem_of_singleton.
Qed.

(** C4, as the code has it: the loop terminates in every world.  It runs
    some number [n] of iterations; at each loop test before the last the
    queue was non-empty and fewer than [max_pages] pages were visited; and
    either the loop exits at the first test where the queue is empty or
    the visited count equals [max_pages], or an exception left the [n]-th
    iteration, whatever the queue and the count were.  In particular,
    when the seed is fetched and saved at once and its page has no links,
    the loop exits after one iteration with an empty queue. *)
Theorem crawl_loop_terminates `{NetlocChecks} (cfg : Config) (w : World)
    (sd : pystr) :
  0 ≤ max_pages cfg →
  (∃ n o,
      crawl_loop cfg w sd n (initial cfg) = Some o
      ∧ (∀ k, (k < n)%nat →
           ∃ st_k, state_at cfg w sd k (initial cfg) = Some st_k
                   ∧ queue st_k ≠ []
                   ∧ Z.of_nat (length (visited st_k)) < max_pages cfg)
      ∧ match o with
        | Normal st' =>
            state_at cfg w sd n (initial cfg) = Some st'
            ∧ (queue st' = []
               ∨ Z.of_nat (length (visited st')) = max_pages cfg)
        | Raised e st' =>
            ∃ m st_m,
              n = S m ∧ state_at cfg w sd m (initial cfg) = Some st_m
              ∧ loop_body cfg w sd st_m = Raised e st'
        end)
  ∧ (∀ html,
      0 < max_pages cfg →
      requests_get w 0 (rstrip "/" (seed_url cfg)) 5 user_agent
      = Return (mkResponse 200 html) →
      open_write w 0 (PageFile 1) html = Return tt →
      Re.findall_href html = [] →
      list_of_set w 0 ∅ = [] →
      ∃ st',
        crawl_loop cfg w sd 1 (initial cfg) = Some (Normal st')
        ∧ queue st' = [] ∧ visited st' = [rstrip "/" (seed_url cfg)]).
Proof.
  intros Hpos. split.
  - destruct (crawl_loop_stops cfg w sd (initial cfg))
      as (n & o & Hrun & Hbefore & Hlast).
    exists n, o. split; [done|]. split.
    + intros k Hk. destruct (Hbefore k Hk) as (st_k & Hk' & Hc).
      exists st_k. split; [done|]. unfold loop_cond in Hc.
      apply andb_true_iff in Hc as [Hq Hlt]. apply Z.ltb_lt in Hlt.
      split; [|done]. by destruct (queue st_k).
    + destruct o as [st'|e st']; [|exact Hlast]. destruct Hlast as [Hn Hc].
      split; [done|].
      pose proof (inv_bound _ _ (steps_inv _ _ _ _ (state_at_rtc _ _ _ _ _ _ Hn)))
        as Hb.
      unfold loop_cond in Hc. apply andb_false_iff in Hc as [Hq|Hlt].
      * left. by destruct (queue st').
      * right. apply Z.ltb_ge in Hlt. lia.
  - intros html Hmax Hget Hwrite Hfind Hset.
    eexists. unfold crawl_loop, loop_cond, loop_body, fetch_page,
      extract_links.
    cbn [initial visited_set visited queue retries failed page_id now stdout
         length].
    destruct (Z.ltb_spec (Z.of_nat 0) (max_pages cfg)) as [_|Hge];
      [|simpl in Hge; lia].
    rewrite bool_decide_eq_false_2 by set_solver.
    rewrite Hget. simpl. rewrite Hwrite, Hfind. simpl. rewrite Hset. simpl.
    done.
Qed.

Lemma crawl_loop_terminates_witness :
  0 ≤ max_pages relink_cfg
  ∧ (∃ n o,
        crawl_loop relink_cfg quiet_world "s.example" n (initial relink_cfg)
        = Some o
        ∧ (∀ k, (k < n)%nat →
             ∃ st_k,
               state_at relink_cfg quiet_world "s.example" k
                 (initial relink_cfg) = Some st_k
               ∧ queue st_k ≠ []
               ∧ Z.of_nat (length (visited st_k)) < max_pages relink_cfg)
        ∧ match o with
          | Normal st' =>
              state_at relink_cfg quiet_world "s.example" n
                (initial relink_cfg) = Some st'
              ∧ (queue st' = []
                 ∨ Z.of_nat (length (visited st')) = max_pages relink_cfg)
          | Raised e st' =>
              ∃ m st_m,
                n = S m
                ∧ state_at relink_cfg quiet_world "s.example" m
                    (initial relink_cfg) = Some st_m
                ∧ loop_body relink_cfg quiet_world "s.example" st_m
                  = Raised e st'
          end)
  ∧ (∃ st',
        crawl_loop relink_cfg quiet_world "s.example" 1 (initial relink_cfg)
        = Some (Normal st')
        ∧ queue st' = [] ∧ visited st' = [s_url]).
Proof.
  assert (0 ≤ max_pages relink_cfg) as Hpos by (simpl; lia).
  split; [exact Hpos|].
  destruct (crawl_loop_terminates relink_cfg quiet_world "s.example" Hpos)
    as [Hstops Hseed].
  split; [exact Hstops|].
  apply (Hseed ("<p>hi</p>" : pystr)).
  - simpl. lia.
  - reflexivity.
  - reflexivity.
  - reflexivity.
  - vm_compute. reflexivity.
Defined.

(** C4 as stated fails: in the [bracket_world] run the loop stops in its
    second iteration, left by the [ValueError] of a malformed link, with
    [b_url] still in the queue and two of five pages visited. *)
Lemma loop_cut_short_counterexample :
  ∃ st,
    crawl_loop relink_cfg bracket_world "s.example" 10 (initial relink_cfg)
    = Some (Raised ValueError st)
    ∧ main relink_cfg bracket_world 10 = Some (Raised ValueError st)
    ∧ queue st = [b_url]
    ∧ visited st = [s_url; a_url]
    ∧ Z.of_nat (length (visited st)) < max_pages relink_cfg.
Proof.
  eexists.
  split; [vm_compute; reflexivity|].
  split; [vm_compute; reflexivity|].
  split; [reflexivity|]. split; [reflexivity|]. simpl. lia.
Qed.

(** C9, as the code has it: when the write of a fetched page raises, the
    exception leaves the loop and the script.  The URL has been taken
    from the queue and is in neither the visited list nor, by this
    attempt, the failed set; nothing is printed, and the run ends with
    the exception instead of the manifest and the summary. *)
Theorem page_write_failure_aborts `{NetlocChecks} (cfg : Config) (w : World)
    (sd : pystr) (n : nat) (st : State) (url : pystr) (rest : list pystr)
    (html : pystr) (e : exn) :
  makedirs w = Return tt →
  get_domain (seed_url cfg) = Return sd →
  state_at cfg w sd n (initial cfg) = Some st →
  loop_cond cfg st = true →
  queue st = url :: rest →
  fetch_page w (now st) url 5 = Return (Some html, "ok" : pystr) →
  open_write w (now st) (PageFile (page_id st)) html = Raise e →
  ∃ st',
    (∀ fuel, (n < fuel)%nat → main cfg w fuel = Some (Raised e st'))
    ∧ queue st' = rest
    ∧ visited st' = visited st ∧ (url ∉ visited st')
    ∧ failed st' = failed st
    ∧ stdout st' = stdout st
    ∧ (∀ ev, ev ∈ stdout st' → is_summary ev = false).
Proof.
  intros Hmk Hsd Hat Hc Hq Hfetch Hwrite.
  pose proof (steps_inv _ _ _ _ (state_at_rtc _ _ _ _ _ _ Hat))
    as [_ Hdis Hvs _ _ _ _ _ Hns].
  assert (url ∉ visited_set st) as Hv.
  { apply Hdis. rewrite Hq. by left. }
  assert (loop_body cfg w sd st
          = Raised e (mkState rest (visited st) (visited_set st)
                        (retries st) (failed st) (page_id st) (S (now st))
                        (stdout st))) as Hbody.
  { unfold loop_body. rewrite Hq.
    cbn [visited_set visited queue retries failed page_id now stdout].
    rewrite (bool_decide_eq_false_2 _ Hv), Hfetch.
    rewrite bool_decide_eq_true_2 by done. by rewrite Hwrite. }
  exists (mkState rest (visited st) (visited_set st) (retries st) (failed st)
            (page_id st) (S (now st)) (stdout st)).
  split; [|split; [reflexivity|]].
  - intros fuel Hfuel. unfold main. rewrite Hmk, Hsd.
    replace fuel with (n + S (fuel - S n))%nat by lia.
    rewrite (state_at_crawl_loop _ _ _ _ _ _ _ Hat). simpl.
    by rewrite Hc, Hbody.
  - cbn [visited_set visited queue retries failed page_id now stdout].
    split; [done|]. split; [by rewrite <- Hvs|]. done.
Qed.

Lemma page_write_failure_aborts_witness :
  ∃ st',
    (∀ fuel, (0 < fuel)%nat →
             main relink_cfg full_disk_world fuel = Some (Raised OSError st'))
    ∧ queue st' = []
    ∧ visited st' = visited (initial relink_cfg) ∧ (s_url ∉ visited st')
    ∧ failed st' = failed (initial relink_cfg)
    ∧ stdout st' = stdout (initial relink_cfg)
    ∧ (∀ ev, ev ∈ stdout st' → is_summary ev = false).
Proof.
  apply (page_write_failure_aborts relink_cfg full_disk_world "s.example"
           0 (initial relink_cfg) s_url [] "<p>hi</p>" OSError);
    reflexivity.
Defined.

(** C9 as stated fails: in the [full_disk_world] run the write of the
    seed page raises [OSError]; the script ends with that exception, the
    seed is not in the failed set and no summary has been printed. *)
Lemma page_write_failure_counterexample :
  ∃ st,
    main relink_cfg full_disk_world 10 = Some (Raised OSError st)
    ∧ (s_url ∉ visited st) ∧ (s_url ∉ failed st) ∧ stdout st = [].
Proof.
  eexists. split; [vm_compute; reflexivity|].
  split; [|split; [|reflexivity]].
  - apply (bool_decide_unpack _). vm_compute. exact I.
  - apply (bool_decide_unpack _). vm_compute. exact I.
Qed.

End CrawlerProps.

(** * Properties of link extraction and URL normalisation *)
Module LinkProps.
Import Py PyProps Urllib UrllibSpec UrllibProps Crawler Examples.

(** *** The scan over the raw links, one link at a time *)

Lemma scan_links_skip `{NetlocChecks} base link rest found :
  truthy (strip_ws link) = false ∨ non_navigational (strip_ws link) = true →
  scan_links base (link :: rest) found = scan_links base rest found.
Proof.
  intros Hskip. cbn [scan_links].
  destruct (truthy (strip_ws link)); [|done].
  destruct Hskip as [Hs|Hs]; [done|]. by rewrite Hs.
Qed.

Lemma scan_links_add `{NetlocChecks} base link rest found a :
  truthy (strip_ws link) = true
  ∧ non_navigational (strip_ws link) = false
  ∧ abs_link base (strip_ws link) = Return a
  ∧ accepted a = true →
  scan_links base (link :: rest) found
  = scan_links base rest ({[a]} ∪ found).
Proof.
  intros (Ht & Hn & Ha & Hacc). cbn [scan_links].
  rewrite Ht, Hn, Ha. cbn [negb mbind result_bind]. by rewrite Hacc.
Qed.

(** *** The enqueue loop, one link at a time *)

Lemma enqueue_foreign `{NetlocChecks} (sd link : pystr) (links : list pystr)
    (vs : gset pystr) (q : list pystr) (d : pystr) :
  get_domain link = Return d → d ≠ sd →
  enqueue sd (link :: links) vs q = enqueue sd links vs q.
Proof.
  intros Hd Hne. cbn [enqueue]. rewrite Hd.
  by rewrite (bool_decide_eq_true_2 _ Hne).
Qed.

Lemma enqueue_new `{NetlocChecks} (sd link : pystr) (links : list pystr)
    (vs : gset pystr) (q : list pystr) :
  get_domain link = Return sd → link ∉ vs → link ∉ q →
  enqueue sd (link :: links) vs q = enqueue sd links vs (q ++ [link]).
Proof.
  intros Hd Hv Hq. cbn [enqueue]. rewrite Hd.
  rewrite bool_decide_eq_false_2 by (intros Hn; by apply Hn).
  by rewrite (bool_decide_eq_true_2 _ Hv), (bool_decide_eq_true_2 _ Hq).
Qed.

(** C6: for a page whose hyperlinks are "#top", "mailto:a@b.com", "/x"
    and "http://other.example/y", fetched from the seed
    http://seed.example/page, [extract_links] returns exactly the two
    links http://seed.example/x and http://other.example/y, in the order
    the set is listed (the fragment and the mailto link are skipped); the
    enqueue loop with seed domain seed.example puts exactly
    http://seed.example/x in the queue; and so the first iteration of the
    crawl leaves exactly that URL in the queue. *)
Theorem extract_then_filter_example `{NetlocChecks} (cfg : Config) (w : World)
    (html : pystr) :
  Re.findall_href html
  = list_ascii_of_string
      <$> ["#top"; "mailto:a@b.com"; "/x"; "http://other.example/y"]%string →
  (∀ X : gset pystr, list_of_set w 0 X ≡ₚ elements X) →
  seed_url cfg = seed_page_url →
  requests_get w 0 seed_page_url 5 user_agent = Return (mkResponse 200 html) →
  open_write w 0 (PageFile 1) html = Return tt →
  (∃ links,
     extract_links (list_of_set w 0) html seed_page_url = Return links
     ∧ links ≡ₚ [ "http://seed.example/x" : pystr;
                  "http://other.example/y" : pystr ]
     ∧ enqueue "seed.example" links {[ seed_page_url ]} []
       = ([ "http://seed.example/x" : pystr ], None))
  ∧ get_domain (seed_url cfg) = Return ("seed.example" : pystr)
  ∧ ∃ st',
      loop_body cfg w "seed.example" (initial cfg) = Normal st'
      ∧ queue st' = [ "http://seed.example/x" : pystr ]
      ∧ visited st' = [ seed_page_url ].
Proof.
  intros Hraw Horder Hseed Hget Hwrite.
  pose (found := ({[ "http://seed.example/x" : pystr ]}
                 ∪ {[ "http://other.example/y" : pystr ]} : gset pystr)).
  assert (scan_links seed_page_url (Re.findall_href html) ∅ = Return found)
    as Hscan.
  { rewrite Hraw. cbn [fmap list_fmap].
    rewrite scan_links_skip by (right; by vm_compute).
    rewrite scan_links_skip by (right; by vm_compute).
    rewrite (scan_links_add _ _ _ _ "http://seed.example/x")
      by (split; [|split; [|split]]; vm_compute; reflexivity).
    rewrite (scan_links_add _ _ _ _ "http://other.example/y")
      by (split; [|split; [|split]]; vm_compute; reflexivity).
    cbn [scan_links]. apply (f_equal Return). unfold found. set_solver. }
  assert (extract_links (list_of_set w 0) html seed_page_url
          = Return (list_of_set w 0 found)) as Hex.
  { unfold extract_links. by rewrite Hscan. }
  assert (list_of_set w 0 found
          ≡ₚ [ "http://seed.example/x" : pystr;
               "http://other.example/y" : pystr ]) as Hperm.
  { rewrite (Horder found). unfold found.
    rewrite elements_union_singleton
      by (apply not_elem_of_singleton; discriminate).
    by rewrite elements_singleton. }
  assert (get_domain "http://seed.example/x"
          = Return ("seed.example" : pystr)) as Hdx
    by (vm_compute; reflexivity).
  assert (get_domain "http://other.example/y"
          = Return ("other.example" : pystr)) as Hdy
    by (vm_compute; reflexivity).
  assert (("http://seed.example/x" : pystr)
          ∉ ({[ seed_page_url ]} : gset pystr)) as Hnv.
  { apply not_elem_of_singleton. discriminate. }
  assert (("other.example" : pystr) ≠ ("seed.example" : pystr)) as Hne
    by discriminate.
  assert (enqueue "seed.example" (list_of_set w 0 found) {[ seed_page_url ]} []
          = ([ "http://seed.example/x" : pystr ], None)) as Henq.
  { symmetry in Hperm.
    apply Permutation_length_2_inv in Hperm as [-> | ->].
    - rewrite (enqueue_new _ _ _ _ _ Hdx Hnv) by apply not_elem_of_nil.
      by rewrite (enqueue_foreign _ _ _ _ _ _ Hdy Hne).
    - rewrite (enqueue_foreign _ _ _ _ _ _ Hdy Hne).
      by rewrite (enqueue_new _ _ _ _ _ Hdx Hnv) by apply not_elem_of_nil. }
  split.
  { exists (list_of_set w 0 found).
    split; [exact Hex|]. split; [exact Hperm|exact Henq]. }
  split; [rewrite Hseed; vm_compute; reflexivity|].
  eexists. unfold loop_body, initial, fetch_page. rewrite Hseed.
  replace (rstrip "/" seed_page_url) with seed_page_url by (by vm_compute).
  cbn [visited_set visited queue retries failed page_id now stdout].
  rewrite bool_decide_eq_false_2 by set_solver.
  rewrite Hget. cbn [status_code text]. 
  change (200 =? 200) with true. cbv iota.
  rewrite bool_decide_eq_true_2 by done.
  rewrite Hwrite, Hex.
  replace ({[seed_page_url]} ∪ ∅ : gset pystr) with ({[seed_page_url]} : gset pystr)
    by (by rewrite union_empty_r_L).
  rewrite Henq. split; [reflexivity|]. split; reflexivity.
Qed.

Lemma extract_then_filter_example_witness :
  (∃ links,
     extract_links (list_of_set four_links_world 0) four_links_page
       seed_page_url = Return links
     ∧ links ≡ₚ [ "http://seed.example/x" : pystr;
                  "http://other.example/y" : pystr ]
     ∧ enqueue "seed.example" links {[ seed_page_url ]} []
       = ([ "http://seed.example/x" : pystr ], None))
  ∧ get_domain (seed_url four_links_cfg) = Return ("seed.example" : pystr)
  ∧ ∃ st',
      loop_body four_links_cfg four_links_world "seed.example"
        (initial four_links_cfg) = Normal st'
      ∧ queue st' = [ "http://seed.example/x" : pystr ]
      ∧ visited st' = [ seed_page_url ].
Proof.
  apply (extract_then_filter_example four_links_cfg four_links_world
           four_links_page).
  - vm_compute. reflexivity.
  - intros X. reflexivity.
  - reflexivity.
  - reflexivity.
  - reflexivity.
Defined.

(** *** Absolute links *)

(** A link that parses, whatever the default scheme, to an HTTP or HTTPS
    URL with a host, without fragment, and that its components rebuild
    as it is, comes back unchanged from lines 77-80. *)
Lemma defragmented_fixed `{NetlocChecks} (base v : pystr) (c : ParseResult) :
  (base = [] ∨ ∃ b, urlparse base [] = Return b) →
  (∀ d, urlparse v d = Return c) →
  scheme c = ("http" : pystr) ∨ scheme c = ("https" : pystr) →
  netloc c ≠ [] →
  fragment c = [] →
  urlunparse c = v →
  defragmented base v = Return v.
Proof.
  intros Hbase Hparse Hsch Hnet Hfrag Hun.
  assert (geturl (replace_fragment c []) = v) as Hget.
  { rewrite <- Hun. unfold geturl, replace_fragment. destruct c; simpl in *.
    by subst. }
  assert (urljoin base v = Return v) as Hjoin.
  { unfold urljoin.
    destruct base as [|x base]; [done|]. cbn [truthy negb].
    destruct v as [|y v]; cbn [truthy negb].
    { exfalso. destruct c as [cs cn cp cpa cq cf]. simpl in *.
      specialize (Hparse []). vm_compute in Hparse.
      injection Hparse as <- <- <- <- <- <-. done. }
    destruct Hbase as [|[b Hb]]; [done|].
    rewrite Hb. cbn [mbind result_bind]. rewrite (Hparse (scheme b)).
    cbn [mbind result_bind].
    destruct (negb (bool_decide (scheme c = scheme b))
              || negb (bool_decide (scheme c ∈ uses_relative))); [done|].
    assert (bool_decide (scheme c ∈ uses_netloc) = true) as ->.
    { destruct Hsch as [-> | ->]; by vm_compute. }
    rewrite (proj2 (truthy_true (netloc c)) Hnet). cbn [andb].
    by rewrite Hun. }
  unfold defragmented. rewrite Hjoin. cbn [mbind result_bind].
  rewrite (Hparse []). cbn [mbind result_bind]. by rewrite Hget.
Qed.

(** *** Trailing slashes *)

Lemma urlparse_host_any_default `{NetlocChecks} (d : pystr) :
  urlparse "http://host" d
  = Return (mkParseResult "http" "host" [] [] [] [])
  ∧ urlparse "http://host/" d
    = Return (mkParseResult "http" "host" "/" [] [] []).
Proof. split; vm_compute; reflexivity. Qed.

(** C7, as the code has it: the normalised link is the defragmented URL
    with every trailing slash removed, not just one, so it never ends in
    a slash; http://host and http://host/ normalise to the same string,
    against any base. *)
Theorem trailing_slashes_stripped `{NetlocChecks} (base link v : pystr) :
  abs_link base link = Return v →
  (∃ a k, defragmented base link = Return a
          ∧ a = v ++ replicate k "/"%char)
  ∧ last v ≠ Some "/"%char
  ∧ (∀ base' : pystr,
       (base' = [] ∨ ∃ b, urlparse base' [] = Return b) →
       abs_link base' "http://host/" = Return ("http://host" : pystr)
       ∧ abs_link base' "http://host" = Return ("http://host" : pystr)).
Proof.
  unfold abs_link. intros Habs.
  destruct (defragmented base link) as [a|e] eqn:Ha; [|done].
  simpl in Habs. injection Habs as <-.
  destruct (rstrip_spec "/" a) as (suf & Hsuf & Hall & Hlast).
  split; [|split].
  - exists a, (length suf). split; [done|].
    rewrite Hsuf at 1. f_equal. by apply Forall_one_char.
  - intros Hl. apply (Hlast _ Hl). by left.
  - intros base' Hbase.
    assert (defragmented base' "http://host/"
            = Return ("http://host/" : pystr)) as ->.
    { apply (defragmented_fixed base' "http://host/"
               (mkParseResult "http" "host" "/" [] [] []));
        [exact Hbase | intros d; exact (proj2 (urlparse_host_any_default d))
        | left; reflexivity | discriminate | reflexivity
        | vm_compute; reflexivity]. }
    assert (defragmented base' "http://host"
            = Return ("http://host" : pystr)) as ->.
    { apply (defragmented_fixed base' "http://host"
               (mkParseResult "http" "host" [] [] [] []));
        [exact Hbase | intros d; exact (proj1 (urlparse_host_any_default d))
        | left; reflexivity | discriminate | reflexivity
        | vm_compute; reflexivity]. }
    split; vm_compute; reflexivity.
Qed.

Lemma trailing_slashes_stripped_witness :
  (∃ a k, defragmented seed_page_url "/docs///" = Return a
          ∧ a = ("http://seed.example/docs" : pystr) ++ replicate k "/"%char)
  ∧ last ("http://seed.example/docs" : pystr) ≠ Some "/"%char
  ∧ (∀ base' : pystr,
       (base' = [] ∨ ∃ b, urlparse base' [] = Return b) →
       abs_link base' "http://host/" = Return ("http://host" : pystr)
       ∧ abs_link base' "http://host" = Return ("http://host" : pystr)).
Proof.
  apply (trailing_slashes_stripped seed_page_url "/docs///").
  vm_compute. reflexivity.
Defined.

(** C7 as stated fails: http://host// loses both trailing slashes. *)
Lemma one_slash_counterexample :
  defragmented seed_page_url "http://host//"
  = Return ("http://host//" : pystr)
  ∧ abs_link seed_page_url "http://host//" = Return ("http://host" : pystr)
  ∧ abs_link seed_page_url "http://host//"
    ≠ Return ("http://host/" : pystr).
Proof. split; [|split]; vm_compute; [reflexivity..|discriminate]. Qed.

(** *** Normalising twice *)

Lemma defragmented_inv `{NetlocChecks} (base link w : pystr) :
  defragmented base link = Return w →
  (base = [] ∨ ∃ b, urlparse base [] = Return b)
  ∧ ∃ joined parsed,
      urlparse joined [] = Return parsed
      ∧ w = geturl (replace_fragment parsed []).
Proof.
  unfold defragmented. intros Hd.
  destruct (urljoin base link) as [joined|e] eqn:Hj; [|done].
  cbn [mbind result_bind] in Hd.
  destruct (urlparse joined []) as [parsed|e] eqn:Hp; [|done].
  injection Hd as <-. split; [|by exists joined, parsed].
  destruct base as [|x base]; [by left|right].
  unfold urljoin in Hj. cbn [truthy negb] in Hj.
  destruct link as [|y link]; cbn [truthy negb] in Hj.
  - injection Hj as <-. by exists parsed.
  - destruct (urlparse (x :: base) []) as [b|e] eqn:Hb; [|done].
    by exists b.
Qed.

Lemma accepted_inv (v : pystr) :
  accepted v = true →
  ∃ t, v = ("http://" : pystr) ++ t ∨ v = ("https://" : pystr) ++ t.
Proof.
  unfold accepted, startswith. intros Ha.
  apply orb_true_iff in Ha as [Ha|Ha]; apply bool_decide_eq_true in Ha;
    destruct Ha as [t ->]; exists t; [by left|by right].
Qed.

Lemma last_app_tail {A} (pre t : list A) (x : A) :
  last t = Some x → last (pre ++ t) = Some x.
Proof.
  intros Hl. destruct t as [|y t]; [done|].
  rewrite last_app. by rewrite Hl.
Qed.

(** C8, as the code has it: normalising the normal form [v] of a link again
    gives [v] back whenever [v] is accepted (HTTP or HTTPS), parses with a
    non-empty host, and does not end in "?" or ";". *)
Theorem normalisation_idempotent `{NetlocChecks} (base link v : pystr)
    (c : ParseResult) :
  abs_link base link = Return v →
  accepted v = true →
  urlparse v [] = Return c →
  netloc c ≠ [] →
  last v ≠ Some "?"%char →
  last v ≠ Some ";"%char →
  abs_link base v = Return v.
Proof.
  intros Habs Hacc Hparse Hnet Hq Hsemi.
  unfold abs_link in Habs.
  destruct (defragmented base link) as [w|e] eqn:Hw; [|done].
  injection Habs as Hvw.
  apply defragmented_inv in Hw as (Hbase & joined & parsed & Hp & Hwdef).
  pose proof (urlparse_plain _ _ Hp) as Hplain. rewrite <- Hwdef in Hplain.
  destruct (rstrip_spec "/" w) as (suf & Hw & _ & _).
  pose proof (rstrip_idemp "/" w) as Hfix.
  change (rstrip ["/"%char] w) with (rstrip "/" w) in Hvw.
  rewrite Hvw in Hw, Hfix.
  rewrite Hw in Hplain. apply Forall_app in Hplain as [Hplain _].
  destruct (accepted_inv v Hacc) as [t Hv].
  assert (Forall (λ x, x ∉ UNSAFE_URL_BYTES_TO_REMOVE) t ∧ "#"%char ∉ t)
    as [Hsafe Hfrag].
  { assert (Forall plain t) as Ht.
    { destruct Hv as [-> | ->]; by apply Forall_app in Hplain as [_ ?]. }
    split.
    - eapply Forall_impl; [exact Ht|]. by intros x [? _].
    - intros Hin. by destruct (proj1 (Forall_forall _ _) Ht _ Hin) as [_ ?]. }
  assert (last t ≠ Some "?"%char ∧ last t ≠ Some ";"%char) as (Hq' & Hsemi').
  { split.
    - intros Hl. apply Hq. destruct Hv as [-> | ->]; by apply last_app_tail.
    - intros Hl. apply Hsemi.
      destruct Hv as [-> | ->]; by apply last_app_tail. }
  assert (∀ sch, sch = ("http" : pystr) ∨ sch = ("https" : pystr) →
            v = sch ++ ":"%char :: "/"%char :: "/"%char :: t →
            ∀ a l b, t = a ++ "/"%char :: l ++ ";"%char :: "?"%char :: b →
                     "?"%char ∉ a → "?"%char ∉ l → "/"%char ∉ l →
                     ";"%char ∉ l → False) as Hsq.
  { intros sch Hsch Hvs a l b Ht.
    apply (geturl_no_empty_params joined parsed sch a l (b ++ suf) Hp Hsch).
    rewrite <- Hwdef, Hw, Hvs, Ht.
    by repeat (rewrite <- app_assoc; cbn [app]). }
  assert ((∀ d, urlparse v d = Return c)
          ∧ (scheme c = ("http" : pystr) ∨ scheme c = ("https" : pystr))
          ∧ fragment c = [] ∧ urlunparse c = v) as (Hany & Hsch & Hf & Hun).
  { destruct Hv as [Hv|Hv].
    - destruct (roundtrip_core v "http" t c) as (? & ? & ? & ?); try done.
      + intros d. rewrite Hv. by apply urlsplit_http.
      + apply (bool_decide_unpack _). by vm_compute.
      + apply (Hsq "http"); [by left|done].
      + repeat split; try done. by left.
    - destruct (roundtrip_core v "https" t c) as (? & ? & ? & ?); try done.
      + intros d. rewrite Hv. by apply urlsplit_https.
      + apply (bool_decide_unpack _). by vm_compute.
      + apply (Hsq "https"); [by right|done].
      + repeat split; try done. by right. }
  unfold abs_link.
  rewrite (defragmented_fixed base v c Hbase Hany Hsch Hnet Hf Hun).
  cbn [mbind result_bind]. by rewrite Hfix.
Qed.

Lemma normalisation_idempotent_witness :
  abs_link seed_page_url "http://seed.example/docs;v=1;?x=1"
  = Return ("http://seed.example/docs;v=1;?x=1" : pystr).
Proof.
  apply (normalisation_idempotent seed_page_url "/docs;v=1;?x=1#top"
           "http://seed.example/docs;v=1;?x=1"
           (mkParseResult "http" "seed.example" "/docs" "v=1;"
              "x=1" [])).
  - vm_compute. reflexivity.
  - vm_compute. reflexivity.
  - vm_compute. reflexivity.
  - discriminate.
  - vm_compute. discriminate.
  - vm_compute. discriminate.
Defined.

(** C8 as stated fails, in three ways.  The link "?/" normalises to a URL
    that ends in "?", and normalising that URL again drops the "?".  The
    link ";/" normalises to a URL that ends in ";", and normalising that
    URL again drops the ";" and the slash before it.  And on an HTTPS page
    the link "http://////a" normalises to "http:////a", a URL with an
    empty host, which normalises to "http://a". *)
Lemma idempotence_counterexample :
  (abs_link seed_page_url "?/" = Return ("http://seed.example/page?" : pystr)
   ∧ accepted "http://seed.example/page?" = true
   ∧ abs_link seed_page_url "http://seed.example/page?"
     = Return ("http://seed.example/page" : pystr)
   ∧ ("http://seed.example/page?" : pystr)
     ≠ ("http://seed.example/page" : pystr))
  ∧ (abs_link seed_page_url ";/" = Return ("http://seed.example/;" : pystr)
     ∧ accepted "http://seed.example/;" = true
     ∧ abs_link seed_page_url "http://seed.example/;"
       = Return ("http://seed.example" : pystr)
     ∧ ("http://seed.example/;" : pystr) ≠ ("http://seed.example" : pystr))
  ∧ (abs_link https_page_url "http://////a" = Return ("http:////a" : pystr)
     ∧ accepted "http:////a" = true
     ∧ (∃ c, urlparse "http:////a" [] = Return c ∧ netloc c = [])
     ∧ abs_link https_page_url "http:////a" = Return ("http://a" : pystr)
     ∧ ("http:////a" : pystr) ≠ ("http://a" : pystr)).
Proof.
  split; [|split].
  - split; [|split; [|split]]; [vm_compute; reflexivity..|].
    intros Heq. apply (f_equal length) in Heq. by vm_compute in Heq.
  - split; [|split; [|split]]; [vm_compute; reflexivity..|].
    intros Heq. apply (f_equal length) in Heq. by vm_compute in Heq.
  - split; [|split; [|split; [|split]]]; [vm_compute; reflexivity..| | |].
    + eexists. split; [vm_compute; reflexivity|reflexivity].
    + vm_compute. reflexivity.
    + intros Heq. apply (f_equal length) in Heq. by vm_compute in Heq.
Qed.

End LinkProps.

(** * The loop, iteration by iteration *)
Module LoopProps.
Import Py Urllib Crawler CrawlerSpec LoopSpec Examples Worlds CrawlerProps.

Ltac iteration_cases Hit :=
  destruct Hit as
    [ url rest Eq Hv
    | url rest e Eq Hv Hf
    | url rest html e Eq Hv Hf Hw
    | url rest html e Eq Hv Hf Hw He
    | url rest html links q err Eq Hv Hf Hw He Hen
    | url rest html Eq Hv Hf Hle
    | url rest html Eq Hv Hf Hgt
    | url rest html status Eq Hv Hf Hnt Hno ];
  [ | | | | destruct err as [e|] | | | ];
  cbn [state_of popped saved requeued dropped
       queue visited visited_set retries failed page_id now stdout].

Section Loop.
Context `{NetlocChecks} (cfg : Config) (w : World) (sd : pystr).

(** The body of the loop takes one of the branches of [iteration]. *)
Lemma loop_body_iteration st :
  queue st ≠ [] → iteration cfg w sd st (loop_body cfg w sd st).
Proof.
  intros Hq. unfold loop_body. destruct (queue st) as [|url rest] eqn:Eq; [done|].
  cbn [visited_set visited queue retries failed page_id now stdout].
  case_bool_decide as Hv; [by apply (I_skip _ _ _ _ url)|].
  destruct (fetch_page w (now st) url 5) as [[html status]|e] eqn:Hf;
    [|by apply (I_fetch_raises _ _ _ _ url)].
  assert (Hother : status ≠ ("ok" : pystr) ∨ html = None →
    iteration cfg w sd st
      (if bool_decide (status = ("transient" : pystr))
       then
         if default 0 (retries st !! url) + 1 <=? max_retries cfg
         then Normal
             (mkState (rest ++ [url]) (visited st) (visited_set st)
                (<[url := default 0 (retries st !! url) + 1]> (retries st))
                (failed st) (page_id st) (S (now st))
                (stdout st
                 ++ [TransientRetry url
                       (default 0 (retries st !! url) + 1)]))
         else Normal
             (mkState rest (visited st) (visited_set st) (retries st)
                ({[url]} ∪ failed st) (page_id st) (S (now st))
                (stdout st ++ [FailedAfterRetries url]))
       else Normal
           (mkState rest (visited st) (visited_set st) (retries st)
              ({[url]} ∪ failed st) (page_id st) (S (now st))
              (stdout st ++ [PermanentFailure url])))).
  { intros Hno. case_bool_decide as Ht.
    - subst status.
      destruct (Z.leb_spec (default 0 (retries st !! url) + 1)
                  (max_retries cfg)).
      + by apply (I_retry _ _ _ _ url rest html).
      + by apply (I_give_up _ _ _ _ url rest html).
    - by apply (I_permanent _ _ _ _ url rest html status). }
  destruct (decide (status = ("ok" : pystr))) as [Hok|Hok];
    [rewrite (bool_decide_eq_true_2 _ Hok)
    |rewrite (bool_decide_eq_false_2 _ Hok); apply Hother; by left].
  destruct html as [html|]; [|apply Hother; by right].
  subst status.
  destruct (open_write w (now st) (PageFile (page_id st)) html) as [[]|e]
    eqn:Hw; [|by apply (I_write_raises _ _ _ _ url rest html)].
  destruct (extract_links (list_of_set w (now st)) html url) as [links|e]
    eqn:He; [|by apply (I_extract_raises _ _ _ _ url rest html)].
  destruct (enqueue sd links ({[url]} ∪ visited_set st) rest) as [q err]
    eqn:Een.
  pose proof (I_saved cfg w sd st url rest html links q err Eq Hv Hf Hw He Een)
    as Hs.
  by destruct err.
Qed.

(** To show that a property holds in every state the loop passes
    through, show that it holds initially and that every branch of the
    body keeps it. *)
Lemma reachable_ind (P : State → Prop) :
  P (initial cfg) →
  (∀ st o, reachable cfg w sd st → P st → loop_cond cfg st = true →
           iteration cfg w sd st o → P (state_of o)) →
  ∀ st, reachable cfg w sd st → P st.
Proof.
  intros Hinit Hstep.
  assert (∀ st, rtc (step cfg w sd) (initial cfg) st → P st) as Hrtc.
  { intros st Hr.
    apply (rtc_ind_r (R := step cfg w sd)
             (λ st, rtc (step cfg w sd) (initial cfg) st ∧ P st)
             (initial cfg)); [split; [apply rtc_refl|done]| |done].
    intros x y _ [Hc Hb] [Hx Px]. split; [eapply rtc_r; [done|by split]|].
    replace y with (state_of (loop_body cfg w sd x)) by (by rewrite Hb).
    apply (Hstep x); [by apply steps_reachable|done..|].
    apply loop_body_iteration. unfold loop_cond in Hc.
    by destruct (queue x). }
  intros st (st0 & Hr & [->|(Hc & e & Hb)]); [by apply Hrtc|].
  replace st with (state_of (loop_body cfg w sd st0)) by (by rewrite Hb).
  apply (Hstep st0); [by apply steps_reachable|by apply Hrtc|done|].
  apply loop_body_iteration. unfold loop_cond in Hc. by destruct (queue st0).
Qed.

End Loop.

Lemma saved_files_snoc log ev :
  saved_files (log ++ [ev])
  = saved_files log ++ match ev with Saved f => [f] | _ => [] end.
Proof. unfold saved_files. rewrite omap_app. by destruct ev. Qed.

Lemma reported_failed_snoc log ev :
  reported_failed (log ++ [ev])
  = reported_failed log
    ++ match ev with
       | FailedAfterRetries u | PermanentFailure u => [u]
       | _ => []
       end.
Proof. unfold reported_failed. rewrite omap_app. by destruct ev. Qed.

Lemma page_files_S n :
  page_files (S n) = page_files n ++ [PageFile (Z.of_nat n + 1)].
Proof.
  unfold page_files. rewrite seq_S, fmap_app. simpl. do 3 f_equal. lia.
Qed.

(** *** Concrete runs *)

Lemma state_at_reachable `{NetlocChecks} (cfg : Config) (w : World)
    (sd : pystr) (n : nat) (st : State) :
  state_at cfg w sd n (initial cfg) = Some st → reachable cfg w sd st.
Proof. intros Hst. by apply steps_reachable, (state_at_rtc _ _ _ n). Qed.

(** The [relink_world] run at its fourth loop test, where the loop goes
    on. *)
Lemma relink_state_3_goes_on :
  ∃ st, state_at relink_cfg relink_world "s.example" 3 (initial relink_cfg)
        = Some st
        ∧ queue st = [a_url] ∧ visited st = [s_url; b_url]
        ∧ loop_cond relink_cfg st = true.
Proof.
  destruct relink_state_3 as (st & Hst & Hq & Hv & _).
  exists st. split; [done|]. split; [done|]. split; [done|].
  unfold loop_cond. by rewrite Hq, Hv.
Qed.

(** The run of [flaky_world] without retries, at its second loop
    test. *)
Lemma no_retry_state_1 :
  ∃ st, state_at no_retry_cfg flaky_world "s.example" 1 (initial no_retry_cfg)
        = Some st
        ∧ queue st = [a_url; b_url].
Proof. eexists. split; [vm_compute; reflexivity|]. reflexivity. Qed.

Lemma elem_of_List_filter {A} (f : A → bool) (l : list A) (x : A) :
  x ∈ List.filter f l ↔ x ∈ l ∧ f x = true.
Proof. by rewrite !list_elem_of_In, filter_In. Qed.

Lemma NoDup_List_filter {A} (f : A → bool) (l : list A) :
  NoDup l → NoDup (List.filter f l).
Proof.
  induction 1 as [|x l Hx _ IH]; simpl; [constructor|].
  destruct (f x); [|done]. constructor; [|done].
  rewrite elem_of_List_filter. by intros [? _].
Qed.

(** [a_then_b] lists a set element by element. *)
Lemma a_then_b_lists (X : gset pystr) : a_then_b X ≡ₚ elements X.
Proof.
  unfold a_then_b. apply NoDup_Permutation.
  - apply NoDup_app. split; [|split].
    + apply NoDup_List_filter. apply (bool_decide_unpack _). by vm_compute.
    + intros x Hx Hx'. apply elem_of_List_filter in Hx as [Hx _].
      apply elem_of_List_filter in Hx' as [_ Hx'].
      apply negb_true_iff, bool_decide_eq_false in Hx'. done.
    + apply NoDup_List_filter, NoDup_elements.
  - apply NoDup_elements.
  - intros x. rewrite elem_of_app, !elem_of_List_filter, elem_of_elements.
    rewrite bool_decide_eq_true, negb_true_iff, bool_decide_eq_false.
    destruct (decide (x ∈ [a_url; b_url])); tauto.
Qed.

Lemma relink_world_lists : lists_sets relink_world.
Proof. intros t X. apply a_then_b_lists. Qed.

(** X1: no page is saved twice, and the set [visited_set] holds exactly
    the URLs of the list [visited]: in every state the loop passes
    through, [visited] has no duplicates and [visited_set] is the set of
    its elements. *)
Theorem visited_once `{NetlocChecks} (cfg : Config) (w : World)
    (sd : pystr) (st : State) :
  reachable cfg w sd st →
  NoDup (visited st) ∧ visited_set st = list_to_set (visited st).
Proof.
  intros Hr. split.
  - revert st Hr. apply reachable_ind; [apply NoDup_nil_2|].
    intros st o Hr Hnd Hc Hit.
    pose proof (inv_vset _ _ (reachable_inv _ _ _ _ Hr)) as Hvs.
    assert (∀ url, url ∉ visited_set st → NoDup (visited st ++ [url])) as Hs.
    { intros url Hv. apply NoDup_app. split; [done|].
      split; [|apply NoDup_singleton].
      intros x Hx Hx'. apply list_elem_of_singleton in Hx' as ->.
      by apply Hv, Hvs. }
    iteration_cases Hit; try done; by apply Hs.
  - apply set_eq. intros u. rewrite elem_of_list_to_set.
    apply (inv_vset _ _ (reachable_inv _ _ _ _ Hr)).
Qed.

Lemma visited_once_witness :
  ∃ st, state_at relink_cfg relink_world "s.example" 3 (initial relink_cfg)
        = Some st
        ∧ NoDup (visited st) ∧ visited_set st = list_to_set (visited st).
Proof.
  destruct relink_state_3 as (st & Hst & _).
  exists st. split; [exact Hst|].
  apply (visited_once relink_cfg relink_world "s.example" st).
  exact (state_at_reachable _ _ _ 3 st Hst).
Defined.

(** X2: the pages are numbered in the order of the visits.  In every
    state the loop passes through, the files reported as saved are
    pages/1.html to pages/n.html, [n] the number of visited URLs, and
    [page_id] is [n + 1]; and an iteration that adds a URL to [visited]
    adds the URL it took from the queue, after [fetch_page] answered "ok"
    for it and its page was written to pages/k.html, [k] the position the
    URL gets in [visited]. *)
Theorem pages_numbered `{NetlocChecks} (cfg : Config) (w : World)
    (sd : pystr) (st : State) :
  reachable cfg w sd st →
  saved_files (stdout st) = page_files (length (visited st))
  ∧ page_id st = Z.of_nat (length (visited st)) + 1
  ∧ (loop_cond cfg st = true →
     let st' := state_of (loop_body cfg w sd st) in
     visited st' = visited st
     ∨ ∃ url rest html,
         queue st = url :: rest
         ∧ visited st' = visited st ++ [url]
         ∧ fetch_page w (now st) url 5 = Return (Some html, "ok" : pystr)
         ∧ open_write w (now st)
             (PageFile (Z.of_nat (length (visited st')))) html = Return tt).
Proof.
  intros Hr.
  assert (page_id st = Z.of_nat (length (visited st)) + 1) as Hpid.
  { pose proof (inv_page_id _ _ (reachable_inv _ _ _ _ Hr)). lia. }
  split; [|split; [done|]].
  - clear Hpid. revert st Hr. apply reachable_ind; [done|].
    intros st o Hr Hsf Hc Hit.
    assert (page_id st = Z.of_nat (length (visited st)) + 1) as Hpid.
    { pose proof (inv_page_id _ _ (reachable_inv _ _ _ _ Hr)). lia. }
    iteration_cases Hit; rewrite ?saved_files_snoc, ?app_nil_r; try done;
      rewrite length_app, Nat.add_1_r, page_files_S, Hsf; by rewrite Hpid.
  - intros Hc st'.
    assert (iteration cfg w sd st (loop_body cfg w sd st)) as Hit.
    { apply loop_body_iteration. unfold loop_cond in Hc.
      by destruct (queue st). }
    unfold st'. clear st'.
    iteration_cases Hit; try (by left); right; exists url, rest, html;
      (split; [done|]); (split; [done|]); (split; [done|]);
      rewrite length_app, Nat.add_1_r, Nat2Z.inj_succ, <- Z.add_1_r, <- Hpid;
      done.
Qed.

Lemma pages_numbered_witness :
  ∃ st, state_at relink_cfg relink_world "s.example" 3 (initial relink_cfg)
        = Some st
        ∧ saved_files (stdout st) = page_files (length (visited st))
        ∧ page_id st = Z.of_nat (length (visited st)) + 1
        ∧ (loop_cond relink_cfg st = true →
           let st' := state_of (loop_body relink_cfg relink_world
                                  "s.example" st) in
           visited st' = visited st
           ∨ ∃ url rest html,
               queue st = url :: rest
               ∧ visited st' = visited st ++ [url]
               ∧ fetch_page relink_world (now st) url 5
                 = Return (Some html, "ok" : pystr)
               ∧ open_write relink_world (now st)
                   (PageFile (Z.of_nat (length (visited st')))) html
                 = Return tt).
Proof.
  destruct relink_state_3 as (st & Hst & _).
  exists st. split; [exact Hst|].
  apply (pages_numbered relink_cfg relink_world "s.example" st).
  exact (state_at_reachable _ _ _ 3 st Hst).
Defined.

(** X3: the failed set is what the output reports: in every state the
    loop passes through, a URL is in [failed] exactly when a line
    "Failed after ... retries" or "Permanent failure" has been printed for
    it. *)
Theorem failed_as_reported `{NetlocChecks} (cfg : Config) (w : World)
    (sd : pystr) (st : State) :
  reachable cfg w sd st →
  failed st = list_to_set (reported_failed (stdout st)).
Proof.
  revert st. apply reachable_ind; [done|].
  intros st o Hr Hfl Hc Hit.
  iteration_cases Hit; rewrite ?reported_failed_snoc, ?app_nil_r; try done;
    rewrite list_to_set_app_L, <- Hfl; simpl; rewrite union_empty_r_L;
    apply (comm_L (∪)).
Qed.

Lemma failed_as_reported_witness :
  ∃ st, state_at relink_cfg relink_world "s.example" 3 (initial relink_cfg)
        = Some st
        ∧ failed st = list_to_set (reported_failed (stdout st)).
Proof.
  destruct relink_state_3 as (st & Hst & _).
  exists st. split; [exact Hst|].
  apply (failed_as_reported relink_cfg relink_world "s.example" st).
  exact (state_at_reachable _ _ _ 3 st Hst).
Defined.

(** X4: the queue is first in, first out.  An iteration takes the URL at
    the head of the queue and leaves the rest in place; whatever it adds
    goes behind, is added once, and was not already waiting. *)
Theorem queue_fifo `{NetlocChecks} (cfg : Config) (w : World)
    (sd : pystr) (st : State) :
  reachable cfg w sd st →
  loop_cond cfg st = true →
  ∃ url rest added,
    queue st = url :: rest
    ∧ queue (state_of (loop_body cfg w sd st)) = rest ++ added
    ∧ NoDup added
    ∧ ∀ u, u ∈ added → u ∉ rest.
Proof.
  intros Hr Hc.
  pose proof (inv_nodup _ _ (reachable_inv _ _ _ _ Hr)) as Hnd.
  assert (iteration cfg w sd st (loop_body cfg w sd st)) as Hit.
  { apply loop_body_iteration. unfold loop_cond in Hc. by destruct (queue st). }
  assert (∀ rest added : list pystr,
            NoDup (rest ++ added) →
            NoDup added ∧ ∀ u, u ∈ added → u ∉ rest) as Hsplit.
  { intros rest added Hn. apply NoDup_app in Hn as (_ & Hdis & Hna).
    split; [done|]. intros u Hu Hu'. by apply (Hdis u). }
  assert (∀ rest : list pystr,
            NoDup ([] : list pystr) ∧ ∀ u, u ∈ ([] : list pystr) → u ∉ rest)
    as Hnil.
  { intros rest. split; [apply NoDup_nil_2|]. intros u Hu.
    by apply elem_of_nil in Hu. }
  iteration_cases Hit; rewrite Eq in Hnd; apply NoDup_cons in Hnd as [Hur Hnd];
    exists url, rest.
  1-4,8-9: exists []; rewrite app_nil_r; by split; [|split; [|apply Hnil]].
  1-2: destruct (enqueue_spec _ _ _ _ _ _ Hen) as (added & -> & Hq & _);
       exists added; split; [done|]; split; [done|]; by apply Hsplit, Hq.
  exists [url]. split; [done|]. split; [done|].
  split; [apply NoDup_singleton|].
  intros u Hu. by apply list_elem_of_singleton in Hu as ->.
Qed.

Lemma queue_fifo_witness :
  ∃ st, state_at relink_cfg relink_world "s.example" 3 (initial relink_cfg)
        = Some st
        ∧ ∃ url rest added,
            queue st = url :: rest
            ∧ queue (state_of (loop_body relink_cfg relink_world
                                 "s.example" st)) = rest ++ added
            ∧ NoDup added
            ∧ ∀ u, u ∈ added → u ∉ rest.
Proof.
  destruct relink_state_3_goes_on as (st & Hst & _ & _ & Hc).
  exists st. split; [exact Hst|].
  apply (queue_fifo relink_cfg relink_world "s.example" st).
  - exact (state_at_reachable _ _ _ 3 st Hst).
  - exact Hc.
Defined.

(** X5: with [max_retries] zero or negative nothing is ever retried: in
    every state the loop passes through the retry ledger is empty and no
    retry line has been printed, and a transient failure of the URL at the
    head of the queue sends it to the failed set at once. *)
Theorem no_retries_when_disabled `{NetlocChecks} (cfg : Config) (w : World)
    (sd : pystr) (st : State) :
  max_retries cfg ≤ 0 →
  reachable cfg w sd st →
  retries st = ∅
  ∧ (∀ u c, TransientRetry u c ∉ stdout st)
  ∧ ∀ url rest html,
      queue st = url :: rest →
      fetch_page w (now st) url 5 = Return (html, "transient" : pystr) →
      loop_body cfg w sd st
      = Normal (dropped st url rest (FailedAfterRetries url)).
Proof.
  intros Hmax Hr.
  assert (retries st = ∅ ∧ ∀ u c, TransientRetry u c ∉ stdout st)
    as [Hemp Hlog].
  { revert st Hr. apply reachable_ind.
    - split; [done|]. intros u c Hin. by apply elem_of_nil in Hin.
    - intros st o Hr [Hemp Hlog] Hc Hit.
      assert (∀ ev, (∀ u c, ev ≠ TransientRetry u c) →
                    ∀ u c, TransientRetry u c ∉ stdout st ++ [ev]) as Hsnoc.
      { intros ev Hev u c Hin. apply elem_of_app in Hin as [Hin|Hin].
        - by apply (Hlog u c).
        - apply list_elem_of_singleton in Hin. by apply (Hev u c). }
      iteration_cases Hit; try done; try (split; [done|]; by apply Hsnoc).
      rewrite Hemp, lookup_empty in Hle. simpl in Hle. lia. }
  split; [done|]. split; [done|].
  intros url rest html Hq Hf.
  pose proof (inv_disjoint _ _ (reachable_inv _ _ _ _ Hr)) as Hdis.
  assert (url ∉ visited_set st) as Hv.
  { apply Hdis. rewrite Hq. by left. }
  unfold loop_body. rewrite Hq.
  cbn [visited_set visited queue retries failed page_id now stdout].
  rewrite (bool_decide_eq_false_2 _ Hv), Hf.
  replace (bool_decide (("transient" : pystr) = ("ok" : pystr)))
    with false by (by vm_compute).
  rewrite bool_decide_eq_true_2 by done.
  replace (default 0 (retries st !! url)) with 0
    by (by rewrite Hemp, lookup_empty).
  destruct (Z.leb_spec (0 + 1) (max_retries cfg)); [lia|reflexivity].
Qed.

Lemma no_retries_when_disabled_witness :
  ∃ st, state_at no_retry_cfg flaky_world "s.example" 1 (initial no_retry_cfg)
        = Some st
        ∧ retries st = ∅
        ∧ (∀ u c, TransientRetry u c ∉ stdout st)
        ∧ ∀ url rest html,
            queue st = url :: rest →
            fetch_page flaky_world (now st) url 5
            = Return (html, "transient" : pystr) →
            loop_body no_retry_cfg flaky_world "s.example" st
            = Normal (dropped st url rest (FailedAfterRetries url)).
Proof.
  destruct no_retry_state_1 as (st & Hst & _).
  exists st. split; [exact Hst|].
  apply (no_retries_when_disabled no_retry_cfg flaky_world "s.example" st).
  - simpl. lia.
  - exact (state_at_reachable _ _ _ 1 st Hst).
Defined.

(** X6: the seed comes first.  In every state the loop passes
    through, either nothing is visited yet and nothing but the seed is
    queued, or the seed is the first visited URL (the page in
    pages/1.html): a URL other than the seed is only ever fetched after
    the seed's page has been saved. *)
Theorem seed_saved_first `{NetlocChecks} (cfg : Config) (w : World)
    (sd : pystr) (st : State) :
  reachable cfg w sd st →
  (visited st = [] ∧ ∀ u, u ∈ queue st → u = rstrip "/" (seed_url cfg))
  ∨ ∃ vs, visited st = rstrip "/" (seed_url cfg) :: vs.
Proof.
  revert st.
  apply (reachable_ind cfg w sd
           (λ st, (visited st = []
                   ∧ ∀ u, u ∈ queue st → u = rstrip "/" (seed_url cfg))
                  ∨ ∃ vs, visited st = rstrip "/" (seed_url cfg) :: vs)).
  { left. split; [done|]. intros u Hu. simpl in Hu.
    by apply list_elem_of_singleton in Hu. }
  intros st o _ HP _ Hit.
  assert (∀ url rest (q : list pystr),
            queue st = url :: rest →
            ∃ vs, visited st ++ [url] = rstrip "/" (seed_url cfg) :: vs)
    as Hsaved.
  { intros url rest q Eq. destruct HP as [[Hv Hq]|[vs Hv]].
    - exists []. rewrite Hv. simpl. f_equal. apply Hq. rewrite Eq. by left.
    - exists (vs ++ [url]). by rewrite Hv. }
  assert (∀ url rest,
            queue st = url :: rest →
            (visited st = []
             ∧ ∀ u, u ∈ rest ++ [url] → u = rstrip "/" (seed_url cfg))
            ∨ ∃ vs, visited st = rstrip "/" (seed_url cfg) :: vs) as Hkept.
  { intros url rest Eq. destruct HP as [[Hv Hq]|Hv]; [left|by right].
    split; [done|]. intros u Hu. apply Hq. rewrite Eq.
    apply elem_of_app in Hu as [Hu|Hu]; [by right|].
    apply list_elem_of_singleton in Hu as ->. by left. }
  assert (∀ url rest,
            queue st = url :: rest →
            (visited st = []
             ∧ ∀ u, u ∈ rest → u = rstrip "/" (seed_url cfg))
            ∨ ∃ vs, visited st = rstrip "/" (seed_url cfg) :: vs) as Hrest.
  { intros url rest Eq. destruct (Hkept url rest Eq) as [[Hv Hq]|Hv];
      [left|by right].
    split; [done|]. intros u Hu. apply Hq, elem_of_app. by left. }
  iteration_cases Hit;
    first [by apply (Hrest url rest) | by apply (Hkept url rest)
          | right; by apply (Hsaved url rest rest)].
Qed.

Lemma seed_saved_first_witness :
  ∃ st, state_at relink_cfg relink_world "s.example" 3 (initial relink_cfg)
        = Some st
        ∧ ((visited st = []
            ∧ ∀ u, u ∈ queue st → u = rstrip "/" (seed_url relink_cfg))
           ∨ ∃ vs, visited st = rstrip "/" (seed_url relink_cfg) :: vs).
Proof.
  destruct relink_state_3 as (st & Hst & _).
  exists st. split; [exact Hst|].
  apply (seed_saved_first relink_cfg relink_world "s.example" st).
  exact (state_at_reachable _ _ _ 3 st Hst).
Defined.

End LoopProps.

(** * The hyperlinks of a page *)
Module RegexProps.
Import Py PyProps Urllib Crawler LinkSpec Examples Worlds.

Lemma lazy_group_sound (s m r : pystr) :
  Re.lazy_group s = Some (m, r) →
  ∃ q, s = m ++ q :: r ∧ Re.is_quote q = true ∧ hrefable m.
Proof.
  revert m. induction s as [|c s IH]; intros m; simpl; [done|].
  destruct (Re.is_quote c) eqn:Hq.
  - intros [= <- <-]. exists c. split; [done|]. split; [done|]. constructor.
  - destruct (decide (c = Re.newline)) as [|Hnl]; [done|].
    destruct (Re.lazy_group s) as [[m' r']|]; [|done].
    intros [= <- <-]. destruct (IH m' eq_refl) as (q & -> & Hq' & Hm).
    exists q. split; [done|]. split; [done|]. by constructor.
Qed.

Lemma lazy_group_complete (m r : pystr) (q : ascii) :
  hrefable m → Re.is_quote q = true →
  Re.lazy_group (m ++ q :: r) = Some (m, r).
Proof.
  intros Hm Hq. induction Hm as [|c m [Hc Hnl] _ IH]; simpl.
  - by rewrite Hq.
  - rewrite Hc. destruct (decide (c = Re.newline)); [done|]. by rewrite IH.
Qed.

Ltac ascii_cases c :=
  destruct c as [[] [] [] [] [] [] [] []]; try (intros ?; discriminate).

Lemma match_here_sound (s m : pystr) :
  Re.match_here s = Some m →
  ∃ q q' r, s = href q m q' ++ r
            ∧ Re.is_quote q = true ∧ Re.is_quote q' = true ∧ hrefable m.
Proof.
  destruct s as [|c1 s]; [discriminate|]. ascii_cases c1.
  destruct s as [|c2 s]; [discriminate|]. ascii_cases c2.
  destruct s as [|c3 s]; [discriminate|]. ascii_cases c3.
  destruct s as [|c4 s]; [discriminate|]. ascii_cases c4.
  destruct s as [|c5 s]; [discriminate|]. ascii_cases c5.
  destruct s as [|q s]; [discriminate|].
  unfold Re.match_here. destruct (Re.is_quote q) eqn:Hq; [|discriminate].
  destruct (Re.lazy_group s) as [[m' r]|] eqn:Hg; [|discriminate].
  intros [= <-]. apply lazy_group_sound in Hg as (q' & -> & Hq' & Hm).
  exists q, q', r. split; [|done].
  unfold href. cbn [list_ascii_of_string app]. by rewrite <- app_assoc.
Qed.

Lemma match_here_href (q q' : ascii) (u r : pystr) :
  Re.is_quote q = true → Re.is_quote q' = true → hrefable u →
  Re.match_here (href q u q' ++ r) = Some u.
Proof.
  intros Hq Hq' Hu. unfold href. cbn [list_ascii_of_string app Re.match_here].
  rewrite Hq.
  replace ((u ++ [q']) ++ r) with (u ++ q' :: r) by (by rewrite <- app_assoc).
  by rewrite lazy_group_complete.
Qed.

Lemma findall_from_sound (skip : nat) (s m : pystr) :
  m ∈ Re.findall_from skip s →
  ∃ pre q q' post,
    s = pre ++ href q m q' ++ post
    ∧ Re.is_quote q = true ∧ Re.is_quote q' = true ∧ hrefable m.
Proof.
  revert skip. induction s as [|x s IH]; intros skip; cbn [Re.findall_from].
  { intros Hin. by apply elem_of_nil in Hin. }
  assert (∀ k, m ∈ Re.findall_from k s →
               ∃ pre q q' post,
                 x :: s = pre ++ href q m q' ++ post
                 ∧ Re.is_quote q = true ∧ Re.is_quote q' = true ∧ hrefable m)
    as Hrest.
  { intros k Hin. destruct (IH k Hin) as (pre & q & q' & post & -> & ?).
    by exists (x :: pre), q, q', post. }
  destruct skip as [|k]; [|apply Hrest].
  destruct (Re.match_here (x :: s)) as [m0|] eqn:Hm; [|apply Hrest].
  intros Hin. apply elem_of_cons in Hin as [->|Hin]; [|by eapply Hrest].
  destruct (match_here_sound _ _ Hm) as (q & q' & r & -> & ?).
  by exists [], q, q', r.
Qed.

Lemma findall_from_skip (a s : pystr) (k : nat) :
  Re.findall_from (length a + k) (a ++ s) = Re.findall_from k s.
Proof. induction a as [|x a IH]; [done|]. simpl. apply IH. Qed.

Lemma findall_from_other (sep s : pystr) :
  "h"%char ∉ sep → Re.findall_from 0 (sep ++ s) = Re.findall_from 0 s.
Proof.
  induction sep as [|x sep IH]; [done|]. intros Hn.
  apply not_elem_of_cons in Hn as [Hx Hn].
  cbn [app Re.findall_from].
  assert (Re.match_here (x :: sep ++ s) = None) as ->; [|by apply IH].
  destruct (Re.match_here (x :: sep ++ s)) as [m|] eqn:Hm; [|done].
  apply match_here_sound in Hm as (q & q' & r & Heq & _).
  unfold href in Heq. by injection Heq as -> _.
Qed.

Lemma findall_from_href (q q' : ascii) (u s : pystr) :
  Re.is_quote q = true → Re.is_quote q' = true → hrefable u →
  Re.findall_from 0 (href q u q' ++ s) = u :: Re.findall_from 0 s.
Proof.
  intros Hq Hq' Hu.
  pose proof (match_here_href q q' u s Hq Hq' Hu) as Hm.
  unfold href in *. cbn [list_ascii_of_string app] in *.
  cbn [Re.findall_from]. cbn [Re.match_here] in Hm. cbn [Re.match_here].
  rewrite Hm. f_equal.
  change ("r"%char :: "e"%char :: "f"%char :: "="%char :: q
          :: (u ++ [q']) ++ s)
    with ((("ref=" : pystr) ++ q :: u ++ [q']) ++ s).
  replace (6 + length u)%nat
    with (length (("ref=" : pystr) ++ q :: u ++ [q']) + 0)%nat.
  - apply findall_from_skip.
  - rewrite length_app. simpl. rewrite length_app. simpl. lia.
Qed.

(** X7: every string that [re.findall] returns for the pattern of
    [extract_links] stands in the page between [href=] with an opening
    quote and a closing quote; the two quotes may be of different kinds,
    and the string itself has no quote and no newline. *)
Theorem findall_href_sound (html m : pystr) :
  m ∈ Re.findall_href html →
  ∃ pre q q' post,
    html = pre ++ href q m q' ++ post
    ∧ Re.is_quote q = true ∧ Re.is_quote q' = true ∧ hrefable m.
Proof. apply findall_from_sound. Qed.

(** X8: in a page made of hyperlinks, each [href=] with a quoted text
    that has no quote and no newline, with any text that has no "h" before,
    between and after them, [re.findall] returns the quoted texts, all of
    them, in the order of the page. *)
Theorem findall_href_complete (sep0 : pystr)
    (items : list (ascii * pystr * ascii * pystr)) :
  "h"%char ∉ sep0 →
  Forall (λ '(q, u, q', sep),
            Re.is_quote q = true ∧ Re.is_quote q' = true
            ∧ hrefable u ∧ "h"%char ∉ sep) items →
  Re.findall_href (sep0 ++ hyperlinks items)
  = (λ '(q, u, q', sep), u) <$> items.
Proof.
  intros H0 Hitems. unfold Re.findall_href.
  rewrite findall_from_other by done. clear H0.
  induction Hitems as [|[[[q u] q'] sep] items (Hq & Hq' & Hu & Hsep) _ IH];
    [done|].
  unfold hyperlinks in *. cbn [flat_map fmap list_fmap].
  rewrite <- !app_assoc, findall_from_href by done.
  f_equal. by rewrite findall_from_other.
Qed.

Lemma findall_href_complete_witness :
  Re.findall_href ("<p><a " ++ hyperlinks two_links)
  = [("/a" : pystr); ("b.htm" : pystr)].
Proof.
  apply (findall_href_complete "<p><a " two_links).
  - apply (bool_decide_unpack _). vm_compute. exact I.
  - apply (bool_decide_unpack _). vm_compute. exact I.
Defined.

Lemma findall_href_sound_witness :
  ∃ pre q q' post,
    four_links_page = pre ++ href q "/x" q' ++ post
    ∧ Re.is_quote q = true ∧ Re.is_quote q' = true ∧ hrefable "/x".
Proof.
  apply (findall_href_sound four_links_page "/x").
  apply (bool_decide_unpack _). vm_compute. exact I.
Defined.

End RegexProps.

(** * What [extract_links] returns *)
Module ExtractProps.
Import Py PyProps Urllib UrllibSpec UrllibProps Crawler LoopSpec LinkSpec.
Import Examples LinkProps.

Lemma scan_links_spec `{NetlocChecks} (base : pystr) (raws : list pystr)
    (found found' : gset pystr) :
  scan_links base raws found = Return found' →
  ∀ l, l ∈ found' ↔ l ∈ found ∨ ∃ raw, raw ∈ raws ∧ yields base raw l.
Proof.
  revert found. induction raws as [|link rest IH]; intros found.
  { intros [= <-] l. split; [by left|]. intros [Hl|(raw & Hin & _)]; [done|].
    by apply elem_of_nil in Hin. }
  cbn [scan_links].
  assert (Hskip : (∀ l, ¬ yields base link l) →
    scan_links base rest found = Return found' →
    ∀ l, l ∈ found' ↔ l ∈ found ∨ ∃ raw, raw ∈ link :: rest ∧ yields base raw l).
  { intros Hno Hscan l. rewrite (IH _ Hscan l). split.
    - intros [Hl|(raw & Hin & Hy)]; [by left|right].
      exists raw. split; [by right|done].
    - intros [Hl|(raw & Hin & Hy)]; [by left|right].
      apply elem_of_cons in Hin as [->|Hin]; [by apply Hno in Hy|].
      by exists raw. }
  destruct (truthy (strip_ws link)) eqn:Ht; cbn [negb].
  2:{ apply Hskip. intros l (Hne & _). by apply truthy_false in Ht. }
  destruct (non_navigational (strip_ws link)) eqn:Hnav.
  { apply Hskip. intros l (_ & Hn & _). congruence. }
  destruct (abs_link base (strip_ws link)) as [a|e] eqn:Ha; [|done].
  cbn [mbind result_bind].
  destruct (accepted a) eqn:Hacc.
  2:{ apply Hskip. intros l (_ & _ & Hl & Hc). congruence. }
  intros Hscan l. rewrite (IH _ Hscan l), elem_of_union, elem_of_singleton.
  apply truthy_true in Ht. split.
  - intros [[->|Hl]|(raw & Hin & Hy)].
    + right. exists link. split; [by left|done].
    + by left.
    + right. exists raw. split; [by right|done].
  - intros [Hl|(raw & Hin & Hy)]; [left; by right|].
    apply elem_of_cons in Hin as [->|Hin].
    + destruct Hy as (_ & _ & Hl & _). left. left. congruence.
    + right. by exists raw.
Qed.

(** The absolute link of lines 77-83 does not end in a slash, and has no
    tab, carriage return, newline or "#". *)
Lemma abs_link_normal `{NetlocChecks} (base link l : pystr) :
  abs_link base link = Return l →
  last l ≠ Some "/"%char ∧ Forall plain l.
Proof.
  unfold abs_link. intros Habs.
  destruct (defragmented base link) as [a|e] eqn:Ha; [|done].
  injection Habs as <-.
  apply defragmented_inv in Ha as (_ & joined & parsed & Hp & ->).
  pose proof (urlparse_plain _ _ Hp) as Hplain.
  destruct (rstrip_spec "/" (geturl (replace_fragment parsed [])))
    as (suf & Hsuf & _ & Hlast).
  split.
  - intros Hl. apply (Hlast _ Hl). by left.
  - rewrite Hsuf in Hplain. by apply Forall_app in Hplain as [? _].
Qed.

(** What can be said of a link that lines 77-87 keep. *)
Lemma kept_link_normal `{NetlocChecks} (base link l : pystr) :
  abs_link base link = Return l →
  accepted l = true →
  accepted l = true
  ∧ last l ≠ Some "/"%char
  ∧ ("#"%char ∉ l) ∧ ("009"%char ∉ l) ∧ ("013"%char ∉ l) ∧ ("010"%char ∉ l).
Proof.
  intros Habs Hacc. apply abs_link_normal in Habs as [Hlast Hplain].
  split; [done|]. split; [done|].
  assert (∀ c, c ∈ l → plain c) as Hp by (by apply Forall_forall).
  split; [|split; [|split]]; intros Hin; destruct (Hp _ Hin) as [Hs Hf];
    [done|apply Hs..].
  - by left.
  - right. by left.
  - right. right. by left.
Qed.

Lemma extract_links_from `{NetlocChecks} (order : gset pystr → list pystr)
    (html base : pystr) (links : list pystr) :
  (∀ X, order X ≡ₚ elements X) →
  extract_links order html base = Return links →
  ∀ l, l ∈ links → ∃ raw, raw ∈ Re.findall_href html ∧ yields base raw l.
Proof.
  intros Horder. unfold extract_links.
  destruct (scan_links base (Re.findall_href html) ∅) as [found|e] eqn:Hscan;
    [|done].
  intros [= <-] l. rewrite (Horder found), elem_of_elements.
  rewrite (scan_links_spec _ _ _ _ Hscan l).
  by intros [Hl|Hl]; [apply elem_of_empty in Hl|].
Qed.

(** The links of the page with four hyperlinks. *)
Lemma four_links_extracted :
  extract_links elements four_links_page seed_page_url
  = Return (elements ({[ "http://seed.example/x" : pystr ]}
                      ∪ {[ "http://other.example/y" : pystr ]}
                      : gset pystr)).
Proof. vm_compute. reflexivity. Qed.

(** X9: [extract_links] returns every link once, and a link is returned
    exactly when some [href] of the page yields it: the text of the
    [href], stripped, is not empty, does not start with "#", "mailto:",
    "javascript:" or "tel:", and resolves against the base to that link,
    which starts with "http://" or "https://".  How often and in which
    order the page has the [href]s makes no difference. *)
Theorem extract_links_spec `{NetlocChecks} (order : gset pystr → list pystr)
    (html base : pystr) (links : list pystr) :
  (∀ X, order X ≡ₚ elements X) →
  extract_links order html base = Return links →
  NoDup links
  ∧ ∀ l, l ∈ links ↔ ∃ raw, raw ∈ Re.findall_href html ∧ yields base raw l.
Proof.
  intros Horder. unfold extract_links.
  destruct (scan_links base (Re.findall_href html) ∅) as [found|e] eqn:Hscan;
    [|done].
  intros [= <-]. split.
  - rewrite (Horder found). apply NoDup_elements.
  - intros l. rewrite (Horder found), elem_of_elements.
    rewrite (scan_links_spec _ _ _ _ Hscan l). split.
    + intros [Hl|Hl]; [by apply elem_of_empty in Hl|done].
    + intros Hl. by right.
Qed.

Lemma extract_links_spec_witness :
  ∃ links,
    extract_links elements four_links_page seed_page_url = Return links
    ∧ NoDup links
    ∧ ∀ l, l ∈ links
           ↔ ∃ raw, raw ∈ Re.findall_href four_links_page
                    ∧ yields seed_page_url raw l.
Proof.
  eexists. split; [exact four_links_extracted|].
  apply (extract_links_spec elements four_links_page seed_page_url).
  - intros X. reflexivity.
  - exact four_links_extracted.
Defined.

(** X10: every link that [extract_links] returns starts with "http://" or
    "https://", does not end in a slash, and contains no "#", no tab, no
    carriage return and no newline. *)
Theorem extract_links_normal `{NetlocChecks} (order : gset pystr → list pystr)
    (html base : pystr) (links : list pystr) :
  (∀ X, order X ≡ₚ elements X) →
  extract_links order html base = Return links →
  ∀ l, l ∈ links →
    accepted l = true
    ∧ last l ≠ Some "/"%char
    ∧ ("#"%char ∉ l) ∧ ("009"%char ∉ l) ∧ ("013"%char ∉ l) ∧ ("010"%char ∉ l).
Proof.
  intros Horder Hex l Hl.
  destruct (extract_links_from order html base links Horder Hex l Hl)
    as (raw & _ & _ & _ & Habs & Hacc).
  by apply (kept_link_normal base (strip_ws raw)).
Qed.

Lemma extract_links_normal_witness :
  accepted "http://seed.example/x" = true
  ∧ last ("http://seed.example/x" : pystr) ≠ Some "/"%char
  ∧ ("#"%char ∉ ("http://seed.example/x" : pystr))
  ∧ ("009"%char ∉ ("http://seed.example/x" : pystr))
  ∧ ("013"%char ∉ ("http://seed.example/x" : pystr))
  ∧ ("010"%char ∉ ("http://seed.example/x" : pystr)).
Proof.
  apply (extract_links_normal elements four_links_page seed_page_url
           _ (λ X, reflexivity _) four_links_extracted).
  apply elem_of_elements, elem_of_union. left. by apply elem_of_singleton.
Defined.

End ExtractProps.

(** * The characters of parsed and joined URLs *)
Module CharProps.
Import Py PyProps Urllib UrllibSpec UrllibProps CharSpec.

Section Chars.
Context (P : ascii → Prop).

Lemma Forall_lstrip chars (s : pystr) : Forall P s → Forall P (lstrip chars s).
Proof.
  intros Hs. destruct (lstrip_spec chars s) as (pre & Heq & _).
  rewrite Heq in Hs. by apply Forall_app in Hs as [_ ?].
Qed.

Lemma Forall_rstrip chars (s : pystr) : Forall P s → Forall P (rstrip chars s).
Proof.
  intros Hs. unfold rstrip. apply Forall_reverse, Forall_lstrip.
  by apply Forall_reverse.
Qed.

Lemma Forall_strip chars (s : pystr) : Forall P s → Forall P (strip chars s).
Proof. intros Hs. unfold strip. by apply Forall_rstrip, Forall_lstrip. Qed.

Lemma Forall_remove_char b (s : pystr) :
  Forall P s → Forall P (remove_char b s).
Proof.
  intros Hs. apply Forall_forall. intros c Hc.
  apply remove_char_spec in Hc as [Hc _].
  by apply (proj1 (Forall_forall _ _) Hs).
Qed.

Lemma Forall_cleaned (x : pystr) :
  Forall P x →
  Forall P (fold_left (λ u b, remove_char b u) UNSAFE_URL_BYTES_TO_REMOVE x).
Proof.
  intros Hx. unfold UNSAFE_URL_BYTES_TO_REMOVE. cbn [fold_left].
  by do 3 apply Forall_remove_char.
Qed.

Lemma Forall_upto (s : pystr) i : Forall P s → Forall P (upto s i).
Proof. apply Forall_take. Qed.

Lemma Forall_from (s : pystr) i : Forall P s → Forall P (from s i).
Proof. apply Forall_drop. Qed.

Lemma Forall_slice (s : pystr) lo hi : Forall P s → Forall P (slice s lo hi).
Proof. intros Hs. unfold slice. by apply Forall_take, Forall_drop. Qed.

Lemma Forall_split1 c (s a b : pystr) :
  split1 c s = (a, b) → Forall P s → Forall P a ∧ Forall P b.
Proof.
  unfold split1. intros [= <- <-] Hs.
  split; [by apply Forall_upto|by apply Forall_from].
Qed.

Lemma Forall_splitnetloc (url n r : pystr) start :
  splitnetloc url start = (n, r) → Forall P url → Forall P n ∧ Forall P r.
Proof.
  unfold splitnetloc. intros [= <- <-] Hs.
  split; [by apply Forall_slice|by apply Forall_from].
Qed.

Lemma Forall_splitparams (url p pa : pystr) :
  splitparams url = (p, pa) → Forall P url → Forall P p ∧ Forall P pa.
Proof.
  unfold splitparams. intros Hsp Hs.
  destruct (contains "/" url).
  - destruct (find ";" url (Z.to_nat (rfind "/" url)) <? 0);
      injection Hsp as <- <-; [by split; [|constructor]|].
    split; [by apply Forall_upto|by apply Forall_from].
  - injection Hsp as <- <-.
    split; [by apply Forall_upto|by apply Forall_from].
Qed.

Lemma Forall_split c (s : pystr) :
  Forall P s → Forall (Forall P) (split c s).
Proof.
  induction 1 as [|x s Hx _ IH]; simpl; [by repeat constructor|].
  destruct (decide (x = c)); [by repeat constructor|].
  destruct (split c s) as [|w ws]; [by repeat constructor|].
  apply Forall_cons in IH as [Hw Hws]. by repeat constructor.
Qed.

Lemma Forall_join c (parts : list pystr) :
  P c → Forall (Forall P) parts → Forall P (join c parts).
Proof.
  intros Hc. induction 1 as [|p ps Hp Hps IH]; simpl; [constructor|].
  destruct ps as [|p' ps]; [done|].
  apply Forall_app. split; [done|]. by constructor.
Qed.

End Chars.

Lemma Forall_removelast {A} (Q : A → Prop) (l : list A) :
  Forall Q l → Forall Q (removelast l).
Proof.
  induction 1 as [|x l Hx Hl IH]; simpl; [constructor|].
  destruct l; [constructor|]. by constructor.
Qed.

Lemma Forall_last_default {A} (Q : A → Prop) (l : list A) (d : A) :
  Q d → Forall Q l → Q (List.last l d).
Proof.
  intros Hd. induction 1 as [|x l Hx Hl IH]; simpl; [done|].
  by destruct l.
Qed.

Lemma Forall_filter_middle (Q : pystr → Prop) (segments : list pystr) :
  Q [] → Forall Q segments → Forall Q (filter_middle segments).
Proof.
  intros Hnil Hs. unfold filter_middle.
  destruct segments as [|a [|b rest]]; [done..|].
  apply Forall_cons in Hs as [Ha Hs]. constructor; [done|].
  apply Forall_app. split.
  - apply Forall_forall. intros x Hx. apply list_elem_of_filter in Hx as [_ Hx].
    by apply (proj1 (Forall_forall _ _) (Forall_removelast _ _ Hs)).
  - constructor; [|constructor]. by apply Forall_last_default.
Qed.

Lemma Forall_resolve (Q : pystr → Prop) (segments : list pystr) :
  Forall Q segments → Forall Q (resolve segments).
Proof.
  unfold resolve. intros Hs.
  assert (∀ acc, Forall Q acc →
    Forall Q (fold_left (λ (resolved_path : list pystr) (seg : pystr),
                if bool_decide (seg = "..") then removelast resolved_path
                else if bool_decide (seg = ".") then resolved_path
                else resolved_path ++ [seg]) segments acc)) as Hgen.
  { induction Hs as [|seg segments Hseg _ IH]; intros acc Hacc;
      cbn [fold_left]; [done|].
    apply IH. case_bool_decide; [by apply Forall_removelast|].
    case_bool_decide; [done|].
    apply Forall_app. split; [done|]. by constructor. }
  apply Hgen. constructor.
Qed.

(** *** [urlsplit] and [urlparse] *)

Lemma Forall_lower (P : ascii → Prop) (s : pystr) :
  (∀ c, P c → P (lower_char c)) → Forall P s → Forall P (lower s).
Proof.
  intros Hl Hs. unfold lower. apply Forall_fmap.
  eapply Forall_impl; [exact Hs|]. exact Hl.
Qed.

(** [urlsplit], whatever the default scheme: the scheme it settles on and
    the text it goes on with are made of the characters given. *)
Lemma urlsplit_after_chars `{NetlocChecks} (x d : pystr) :
  ∃ s0 u0,
    urlsplit x d = after_scheme s0 u0
    ∧ ∀ P : ascii → Prop,
        Forall P x →
        Forall P u0
        ∧ ((∀ c, P c → P (lower_char c)) → Forall P d → Forall P s0).
Proof.
  unfold urlsplit. cbv zeta.
  set (x2 := fold_left (λ u b, remove_char b u) UNSAFE_URL_BYTES_TO_REMOVE
               (lstrip WHATWG_C0_CONTROL_OR_SPACE x)).
  set (d2 := fold_left (λ u b, remove_char b u) UNSAFE_URL_BYTES_TO_REMOVE
               (strip WHATWG_C0_CONTROL_OR_SPACE d)).
  assert (∀ P : ascii → Prop, Forall P x → Forall P x2) as Hx2.
  { intros P Hx. by apply Forall_cleaned, Forall_lstrip. }
  assert (∀ P : ascii → Prop, Forall P d → Forall P d2) as Hd2.
  { intros P Hd. by apply Forall_cleaned, Forall_strip. }
  clearbody x2 d2.
  destruct ((0 <? find ":" x2 0)
            && match x2 with
               | c :: _ => isascii c && isalpha_ascii c
               | [] => false
               end
            && forallb (λ c, contains c scheme_chars) (upto x2 (find ":" x2 0)));
    eexists _, _; (split; [reflexivity|]); intros P Hx.
  - split; [by apply Forall_from, Hx2|]. intros Hl _.
    by apply Forall_lower, Forall_upto, Hx2.
  - split; [by apply Hx2|]. intros _ Hd. by apply Hd2.
Qed.

Lemma after_scheme_chars `{NetlocChecks} (P : ascii → Prop)
    (s0 u0 s n p q f : pystr) :
  after_scheme s0 u0 = Return (s, n, p, q, f) →
  Forall P u0 →
  s = s0 ∧ Forall P n ∧ Forall P p ∧ Forall P q ∧ Forall P f.
Proof.
  intros Ha Hu0.
  apply after_scheme_pieces in Ha as (-> & r & u & Hn & Hr & _ & Hu).
  split; [done|].
  assert (Forall P n ∧ Forall P r) as [Pn Pr].
  { destruct Hn as [[-> _]|[-> ->]]; [|by split; [constructor|]].
    apply Forall_cons in Hu0 as [_ Hu0]. apply Forall_cons in Hu0 as [_ Hu0].
    by apply Forall_app in Hu0. }
  assert (Forall P u ∧ Forall P f) as [Pu Pf].
  { destruct Hr as [->|[-> ->]]; [|by split; [|constructor]].
    apply Forall_app in Pr as [Pu Pf]. by apply Forall_cons in Pf as [_ Pf]. }
  assert (Forall P p ∧ Forall P q) as [Pp Pq].
  { destruct Hu as [->|[-> ->]]; [|by split; [|constructor]].
    apply Forall_app in Pu as [Pp Pq]. by apply Forall_cons in Pq as [_ Pq]. }
  done.
Qed.

Lemma urlparse_chars `{NetlocChecks} (P : ascii → Prop) (x d : pystr)
    (c : ParseResult) :
  (∀ c, P c → P (lower_char c)) →
  urlparse x d = Return c →
  Forall P x → Forall P d →
  components P c.
Proof.
  intros Hl Hparse Hx Hd. unfold urlparse in Hparse.
  destruct (urlsplit_after_chars x d) as (s0 & u0 & Hsplit & Hchars).
  destruct (Hchars P Hx) as [Pu0 Ps0]. specialize (Ps0 Hl Hd).
  rewrite Hsplit in Hparse.
  destruct (after_scheme s0 u0) as [[[[[s n] p] q] f]|e] eqn:Ha; [|done].
  apply (after_scheme_chars P) in Ha as (-> & Pn & Pp & Pq & Pf); [|done].
  cbn [mbind result_bind] in Hparse.
  destruct (bool_decide (s0 ∈ uses_params) && contains ";" p).
  - destruct (splitparams p) as [p' pa] eqn:Hsp. injection Hparse as <-.
    apply (Forall_splitparams P) in Hsp as [? ?]; [|done].
    by repeat split.
  - injection Hparse as <-. by repeat split.
Qed.

Lemma urlunparse_chars (P : ascii → Prop) (c : ParseResult) :
  P ":"%char → P "/"%char → P "?"%char → P "#"%char → P ";"%char →
  components P c → Forall P (urlunparse c).
Proof.
  intros Pc Psl Pq Ph Psc (Hs & Hn & Hp & Hpa & Hq & Hf).
  unfold urlunparse, urlunsplit.
  repeat match goal with
         | |- context [if ?b then _ else _] => destruct b
         end;
    repeat (apply Forall_app; split); repeat (apply Forall_cons; split);
    try done; constructor.
Qed.

Lemma urljoin_chars `{NetlocChecks} (P : ascii → Prop) (base url j : pystr) :
  (∀ c, P c → P (lower_char c)) →
  P ":"%char → P "/"%char → P "?"%char → P "#"%char → P ";"%char →
  urljoin base url = Return j →
  Forall P base → Forall P url → Forall P j.
Proof.
  intros Hl Pc Psl Pq Ph Psc Hj Hb Hu. unfold urljoin in Hj.
  destruct (truthy base); cbn [negb] in Hj; [|by injection Hj as <-].
  destruct (truthy url); cbn [negb] in Hj; [|by injection Hj as <-].
  destruct (urlparse base []) as [b|e] eqn:Eb; [|done].
  cbn [mbind result_bind] in Hj.
  destruct (urlparse url (scheme b)) as [u|e] eqn:Eu; [|done].
  cbn [mbind result_bind] in Hj.
  apply (urlparse_chars P) in Eb as Cb; [|done..|constructor].
  pose proof Cb as (Bs & Bn & Bp & Bpa & Bq & Bf).
  apply (urlparse_chars P) in Eu as Cu; [|done..].
  pose proof Cu as (Us & Un & Up & Upa & Uq & Uf).
  destruct (negb (bool_decide (scheme u = scheme b))
            || negb (bool_decide (scheme u ∈ uses_relative)));
    [by injection Hj as <-|].
  destruct (bool_decide (scheme u ∈ uses_netloc) && truthy (netloc u)).
  { injection Hj as <-. by apply urlunparse_chars. }
  assert (Forall P (if bool_decide (scheme u ∈ uses_netloc)
                    then netloc b else netloc u)) as Hn'.
  { by destruct (bool_decide (scheme u ∈ uses_netloc)). }
  destruct (negb (truthy (path u)) && negb (truthy (params u))).
  { injection Hj as <-. apply urlunparse_chars; try done.
    repeat split; try done. by destruct (negb (truthy (query u))). }
  injection Hj as <-. apply urlunparse_chars; try done.
  repeat split; try done. cbn [path].
  match goal with
  | |- Forall P (if truthy ?joined then _ else _) =>
      assert (Forall P joined) as Hjoined; [|destruct (truthy joined);
                                              [done|by repeat constructor]]
  end.
  apply Forall_join; [done|].
  match goal with
  | |- Forall _ (if _ then resolve ?segs ++ _ else _) =>
      assert (Forall (Forall P) segs) as Hsegs
  end.
  { assert (Forall (Forall P) (split "/" (path u))) as Hsu
      by (by apply Forall_split).
    match goal with
    | |- Forall _ (if ?c then _ else _) => destruct c; [done|]
    end.
    apply Forall_filter_middle; [constructor|].
    apply Forall_app. split; [|done].
    assert (Forall (Forall P) (split "/" (path b))) as Hsb
      by (by apply Forall_split).
    match goal with
    | |- Forall _ (if ?c then _ else _) =>
        destruct c; [by apply Forall_removelast|done]
    end. }
  apply Forall_resolve in Hsegs.
  match goal with
  | |- Forall _ (if ?b then _ else _) => destruct b; [|done]
  end.
  apply Forall_app. split; [done|]. by repeat constructor.
Qed.

End CharProps.

(** * URLs of ASCII characters without square brackets *)
Module TameProps.
Import Py PyProps Urllib UrllibSpec UrllibProps Crawler CrawlerSpec.
Import LoopSpec LinkSpec CharSpec WorldSpec CharProps ExtractProps.
Import CrawlerProps LoopProps Examples Worlds.

Lemma ascii_all (P : ascii → Prop) :
  Forall P (ascii_of_nat <$> seq 0 256) → ∀ c, P c.
Proof.
  intros Hall c. apply (proj1 (Forall_forall _ _) Hall).
  rewrite <- (ascii_nat_embedding c). apply list_elem_of_fmap_2.
  apply elem_of_seq. pose proof (nat_ascii_bounded c). lia.
Qed.

Lemma tame_lower (c : ascii) : tame c → tame (lower_char c).
Proof.
  revert c. apply (ascii_all (λ c, tame c → tame (lower_char c))).
  apply (bool_decide_unpack _). by vm_compute.
Qed.

Lemma tame_delimiters :
  tame ":"%char ∧ tame "/"%char ∧ tame "?"%char ∧ tame "#"%char
  ∧ tame ";"%char.
Proof. repeat split; discriminate. Qed.

Lemma tame_netloc `{NetlocChecks} (n : pystr) :
  Forall tame n →
  contains "[" n = false ∧ contains "]" n = false ∧ checknetloc n = true.
Proof.
  intros Hn.
  assert (∀ c, c ∈ n → tame c) as Hc by (by apply Forall_forall).
  split; [|split].
  - apply contains_false. intros Hin. by destruct (Hc _ Hin) as (_ & ? & _).
  - apply contains_false. intros Hin. by destruct (Hc _ Hin) as (_ & _ & ?).
  - unfold checknetloc.
    assert (forallb isascii n = true) as ->.
    { apply forallb_forall. intros c Hin.
      by destruct (Hc c (proj2 (list_elem_of_In _ _) Hin)) as [? _]. }
    by destruct (truthy n).
Qed.

Lemma after_scheme_returns `{NetlocChecks} (s0 u0 : pystr) :
  Forall tame u0 → ∃ r, after_scheme s0 u0 = Return r.
Proof.
  intros Hu. unfold after_scheme. case_bool_decide.
  - destruct (splitnetloc u0 2) as [n r] eqn:Hn.
    apply (Forall_splitnetloc tame) in Hn as [Hn _]; [|done].
    destruct (tame_netloc n Hn) as (-> & -> & Hck).
    cbn [andb orb negb mbind result_bind].
    destruct (contains "#" r); destruct (split1 "#" r);
      destruct (contains "?" _); try destruct (split1 "?" _);
      rewrite Hck; by eexists.
  - cbn [mbind result_bind].
    assert (checknetloc [] = true) as Hck by done.
    destruct (contains "#" u0); destruct (split1 "#" u0);
      destruct (contains "?" _); try destruct (split1 "?" _);
      rewrite Hck; by eexists.
Qed.

Lemma urlparse_returns `{NetlocChecks} (x d : pystr) :
  Forall tame x → ∃ c, urlparse x d = Return c.
Proof.
  intros Hx. unfold urlparse.
  destruct (urlsplit_after_chars x d) as (s0 & u0 & -> & Hchars).
  destruct (Hchars tame Hx) as [Hu0 _].
  destruct (after_scheme_returns s0 u0 Hu0) as ([[[[s n] p] q] f] & ->).
  cbn [mbind result_bind].
  destruct (bool_decide (s ∈ uses_params) && contains ";" p);
    [destruct (splitparams p)|]; by eexists.
Qed.

Lemma urljoin_returns `{NetlocChecks} (base url : pystr) :
  Forall tame base → Forall tame url → ∃ j, urljoin base url = Return j.
Proof.
  intros Hb Hu. unfold urljoin.
  destruct (truthy base); cbn [negb]; [|by eexists].
  destruct (truthy url); cbn [negb]; [|by eexists].
  destruct (urlparse_returns base [] Hb) as [b ->]. cbn [mbind result_bind].
  destruct (urlparse_returns url (scheme b) Hu) as [u ->].
  cbn [mbind result_bind]. cbv zeta.
  repeat match goal with
         | |- ∃ _, (if ?c then _ else _) = _ => destruct c
         end; by eexists.
Qed.

(** Lines 77-83 on a tame base and a tame link: the absolute link is
    there, and it is tame. *)
Lemma abs_link_tame `{NetlocChecks} (base link : pystr) :
  Forall tame base → Forall tame link →
  ∃ l, abs_link base link = Return l ∧ Forall tame l.
Proof.
  intros Hb Hl. unfold abs_link, defragmented.
  destruct tame_delimiters as (Tc & Tsl & Tq & Th & Tsc).
  destruct (urljoin_returns base link Hb Hl) as [j Hj]. rewrite Hj.
  cbn [mbind result_bind].
  apply (urljoin_chars tame) in Hj; [|apply tame_lower|done..].
  destruct (urlparse_returns j [] Hj) as [c Hc]. rewrite Hc.
  cbn [mbind result_bind]. eexists. split; [done|].
  apply (urlparse_chars tame) in Hc; [|apply tame_lower|done|constructor].
  destruct Hc as (Cs & Cn & Cp & Cpa & Cq & Cf).
  apply Forall_rstrip. unfold geturl. by apply urlunparse_chars.
Qed.

Lemma get_domain_tame `{NetlocChecks} (url : pystr) :
  Forall tame url → ∃ d, get_domain url = Return d.
Proof.
  intros Hu. unfold get_domain.
  destruct (urlparse_returns url [] Hu) as [c ->]. by eexists.
Qed.

Lemma scan_links_tame `{NetlocChecks} (base : pystr) (raws : list pystr)
    (found : gset pystr) :
  Forall tame base → Forall (Forall tame) raws →
  (∀ l, l ∈ found → Forall tame l) →
  ∃ found', scan_links base raws found = Return found'
            ∧ ∀ l, l ∈ found' → Forall tame l.
Proof.
  intros Hb Hraws. revert found.
  induction Hraws as [|link rest Hlink _ IH]; intros found Hfound.
  { by exists found. }
  cbn [scan_links].
  destruct (negb (truthy (strip_ws link))); [by apply IH|].
  destruct (non_navigational (strip_ws link)); [by apply IH|].
  destruct (abs_link_tame base (strip_ws link)) as (a & -> & Ha);
    [done|by apply Forall_strip|].
  cbn [mbind result_bind]. destruct (accepted a); [|by apply IH].
  apply IH. intros l Hin. apply elem_of_union in Hin as [Hin|Hin]; [|by apply Hfound].
  by apply elem_of_singleton in Hin as ->.
Qed.

Lemma extract_links_tame `{NetlocChecks} (order : gset pystr → list pystr)
    (html base : pystr) :
  Forall tame base → Forall (Forall tame) (Re.findall_href html) →
  ∃ links, extract_links order html base = Return links
           ∧ ((∀ X, order X ≡ₚ elements X) → Forall (Forall tame) links).
Proof.
  intros Hb Hraws. unfold extract_links.
  destruct (scan_links_tame base (Re.findall_href html) ∅ Hb Hraws)
    as (found & -> & Hfound).
  { intros l Hin. by apply elem_of_empty in Hin. }
  cbn [mbind result_bind]. eexists. split; [done|].
  intros Horder. apply Forall_forall. intros l Hin. apply Hfound.
  rewrite (Horder found) in Hin. by apply elem_of_elements.
Qed.

Lemma enqueue_tame `{NetlocChecks} (sd : pystr) (links : list pystr)
    (vs : gset pystr) (q : list pystr) :
  Forall (Forall tame) links →
  ∃ q', enqueue sd links vs q = (q', None).
Proof.
  intros Hlinks. revert q. induction Hlinks as [|l links Hl _ IH]; intros q.
  { by exists q. }
  cbn [enqueue]. destruct (get_domain_tame l Hl) as [d ->].
  destruct (bool_decide (d ≠ sd)); [apply IH|].
  destruct (bool_decide (l ∉ vs) && bool_decide (l ∉ q)); apply IH.
Qed.

Lemma fetch_page_ok_inv (w : World) (t : nat) (url : pystr) (timeout : Z)
    (html status : pystr) :
  fetch_page w t url timeout = Return (Some html, status) →
  ∃ resp, requests_get w t url timeout user_agent = Return resp
          ∧ status_code resp = 200 ∧ text resp = html.
Proof.
  unfold fetch_page.
  destruct (requests_get w t url timeout user_agent) as [resp|[]]; try done.
  destruct (Z.eqb_spec (status_code resp) 200) as [Hc|Hc].
  - intros [= <- _]. by exists resp.
  - by destruct ((500 <=? status_code resp) && (status_code resp <? 600)).
Qed.

Section Tame.
Context `{NetlocChecks} (cfg : Config) (w : World) (sd : pystr).
Context (Hlists : lists_sets w) (Hpages : tame_pages w).
Context (Hseed : Forall tame (seed_url cfg)).

(** The links of a page fetched from a tame URL parse, and so do their
    domains in the enqueue loop. *)
Lemma tame_page_parses (t : nat) (url html : pystr) (vs : gset pystr)
    (rest : list pystr) :
  Forall tame url →
  fetch_page w t url 5 = Return (Some html, "ok" : pystr) →
  ∃ links q,
    extract_links (list_of_set w t) html url = Return links
    ∧ Forall (Forall tame) links
    ∧ enqueue sd links vs rest = (q, None).
Proof.
  intros Hurl Hfetch.
  apply fetch_page_ok_inv in Hfetch as (resp & Hget & Hcode & <-).
  destruct (extract_links_tame (list_of_set w t) (text resp) url)
    as (links & Hl & Ht); [done|by eapply Hpages|].
  specialize (Ht (Hlists t)).
  destruct (enqueue_tame sd links vs rest Ht) as [q Hq].
  by exists links, q.
Qed.

Lemma tame_iteration st o :
  Forall (Forall tame) (queue st) →
  iteration cfg w sd st o →
  Forall (Forall tame) (queue (state_of o)).
Proof.
  intros Hq Hit.
  iteration_cases Hit; rewrite Eq in Hq; apply Forall_cons in Hq as [Hurl Hq];
    try done.
  - destruct (tame_page_parses (now st) url html ({[url]} ∪ visited_set st)
                rest Hurl Hf) as (links' & q' & Hl & Ht & _).
    assert (links' = links) as -> by congruence.
    destruct (enqueue_spec _ _ _ _ _ _ Hen) as (added & -> & _ & Hadd).
    apply Forall_app. split; [done|]. apply Forall_forall. intros u Hu.
    destruct (Hadd u Hu) as [_ Hin].
    by apply (proj1 (Forall_forall _ _) Ht).
  - destruct (tame_page_parses (now st) url html ({[url]} ∪ visited_set st)
                rest Hurl Hf) as (links' & q' & Hl & Ht & _).
    assert (links' = links) as -> by congruence.
    destruct (enqueue_spec _ _ _ _ _ _ Hen) as (added & -> & _ & Hadd).
    apply Forall_app. split; [done|]. apply Forall_forall. intros u Hu.
    destruct (Hadd u Hu) as [_ Hin].
    by apply (proj1 (Forall_forall _ _) Ht).
  - apply Forall_app. split; [done|]. by constructor.
Qed.

Lemma tame_queue st :
  reachable cfg w sd st → Forall (Forall tame) (queue st).
Proof.
  revert st. apply reachable_ind.
  - constructor; [|constructor]. by apply Forall_rstrip.
  - intros st o _ Hq _ Hit. by apply (tame_iteration st o).
Qed.

End Tame.

Lemma relink_world_tame : tame_pages relink_world.
Proof.
  intros t url resp. simpl.
  repeat case_bool_decide; intros [= <-] _; apply (bool_decide_unpack _);
    by vm_compute.
Qed.

(** X11: URL parsing never stops a crawl over tame pages.  When sets are
    listed element by element and the seed URL and the [href]s of the
    pages answered with status 200 are made of ASCII characters other than
    square brackets, then in every state the loop passes through every
    queued URL is made of such characters, and for the page fetched for
    the URL at the head of the queue [extract_links] returns, its links
    are made of such characters, and [get_domain] returns for every link
    in the enqueue loop: none of them raises [ValueError]. *)
Theorem tame_crawl_parses `{NetlocChecks} (cfg : Config) (w : World)
    (sd : pystr) (st : State) :
  lists_sets w →
  tame_pages w →
  Forall tame (seed_url cfg) →
  reachable cfg w sd st →
  Forall (Forall tame) (queue st)
  ∧ ∀ url rest html,
      queue st = url :: rest →
      fetch_page w (now st) url 5 = Return (Some html, "ok" : pystr) →
      ∃ links q,
        extract_links (list_of_set w (now st)) html url = Return links
        ∧ Forall (Forall tame) links
        ∧ enqueue sd links ({[url]} ∪ visited_set st) rest = (q, None).
Proof.
  intros Hlists Hpages Hseed Hr.
  pose proof (tame_queue cfg w sd Hlists Hpages Hseed st Hr) as Hq.
  split; [done|]. intros url rest html Eq Hfetch.
  rewrite Eq in Hq. apply Forall_cons in Hq as [Hurl _].
  by apply (tame_page_parses w sd Hlists Hpages).
Qed.

Lemma tame_crawl_parses_witness :
  Forall (Forall tame) (queue (initial relink_cfg))
  ∧ ∀ url rest html,
      queue (initial relink_cfg) = url :: rest →
      fetch_page relink_world (now (initial relink_cfg)) url 5
      = Return (Some html, "ok" : pystr) →
      ∃ links q,
        extract_links (list_of_set relink_world (now (initial relink_cfg)))
          html url = Return links
        ∧ Forall (Forall tame) links
        ∧ enqueue "s.example" links
            ({[url]} ∪ visited_set (initial relink_cfg)) rest = (q, None).
Proof.
  apply (tame_crawl_parses relink_cfg relink_world "s.example"
           (initial relink_cfg)).
  - exact relink_world_lists.
  - exact relink_world_tame.
  - apply (bool_decide_unpack _). vm_compute. exact I.
  - exists (initial relink_cfg). split; [apply rtc_refl|by left].
Defined.

(** *** Square brackets *)

Lemma after_scheme_raise `{NetlocChecks} (s0 u0 : pystr) (e : exn) :
  after_scheme s0 u0 = Raise e → e = ValueError.
Proof.
  unfold after_scheme.
  destruct (bool_decide (upto u0 2 = "//")).
  - destruct (splitnetloc u0 2) as [n r].
    destruct ((contains "[" n && negb (contains "]" n))
              || (contains "]" n && negb (contains "[" n)));
      [by intros [= <-]|].
    destruct (contains "[" n && contains "]" n
              && negb (check_bracketed_netloc n)); [by intros [= <-]|].
    cbn [mbind result_bind].
    destruct (contains "#" r); destruct (split1 "#" r);
      destruct (contains "?" _); try destruct (split1 "?" _);
      destruct (checknetloc n); try done; by intros [= <-].
  - cbn [mbind result_bind].
    destruct (contains "#" u0); destruct (split1 "#" u0);
      destruct (contains "?" _); try destruct (split1 "?" _);
      destruct (checknetloc []); try done; by intros [= <-].
Qed.

Lemma urlparse_raise `{NetlocChecks} (x d : pystr) (e : exn) :
  urlparse x d = Raise e → e = ValueError.
Proof.
  unfold urlparse.
  destruct (urlsplit_after_chars x d) as (s0 & u0 & -> & _).
  destruct (after_scheme s0 u0) as [[[[[s n] p] q] f]|e'] eqn:Ha.
  - cbn [mbind result_bind].
    by destruct (bool_decide (s ∈ uses_params) && contains ";" p);
      [destruct (splitparams p)|].
  - intros [= <-]. by apply after_scheme_raise in Ha.
Qed.

Lemma urljoin_raise `{NetlocChecks} (base url : pystr) (e : exn) :
  urljoin base url = Raise e → e = ValueError.
Proof.
  unfold urljoin.
  destruct (truthy base); cbn [negb]; [|done].
  destruct (truthy url); cbn [negb]; [|done].
  destruct (urlparse base []) as [b|e'] eqn:Eb;
    [|intros [= <-]; by apply urlparse_raise in Eb].
  cbn [mbind result_bind].
  destruct (urlparse url (scheme b)) as [u|e'] eqn:Eu;
    [|intros [= <-]; by apply urlparse_raise in Eu].
  cbn [mbind result_bind]. cbv zeta.
  repeat match goal with
         | |- (if ?c then _ else _) = _ → _ => destruct c
         end; done.
Qed.

Lemma abs_link_raise `{NetlocChecks} (base link : pystr) (e : exn) :
  abs_link base link = Raise e → e = ValueError.
Proof.
  unfold abs_link, defragmented.
  destruct (urljoin base link) as [j|e'] eqn:Ej;
    [|intros [= <-]; by apply urljoin_raise in Ej].
  cbn [mbind result_bind].
  destruct (urlparse j []) as [c|e'] eqn:Ec;
    [done|intros [= <-]; by apply urlparse_raise in Ec].
Qed.

Lemma cleaned_app (a b : pystr) :
  fold_left (λ u c, remove_char c u) UNSAFE_URL_BYTES_TO_REMOVE (a ++ b)
  = fold_left (λ u c, remove_char c u) UNSAFE_URL_BYTES_TO_REMOVE a
    ++ fold_left (λ u c, remove_char c u) UNSAFE_URL_BYTES_TO_REMOVE b.
Proof.
  unfold UNSAFE_URL_BYTES_TO_REMOVE, remove_char. cbn [fold_left].
  by rewrite !filter_app.
Qed.

(** [urlsplit] sees its argument only through the cleaning it starts
    with. *)
Lemma urlsplit_cleaned `{NetlocChecks} (x d : pystr) :
  urlsplit x d
  = urlsplit (fold_left (λ u c, remove_char c u) UNSAFE_URL_BYTES_TO_REMOVE
                (lstrip WHATWG_C0_CONTROL_OR_SPACE x)) d.
Proof.
  set (y := fold_left (λ u c, remove_char c u) UNSAFE_URL_BYTES_TO_REMOVE
              (lstrip WHATWG_C0_CONTROL_OR_SPACE x)).
  assert (lstrip WHATWG_C0_CONTROL_OR_SPACE y = y) as Hl.
  { apply lstrip_fixed. intros c Hhd.
    destruct (lstrip_spec WHATWG_C0_CONTROL_OR_SPACE x) as (_ & _ & _ & Hh).
    destruct (lstrip WHATWG_C0_CONTROL_OR_SPACE x) as [|c0 r] eqn:Hx;
      [done|].
    specialize (Hh c0 eq_refl).
    assert (c0 ∉ UNSAFE_URL_BYTES_TO_REMOVE) as Hs.
    { intros Hin. apply Hh. revert Hin.
      assert (Forall (λ c, c ∈ WHATWG_C0_CONTROL_OR_SPACE)
                UNSAFE_URL_BYTES_TO_REMOVE) as Hsub
        by (apply (bool_decide_unpack _); by vm_compute).
      apply (proj1 (Forall_forall _ _) Hsub). }
    unfold y in Hhd. change (c0 :: r) with ([c0] ++ r) in Hhd.
    rewrite cleaned_app, (unsafe_free [c0]) in Hhd by (by constructor).
    by injection Hhd as <-. }
  assert (fold_left (λ u c, remove_char c u) UNSAFE_URL_BYTES_TO_REMOVE y = y)
    as Hc by apply unsafe_free, cleaned_safe.
  unfold urlsplit at 2. cbv zeta. rewrite Hl, Hc. reflexivity.
Qed.

Lemma urlsplit_unclosed `{NetlocChecks} (sch t : pystr) :
  "]"%char ∉ t →
  after_scheme sch ("/"%char :: "/"%char :: "["%char :: t) = Raise ValueError.
Proof.
  intros Ht. unfold after_scheme.
  rewrite bool_decide_eq_true_2
    by (unfold upto; by rewrite clip_nonneg by (simpl; lia)).
  destruct (splitnetloc ("/"%char :: "/"%char :: "["%char :: t) 2)
    as [n r] eqn:Hn.
  apply splitnetloc_spec in Hn as (Heq & _ & _ & _ & Hr).
  destruct n as [|c n].
  { simpl in Heq. subst r. destruct Hr as [|(d & r' & [= <- _] & Hd)]; [done|].
    exfalso. revert Hd. apply (bool_decide_unpack _). by vm_compute. }
  injection Heq as <- ->.
  assert (contains "[" ("["%char :: n) = true) as ->
    by (apply contains_true; by left).
  assert (contains "]" ("["%char :: n) = false) as ->.
  { apply contains_false. intros Hin. apply elem_of_cons in Hin as [|Hin];
      [done|]. apply Ht, elem_of_app. by left. }
  done.
Qed.

Lemma urlsplit_http_unclosed `{NetlocChecks} (t d : pystr) :
  "]"%char ∉ t →
  urlsplit ("http://[" ++ t) d = Raise ValueError
  ∧ urlsplit ("https://[" ++ t) d = Raise ValueError.
Proof.
  intros Ht.
  set (t' := fold_left (λ u c, remove_char c u) UNSAFE_URL_BYTES_TO_REMOVE t).
  assert ("]"%char ∉ t') as Ht'.
  { intros Hin. apply Ht. revert Hin. unfold t'.
    assert (∀ P : ascii → Prop, Forall P t → Forall P
              (fold_left (λ u c, remove_char c u)
                 UNSAFE_URL_BYTES_TO_REMOVE t)) as Hcl
      by (intros P; apply Forall_cleaned).
    intros Hin.
    destruct (decide ("]"%char ∈ t)) as [|Hn]; [done|]. exfalso.
    assert (Forall (λ c, c ≠ "]"%char) t) as Hall.
    { apply Forall_forall. by intros c Hc ->. }
    apply Hcl in Hall. by apply (proj1 (Forall_forall _ _) Hall _ Hin). }
  assert (Forall (λ c, c ∉ UNSAFE_URL_BYTES_TO_REMOVE) ("["%char :: t'))
    as Hsafe.
  { constructor; [|apply cleaned_safe].
    apply (bool_decide_unpack _). by vm_compute. }
  split.
  - rewrite urlsplit_cleaned.
    rewrite lstrip_fixed
      by (simpl; intros c [= <-]; apply contains_false; by vm_compute).
    rewrite cleaned_app, (unsafe_free "http://[")
      by (apply (bool_decide_unpack _); by vm_compute).
    change (urlsplit (("http://" : pystr) ++ "["%char :: t') d
            = Raise ValueError).
    rewrite urlsplit_http by done. by apply urlsplit_unclosed.
  - rewrite urlsplit_cleaned.
    rewrite lstrip_fixed
      by (simpl; intros c [= <-]; apply contains_false; by vm_compute).
    rewrite cleaned_app, (unsafe_free "https://[")
      by (apply (bool_decide_unpack _); by vm_compute).
    change (urlsplit (("https://" : pystr) ++ "["%char :: t') d
            = Raise ValueError).
    rewrite urlsplit_https by done. by apply urlsplit_unclosed.
Qed.

Lemma defragmented_unparsable `{NetlocChecks} (base url : pystr) :
  url ≠ [] → (∀ d, urlparse url d = Raise ValueError) →
  abs_link base url = Raise ValueError.
Proof.
  intros Hne Hu. unfold abs_link, defragmented, urljoin.
  destruct (truthy base); cbn [negb mbind result_bind];
    [|by rewrite (Hu [])].
  rewrite (proj2 (truthy_true url) Hne). cbn [negb].
  destruct (urlparse base []) as [b|e] eqn:Eb; cbn [mbind result_bind].
  - by rewrite (Hu (scheme b)).
  - by apply urlparse_raise in Eb as ->.
Qed.

Lemma urlparse_unclosed `{NetlocChecks} (t d : pystr) :
  "]"%char ∉ t →
  urlparse ("http://[" ++ t) d = Raise ValueError
  ∧ urlparse ("https://[" ++ t) d = Raise ValueError.
Proof.
  intros Ht. unfold urlparse.
  by rewrite (proj1 (urlsplit_http_unclosed t d Ht)),
    (proj2 (urlsplit_http_unclosed t d Ht)).
Qed.

(** X12: an absolute link with an opening square bracket at the start of
    its host and no closing one, such as http://[::1, cannot be parsed:
    lines 77-83 of [extract_links] raise [ValueError] for it against any
    base, and so does [get_domain]. *)
Theorem unclosed_bracket_raises `{NetlocChecks} (base t : pystr) :
  "]"%char ∉ t →
  abs_link base ("http://[" ++ t) = Raise ValueError
  ∧ abs_link base ("https://[" ++ t) = Raise ValueError
  ∧ get_domain ("http://[" ++ t) = Raise ValueError
  ∧ get_domain ("https://[" ++ t) = Raise ValueError.
Proof.
  intros Ht.
  split; [apply defragmented_unparsable;
          [done|intros d; apply (urlparse_unclosed t d Ht)]|].
  split; [apply defragmented_unparsable;
          [done|intros d; apply (urlparse_unclosed t d Ht)]|].
  unfold get_domain.
  by rewrite (proj1 (urlparse_unclosed t [] Ht)),
    (proj2 (urlparse_unclosed t [] Ht)).
Qed.

Lemma unclosed_bracket_raises_witness :
  abs_link seed_page_url "http://[::1/admin" = Raise ValueError
  ∧ abs_link seed_page_url "https://[::1/admin" = Raise ValueError
  ∧ get_domain "http://[::1/admin" = Raise ValueError
  ∧ get_domain "https://[::1/admin" = Raise ValueError.
Proof.
  apply (unclosed_bracket_raises seed_page_url "::1/admin").
  apply (bool_decide_unpack _). vm_compute. exact I.
Defined.

Lemma scan_links_raises `{NetlocChecks} (base : pystr) (raws : list pystr)
    (found : gset pystr) (raw : pystr) :
  raw ∈ raws →
  strip_ws raw ≠ [] →
  non_navigational (strip_ws raw) = false →
  abs_link base (strip_ws raw) = Raise ValueError →
  scan_links base raws found = Raise ValueError.
Proof.
  intros Hin Hne Hnav Habs. revert found Hin.
  induction raws as [|link rest IH]; intros found Hin.
  { by apply elem_of_nil in Hin. }
  cbn [scan_links]. destruct (decide (link = raw)) as [->|Hd].
  { by rewrite (proj2 (truthy_true _) Hne), Hnav, Habs. }
  assert (raw ∈ rest) as Hin'.
  { apply elem_of_cons in Hin as [|]; [by subst|done]. }
  destruct (negb (truthy (strip_ws link))); [by apply IH|].
  destruct (non_navigational (strip_ws link)); [by apply IH|].
  destruct (abs_link base (strip_ws link)) as [a|e] eqn:Ha.
  - cbn [mbind result_bind]. destruct (accepted a); by apply IH.
  - by apply abs_link_raise in Ha as ->.
Qed.

(** X13: one malformed link stops the crawl.  When a page that was
    fetched and written has an [href] whose text, stripped, is "http://["
    followed by a text with no closing bracket, the iteration is left by
    [ValueError] after the page has been counted as visited and before any
    of its links is queued, and the script ends with that exception:
    nothing is printed after the line for the saved page, and no summary
    at all. *)
Theorem malformed_link_aborts `{NetlocChecks} (cfg : Config) (w : World)
    (sd : pystr) (n : nat) (st : State) (url : pystr) (rest : list pystr)
    (html raw t : pystr) :
  makedirs w = Return tt →
  get_domain (seed_url cfg) = Return sd →
  state_at cfg w sd n (initial cfg) = Some st →
  loop_cond cfg st = true →
  queue st = url :: rest →
  fetch_page w (now st) url 5 = Return (Some html, "ok" : pystr) →
  open_write w (now st) (PageFile (page_id st)) html = Return tt →
  raw ∈ Re.findall_href html →
  strip_ws raw = "http://[" ++ t →
  "]"%char ∉ t →
  loop_body cfg w sd st = Raised ValueError (saved st url rest)
  ∧ (∀ fuel, (n < fuel)%nat →
       main cfg w fuel = Some (Raised ValueError (saved st url rest)))
  ∧ (∀ ev, ev ∈ stdout (saved st url rest) → is_summary ev = false).
Proof.
  intros Hmk Hsd Hat Hc Hq Hfetch Hwrite Hraw Hstrip Ht.
  pose proof (steps_inv _ _ _ _ (state_at_rtc _ _ _ _ _ _ Hat))
    as [_ Hdis _ _ _ _ _ _ Hns].
  assert (url ∉ visited_set st) as Hv.
  { apply Hdis. rewrite Hq. by left. }
  assert (extract_links (list_of_set w (now st)) html url = Raise ValueError)
    as Hex.
  { unfold extract_links.
    rewrite (scan_links_raises url (Re.findall_href html) ∅ raw); try done.
    - rewrite Hstrip. discriminate.
    - rewrite Hstrip. by vm_compute.
    - rewrite Hstrip. apply defragmented_unparsable; [done|].
      intros d. apply (urlparse_unclosed t d Ht). }
  assert (loop_body cfg w sd st = Raised ValueError (saved st url rest))
    as Hbody.
  { unfold loop_body. rewrite Hq.
    cbn [visited_set visited queue retries failed page_id now stdout].
    rewrite (bool_decide_eq_false_2 _ Hv), Hfetch.
    rewrite bool_decide_eq_true_2 by done. by rewrite Hwrite, Hex. }
  split; [done|]. split.
  - intros fuel Hfuel. unfold main. rewrite Hmk, Hsd.
    replace fuel with (n + S (fuel - S n))%nat by lia.
    rewrite (state_at_crawl_loop _ _ _ _ _ _ _ Hat). simpl.
    by rewrite Hc, Hbody.
  - cbn [saved stdout]. intros ev Hev.
    apply elem_of_app in Hev as [Hev|Hev]; [by apply Hns|].
    by apply list_elem_of_singleton in Hev as ->.
Qed.

Lemma malformed_link_aborts_witness :
  loop_body relink_cfg broken_link_world "s.example" (initial relink_cfg)
  = Raised ValueError (saved (initial relink_cfg) s_url [])
  ∧ (∀ fuel, (0 < fuel)%nat →
       main relink_cfg broken_link_world fuel
       = Some (Raised ValueError (saved (initial relink_cfg) s_url [])))
  ∧ (∀ ev, ev ∈ stdout (saved (initial relink_cfg) s_url []) →
           is_summary ev = false).
Proof.
  apply (malformed_link_aborts relink_cfg broken_link_world "s.example" 0
           (initial relink_cfg) s_url []
           (anchor "/a" ++ anchor " http://[::1 ") " http://[::1 " "::1").
  - reflexivity.
  - vm_compute. reflexivity.
  - reflexivity.
  - reflexivity.
  - vm_compute. reflexivity.
  - reflexivity.
  - reflexivity.
  - apply (bool_decide_unpack _). vm_compute. exact I.
  - vm_compute. reflexivity.
  - apply (bool_decide_unpack _). vm_compute. exact I.
Defined.

(** X15: a page whose [href]s are tame, found at a tame URL, gives no
    trouble: [extract_links] returns, every link it returns is tame, and
    [get_domain] returns for each of them. *)
Theorem tame_links_parse `{NetlocChecks} (order : gset pystr → list pystr)
    (html base : pystr) :
  (∀ X, order X ≡ₚ elements X) →
  Forall tame base →
  Forall (Forall tame) (Re.findall_href html) →
  ∃ links,
    extract_links order html base = Return links
    ∧ Forall (Forall tame) links
    ∧ ∀ l, l ∈ links → ∃ d, get_domain l = Return d.
Proof.
  intros Horder Hb Hraws.
  destruct (extract_links_tame order html base Hb Hraws) as (links & Hl & Ht).
  exists links. split; [done|]. specialize (Ht Horder). split; [done|].
  intros l Hin. apply get_domain_tame.
  by apply (proj1 (Forall_forall _ _) Ht).
Qed.

Lemma tame_links_parse_witness :
  ∃ links,
    extract_links elements four_links_page seed_page_url = Return links
    ∧ Forall (Forall tame) links
    ∧ ∀ l, l ∈ links → ∃ d, get_domain l = Return d.
Proof.
  apply (tame_links_parse elements four_links_page seed_page_url).
  - intros X. reflexivity.
  - apply (bool_decide_unpack _). vm_compute. exact I.
  - apply (bool_decide_unpack _). vm_compute. exact I.
Defined.

End TameProps.

(** * [get_domain] *)
Module DomainProps.
Import Py PyProps Urllib UrllibSpec UrllibProps Crawler.
Import CharSpec DomainSpec CharProps TameProps Examples.

(** A text is cut into host and rest in one way only. *)
Lemma host_rest_unique (a a' b b' : pystr) :
  a ++ b = a' ++ b' →
  Forall (λ c, c ∉ ["/"; "?"; "#"]%char) a →
  Forall (λ c, c ∉ ["/"; "?"; "#"]%char) a' →
  after_host b → after_host b' →
  a = a' ∧ b = b'.
Proof.
  intros Heq Ha. revert a' Heq.
  induction Ha as [|x a Hx _ IH]; intros a' Heq Ha' Hb Hb'.
  - destruct a' as [|y a']; [done|]. simpl in Heq. subst b.
    apply Forall_cons in Ha' as [Hy _]. by destruct (Hy Hb).
  - destruct a' as [|y a'].
    + simpl in Heq. subst b'. by destruct (Hx Hb').
    + injection Heq as <- Heq. apply Forall_cons in Ha' as [_ Ha'].
      destruct (IH a' Heq Ha' Hb Hb') as [-> ->]. done.
Qed.

Lemma after_scheme_host `{NetlocChecks} (sch host rest : pystr) :
  Forall hostchar host → after_host rest →
  ∃ p q f,
    after_scheme sch ("/"%char :: "/"%char :: host ++ rest)
    = Return (sch, host, p, q, f).
Proof.
  intros Hh Hr. unfold after_scheme.
  rewrite bool_decide_eq_true_2
    by (unfold upto; by rewrite clip_nonneg by (simpl; lia)).
  destruct (splitnetloc ("/"%char :: "/"%char :: host ++ rest) 2)
    as [n r] eqn:Hn.
  apply splitnetloc_spec in Hn as (Heq & N1 & N2 & N3 & Hr').
  destruct (host_rest_unique host n rest r Heq) as [<- <-].
  { eapply Forall_impl; [exact Hh|]. by intros c (_ & ? & _). }
  { apply Forall_forall. intros c Hc Hd.
    apply elem_of_cons in Hd as [->|Hd]; [done|].
    apply elem_of_cons in Hd as [->|Hd]; [done|].
    by apply list_elem_of_singleton in Hd as ->. }
  { done. }
  { by destruct Hr' as [->|(d & r' & -> & Hd)]. }
  assert (Forall tame host) as Ht.
  { eapply Forall_impl; [exact Hh|]. by intros c [? _]. }
  destruct (tame_netloc host Ht) as (-> & -> & Hck).
  cbn [andb orb negb mbind result_bind].
  destruct (contains "#" rest); destruct (split1 "#" rest);
    destruct (contains "?" _); try destruct (split1 "?" _);
    rewrite Hck; by eexists _, _, _.
Qed.

Lemma urlparse_netloc `{NetlocChecks} (x d s n p q f : pystr) :
  urlsplit x d = Return (s, n, p, q, f) →
  ∃ c, urlparse x d = Return c ∧ netloc c = n.
Proof.
  intros Hs. unfold urlparse. rewrite Hs. cbn [mbind result_bind].
  destruct (bool_decide (s ∈ uses_params) && contains ";" p);
    [destruct (splitparams p)|]; by eexists.
Qed.

Lemma cleaned_host_rest (pre host rest : pystr) :
  Forall (λ c, c ∉ UNSAFE_URL_BYTES_TO_REMOVE) pre →
  Forall hostchar host → after_host rest →
  ∃ rest',
    fold_left (λ u c, remove_char c u) UNSAFE_URL_BYTES_TO_REMOVE
      (pre ++ host ++ rest) = pre ++ host ++ rest'
    ∧ after_host rest'
    ∧ Forall (λ c, c ∉ UNSAFE_URL_BYTES_TO_REMOVE) (host ++ rest').
Proof.
  intros Hp Hh Hr.
  assert (Forall (λ c, c ∉ UNSAFE_URL_BYTES_TO_REMOVE) host) as Hs.
  { eapply Forall_impl; [exact Hh|]. by intros c (_ & _ & ?). }
  exists (fold_left (λ u c, remove_char c u) UNSAFE_URL_BYTES_TO_REMOVE rest).
  split; [|split].
  - by rewrite !cleaned_app, (unsafe_free pre), (unsafe_free host).
  - destruct rest as [|d r]; [done|]. simpl in Hr.
    change (d :: r) with ([d] ++ r). rewrite cleaned_app, (unsafe_free [d]).
    + done.
    + constructor; [|constructor].
      apply elem_of_cons in Hr as [->|Hr];
        [apply (bool_decide_unpack _); by vm_compute|].
      apply elem_of_cons in Hr as [->|Hr];
        [apply (bool_decide_unpack _); by vm_compute|].
      apply list_elem_of_singleton in Hr as ->.
      apply (bool_decide_unpack _). by vm_compute.
  - apply Forall_app. split; [done|]. apply cleaned_safe.
Qed.

(** X16: the domain of an HTTP or HTTPS URL is everything between "//"
    and the first "/", "?" or "#", in lower case: user name and port
    included, so http://Example.com and http://example.com:80 are on
    different domains for the crawler. *)
Theorem get_domain_of_http `{NetlocChecks} (host rest : pystr) :
  Forall hostchar host →
  after_host rest →
  get_domain ("http://" ++ host ++ rest) = Return (lower host)
  ∧ get_domain ("https://" ++ host ++ rest) = Return (lower host).
Proof.
  intros Hh Hr.
  assert (∀ pre : pystr,
            Forall (λ c, c ∉ UNSAFE_URL_BYTES_TO_REMOVE) pre →
            (∀ c, head pre = Some c → c ∉ WHATWG_C0_CONTROL_OR_SPACE) →
            pre ≠ [] →
            (∀ t d, Forall (λ c, c ∉ UNSAFE_URL_BYTES_TO_REMOVE) t →
                    ∃ sch, urlsplit (pre ++ t) d
                           = after_scheme sch ("/"%char :: "/"%char :: t)) →
            get_domain (pre ++ host ++ rest) = Return (lower host)) as Hgen.
  { intros pre Hsafe Hhead Hne Hsplit. unfold get_domain.
    destruct (cleaned_host_rest pre host rest Hsafe Hh Hr)
      as (rest' & Hcl & Hr' & Hs').
    destruct (Hsplit (host ++ rest') [] Hs') as [sch Hsp].
    destruct (after_scheme_host sch host rest' Hh Hr') as (p & q & f & Ha).
    assert (urlsplit (pre ++ host ++ rest) [] = Return (sch, host, p, q, f))
      as Hu.
    { rewrite urlsplit_cleaned. rewrite lstrip_fixed.
      - by rewrite Hcl, Hsp.
      - intros c. destruct pre; [done|]. apply Hhead. }
    apply urlparse_netloc in Hu as (c & -> & <-). done. }
  split.
  - apply (Hgen "http://").
    + apply (bool_decide_unpack _). by vm_compute.
    + intros c [= <-]. apply (bool_decide_unpack _). by vm_compute.
    + done.
    + intros t d Ht. exists "http". by apply urlsplit_http.
  - apply (Hgen "https://").
    + apply (bool_decide_unpack _). by vm_compute.
    + intros c [= <-]. apply (bool_decide_unpack _). by vm_compute.
    + done.
    + intros t d Ht. exists "https". by apply urlsplit_https.
Qed.

Lemma get_domain_of_http_witness :
  get_domain "http://User@Example.COM:8080/a?b#c"
  = Return ("user@example.com:8080" : pystr)
  ∧ get_domain "https://User@Example.COM:8080/a?b#c"
    = Return ("user@example.com:8080" : pystr).
Proof.
  apply (get_domain_of_http "User@Example.COM:8080" "/a?b#c").
  - apply (bool_decide_unpack _). vm_compute. exact I.
  - simpl. by left.
Defined.

End DomainProps.

(** * The URLs the crawl touches *)
Module FrontierProps.
Import Py PyProps Urllib UrllibSpec UrllibProps Crawler CrawlerSpec.
Import LoopSpec LinkSpec CrawlerProps LoopProps ExtractProps Examples.

Lemma enqueue_domain `{NetlocChecks} (sd : pystr) (links : list pystr)
    (vs : gset pystr) (q q' : list pystr) (err : option exn) :
  enqueue sd links vs q = (q', err) →
  ∀ u, u ∈ q' → u ∈ q ∨ (u ∈ links ∧ get_domain u = Return sd).
Proof.
  revert q. induction links as [|l links IH]; cbn [enqueue]; intros q Heq u Hu.
  { injection Heq as <- _. by left. }
  destruct (get_domain l) as [d|e] eqn:Hd; [|injection Heq as <- _; by left].
  assert (Hrest : ∀ q0, enqueue sd links vs q0 = (q', err) →
                        (∀ v, v ∈ q0 → v ∈ q ∨ (v = l ∧ d = sd)) →
                        u ∈ q ∨ (u ∈ l :: links ∧ get_domain u = Return sd)).
  { intros q0 Hq0 Hsub. destruct (IH q0 Hq0 u Hu) as [Hin|[Hin Hdom]].
    - destruct (Hsub u Hin) as [?|[-> ->]]; [by left|right].
      split; [by left|done].
    - right. split; [by right|done]. }
  case_bool_decide as Hne; [apply (Hrest q Heq); by left|].
  assert (d = sd) as Hdsd by (by destruct (decide (d = sd)) as [|Hn]; [|destruct Hne]).
  destruct (bool_decide (l ∉ vs) && bool_decide (l ∉ q));
    [|apply (Hrest q Heq); by left].
  apply (Hrest _ Heq). intros v Hv. apply elem_of_app in Hv as [Hv|Hv];
    [by left|right]. by apply list_elem_of_singleton in Hv as ->.
Qed.

Section Frontier.
Context `{NetlocChecks} (cfg : Config) (w : World) (sd : pystr).

(** The URLs a state holds: queued, visited, failed, or with a retry
    count. *)
Lemma frontier_ind (Q : pystr → Prop) :
  Q (rstrip "/" (seed_url cfg)) →
  (∀ t html url links u,
     Q url →
     extract_links (list_of_set w t) html url = Return links →
     u ∈ links → get_domain u = Return sd → Q u) →
  ∀ st, reachable cfg w sd st →
        ∀ u, u ∈ queue st ∨ u ∈ visited st ∨ u ∈ failed st
             ∨ is_Some (retries st !! u) → Q u.
Proof.
  intros Hseed Hlink.
  apply (reachable_ind cfg w sd
           (λ st, ∀ u, u ∈ queue st ∨ u ∈ visited st ∨ u ∈ failed st
                       ∨ is_Some (retries st !! u) → Q u)).
  { intros u [Hu|[Hu|[Hu|Hu]]].
    - simpl in Hu. by apply list_elem_of_singleton in Hu as ->.
    - by apply elem_of_nil in Hu.
    - by apply elem_of_empty in Hu.
    - simpl in Hu. rewrite lookup_empty in Hu. by destruct Hu. }
  intros st o _ HQ _ Hit.
  assert (∀ url rest, queue st = url :: rest →
            Q url ∧ ∀ u, u ∈ rest ∨ u ∈ visited st ∨ u ∈ failed st
                         ∨ is_Some (retries st !! u) → Q u) as Hpop.
  { intros url rest Eq. split.
    - apply HQ. left. rewrite Eq. by left.
    - intros u [Hu|Hu]; apply HQ; [left; rewrite Eq; by right|by right]. }
  iteration_cases Hit; destruct (Hpop url rest Eq) as [Hurl Hold];
    intros u Hu.
  - by apply Hold.
  - by apply Hold.
  - by apply Hold.
  - destruct Hu as [Hu|[Hu|Hu]].
    + apply Hold. by left.
    + apply elem_of_app in Hu as [Hu|Hu]; [apply Hold; right; by left|].
      by apply list_elem_of_singleton in Hu as ->.
    + apply Hold. right. by right.
  - destruct Hu as [Hu|[Hu|Hu]].
    + destruct (enqueue_domain _ _ _ _ _ _ Hen u Hu) as [Hin|[Hin Hdom]].
      * apply Hold. by left.
      * by apply (Hlink (now st) html url links u).
    + apply elem_of_app in Hu as [Hu|Hu]; [apply Hold; right; by left|].
      by apply list_elem_of_singleton in Hu as ->.
    + apply Hold. right. by right.
  - destruct Hu as [Hu|[Hu|Hu]].
    + destruct (enqueue_domain _ _ _ _ _ _ Hen u Hu) as [Hin|[Hin Hdom]].
      * apply Hold. by left.
      * by apply (Hlink (now st) html url links u).
    + apply elem_of_app in Hu as [Hu|Hu]; [apply Hold; right; by left|].
      by apply list_elem_of_singleton in Hu as ->.
    + apply Hold. right. by right.
  - destruct Hu as [Hu|[Hu|[Hu|Hu]]].
    + apply elem_of_app in Hu as [Hu|Hu]; [apply Hold; by left|].
      by apply list_elem_of_singleton in Hu as ->.
    + apply Hold. right. by left.
    + apply Hold. right. right. by left.
    + destruct (decide (url = u)) as [<-|Hne]; [done|].
      rewrite lookup_insert_ne in Hu by done. apply Hold. by do 3 right.
  - destruct Hu as [Hu|[Hu|[Hu|Hu]]].
    + apply Hold. by left.
    + apply Hold. right. by left.
    + apply elem_of_union in Hu as [Hu|Hu];
        [by apply elem_of_singleton in Hu as ->|].
      apply Hold. right. right. by left.
    + apply Hold. by do 3 right.
  - destruct Hu as [Hu|[Hu|[Hu|Hu]]].
    + apply Hold. by left.
    + apply Hold. right. by left.
    + apply elem_of_union in Hu as [Hu|Hu];
        [by apply elem_of_singleton in Hu as ->|].
      apply Hold. right. right. by left.
    + apply Hold. by do 3 right.
Qed.

End Frontier.

(** X17: the crawl stays on the seed's domain.  In every state the loop
    passes through, every URL that is queued, visited, failed or has a
    retry count is the seed itself or a URL whose domain, as [get_domain]
    computes it, is the seed domain. *)
Theorem same_domain_only `{NetlocChecks} (cfg : Config) (w : World)
    (sd : pystr) (st : State) (u : pystr) :
  reachable cfg w sd st →
  u ∈ queue st ∨ u ∈ visited st ∨ u ∈ failed st ∨ is_Some (retries st !! u) →
  u = rstrip "/" (seed_url cfg) ∨ get_domain u = Return sd.
Proof.
  intros Hr. revert u.
  apply (frontier_ind cfg w sd
           (λ u, u = rstrip "/" (seed_url cfg) ∨ get_domain u = Return sd));
    [by left| |done].
  intros t html url links u _ _ _ Hd. by right.
Qed.

Lemma same_domain_only_witness :
  ∃ st, state_at relink_cfg relink_world "s.example" 3 (initial relink_cfg)
        = Some st
        ∧ (a_url = rstrip "/" (seed_url relink_cfg)
           ∨ get_domain a_url = Return ("s.example" : pystr)).
Proof.
  destruct relink_state_3 as (st & Hst & Hq & _).
  exists st. split; [exact Hst|].
  apply (same_domain_only relink_cfg relink_world "s.example" st a_url).
  - exact (state_at_reachable _ _ _ 3 st Hst).
  - left. rewrite Hq. by left.
Defined.

Lemma frontier_all `{NetlocChecks} (cfg : Config) (w : World)
    (sd : pystr) (st : State) (u : pystr) :
  lists_sets w →
  reachable cfg w sd st →
  u ∈ queue st ∨ u ∈ visited st ∨ u ∈ failed st ∨ is_Some (retries st !! u) →
  u = rstrip "/" (seed_url cfg)
  ∨ (accepted u = true
     ∧ last u ≠ Some "/"%char
     ∧ ("#"%char ∉ u) ∧ ("009"%char ∉ u) ∧ ("013"%char ∉ u)
     ∧ "010"%char ∉ u).
Proof.
  intros Hw Hr. revert u.
  apply (frontier_ind cfg w sd
           (λ u, u = rstrip "/" (seed_url cfg)
                 ∨ (accepted u = true
                    ∧ last u ≠ Some "/"%char
                    ∧ ("#"%char ∉ u) ∧ ("009"%char ∉ u) ∧ ("013"%char ∉ u)
                    ∧ "010"%char ∉ u))); [by left| |done].
  intros t html url links u _ Hex Hin _. right.
  destruct (extract_links_from (list_of_set w t) html url links) with (l := u)
    as (raw & _ & _ & _ & Habs & Hacc); [intros X; apply Hw|done..|].
  by apply (kept_link_normal url (strip_ws raw)).
Qed.

(** X18: apart from the seed, the crawl only ever handles links in
    normal form.  When sets are listed element by element, every URL that
    is queued, visited or failed in a state the loop passes through is the
    seed or starts with "http://" or "https://", does not end in a slash,
    and has no "#", tab, carriage return or newline. *)
Theorem frontier_normal `{NetlocChecks} (cfg : Config) (w : World)
    (sd : pystr) (st : State) (u : pystr) :
  lists_sets w →
  reachable cfg w sd st →
  u ∈ queue st ∨ u ∈ visited st ∨ u ∈ failed st →
  u = rstrip "/" (seed_url cfg)
  ∨ (accepted u = true
     ∧ last u ≠ Some "/"%char
     ∧ ("#"%char ∉ u) ∧ ("009"%char ∉ u) ∧ ("013"%char ∉ u)
     ∧ "010"%char ∉ u).
Proof.
  intros Hw Hr Hu. apply (frontier_all cfg w sd st u Hw Hr).
  destruct Hu as [Hu|[Hu|Hu]]; [by left|right; by left|].
  right. right. by left.
Qed.

Lemma frontier_normal_witness :
  ∃ st, state_at relink_cfg relink_world "s.example" 3 (initial relink_cfg)
        = Some st
        ∧ (b_url = rstrip "/" (seed_url relink_cfg)
           ∨ (accepted b_url = true
              ∧ last b_url ≠ Some "/"%char
              ∧ ("#"%char ∉ b_url) ∧ ("009"%char ∉ b_url)
              ∧ ("013"%char ∉ b_url) ∧ "010"%char ∉ b_url)).
Proof.
  destruct relink_state_3 as (st & Hst & _ & Hv & _).
  exists st. split; [exact Hst|].
  apply (frontier_normal relink_cfg relink_world "s.example" st b_url).
  - exact relink_world_lists.
  - exact (state_at_reachable _ _ _ 3 st Hst).
  - right. left. rewrite Hv. right. by left.
Defined.

Lemma split_line (c : ascii) (u s : pystr) :
  c ∉ u → split c (u ++ c :: s) = u :: split c s.
Proof.
  induction u as [|x u IH]; intros Hu; simpl.
  - by destruct (decide (c = c)).
  - apply not_elem_of_cons in Hu as [Hx Hu].
    destruct (decide (x = c)); [by subst|]. by rewrite (IH Hu).
Qed.

Lemma split_manifest (vs : list pystr) :
  Forall (λ u, Re.newline ∉ u) vs →
  split Re.newline (manifest vs) = vs ++ [[]].
Proof.
  induction 1 as [|u vs Hu _ IH]; [done|].
  unfold manifest in *. cbn [flat_map]. rewrite <- app_assoc. cbn [app].
  by rewrite split_line, IH.
Qed.

(** X19: the manifest can be read back.  When sets are listed element by
    element and the seed URL has no newline, then in every state the loop
    passes through, splitting the text written to visited.txt at the
    newlines gives back the visited URLs, one per line and in order,
    followed by the empty piece behind the last newline. *)
Theorem manifest_lines `{NetlocChecks} (cfg : Config) (w : World)
    (sd : pystr) (st : State) :
  lists_sets w →
  Re.newline ∉ seed_url cfg →
  reachable cfg w sd st →
  split Re.newline (manifest (visited st)) = visited st ++ [[]].
Proof.
  intros Hw Hseed Hr. apply split_manifest, Forall_forall. intros u Hu.
  destruct (frontier_all cfg w sd st u Hw Hr) as [->|Hn];
    [right; by left| |].
  - intros Hin. apply Hseed.
    destruct (rstrip_spec "/" (seed_url cfg)) as (suf & -> & _).
    apply elem_of_app. by left.
  - by destruct Hn as (_ & _ & _ & _ & _ & ?).
Qed.

Lemma manifest_lines_witness :
  ∃ st, state_at relink_cfg relink_world "s.example" 3 (initial relink_cfg)
        = Some st
        ∧ split Re.newline (manifest (visited st)) = visited st ++ [[]].
Proof.
  destruct relink_state_3 as (st & Hst & _).
  exists st. split; [exact Hst|].
  apply (manifest_lines relink_cfg relink_world "s.example" st).
  - exact relink_world_lists.
  - apply (bool_decide_unpack _). vm_compute. exact I.
  - exact (state_at_reachable _ _ _ 3 st Hst).
Defined.

End FrontierProps.

(** * The script from start to end *)
Module ScriptProps.
Import Py PyProps Urllib Crawler CrawlerSpec LoopSpec CrawlerProps LoopProps.
Import Examples Worlds.

Lemma crawl_loop_normal `{NetlocChecks} (cfg : Config) (w : World)
    (sd : pystr) (fuel : nat) (st st' : State) :
  crawl_loop cfg w sd fuel st = Some (Normal st') →
  loop_cond cfg st' = false ∧ rtc (step cfg w sd) st st'.
Proof.
  revert st. induction fuel as [|n IH]; simpl; intros st Hrun;
    destruct (loop_cond cfg st) eqn:Hc; try done;
    try (injection Hrun as <-; split; [done|apply rtc_refl]).
  destruct (loop_body cfg w sd st) as [st1|e st1] eqn:Hb; [|done].
  destruct (IH st1 Hrun) as [Hc' Hr]. split; [done|].
  eapply rtc_l; [|done]. by split.
Qed.

(** X20: how the script ends.  If it ends normally, the manifest has
    been written with the visited URLs, and the last line of output, the
    only summary, reports the number of visited URLs, the queue size and,
    if the failed set is not empty, its size; and the queue is empty or
    the page limit is reached.  If it ends with an exception, no summary
    has been printed. *)
Theorem summary_at_normal_end `{NetlocChecks} (cfg : Config) (w : World)
    (fuel : nat) (o : outcome) :
  0 ≤ max_pages cfg →
  main cfg w fuel = Some o →
  match o with
  | Normal st =>
      ∃ log,
        stdout st
        = log ++ [Summary (seed_url cfg) (max_pages cfg)
                    (length (visited st)) (length (queue st))
                    (if decide (failed st = ∅) then None
                     else Some (size (failed st)))]
        ∧ (∀ ev, ev ∈ log → is_summary ev = false)
        ∧ open_write w (now st) VisitedFile (manifest (visited st))
          = Return tt
        ∧ (queue st = [] ∨ Z.of_nat (length (visited st)) = max_pages cfg)
  | Raised e st => ∀ ev, ev ∈ stdout st → is_summary ev = false
  end.
Proof.
  intros Hpos. unfold main.
  assert (∀ ev, ev ∈ stdout (initial cfg) → is_summary ev = false) as Hinit.
  { intros ev Hev. by apply elem_of_nil in Hev. }
  destruct (makedirs w); [|by intros [= <-]].
  destruct (get_domain (seed_url cfg)) as [sd|e]; [|by intros [= <-]].
  destruct (crawl_loop cfg w sd fuel (initial cfg)) as [[st|e st]|] eqn:Hrun;
    [| |done].
  - apply crawl_loop_normal in Hrun as [Hc Hr].
    pose proof (steps_inv _ _ _ _ Hr) as [_ _ _ Hb _ _ _ _ Hns].
    unfold finish.
    destruct (open_write w (now st) VisitedFile (manifest (visited st)))
      as [[]|e] eqn:Hw; intros [= <-]; [|done].
    cbn [stdout visited queue failed now]. eexists. split; [done|].
    split; [done|]. split; [done|].
    unfold loop_cond in Hc. apply andb_false_iff in Hc as [Hq|Hlt].
    + left. by destruct (queue st).
    + right. apply Z.ltb_ge in Hlt. lia.
  - intros [= <-].
    apply crawl_loop_reachable in Hrun; [|apply rtc_refl].
    apply (inv_no_summary _ _ (reachable_inv _ _ _ _ Hrun)).
Qed.

Lemma summary_at_normal_end_witness :
  ∃ o,
    main relink_cfg relink_world 10 = Some o
    ∧ match o with
      | Normal st =>
          ∃ log,
            stdout st
            = log ++ [Summary (seed_url relink_cfg) (max_pages relink_cfg)
                        (length (visited st)) (length (queue st))
                        (if decide (failed st = ∅) then None
                         else Some (size (failed st)))]
            ∧ (∀ ev, ev ∈ log → is_summary ev = false)
            ∧ open_write relink_world (now st) VisitedFile
                (manifest (visited st)) = Return tt
            ∧ (queue st = []
               ∨ Z.of_nat (length (visited st)) = max_pages relink_cfg)
      | Raised e st => ∀ ev, ev ∈ stdout st → is_summary ev = false
      end.
Proof.
  destruct (main relink_cfg relink_world 10) as [o|] eqn:Hm;
    [|vm_compute in Hm; discriminate Hm].
  exists o. split; [reflexivity|].
  apply (summary_at_normal_end relink_cfg relink_world 10 o).
  - simpl. lia.
  - exact Hm.
Defined.

(** X21: an exception of [requests.get] that is not a request exception
    is not caught: it leaves [fetch_page], the loop and the script.  The
    URL has been taken from the queue and is recorded nowhere, and
    nothing more is printed. *)
Theorem foreign_exception_aborts `{NetlocChecks} (cfg : Config) (w : World)
    (sd : pystr) (n : nat) (st : State) (url : pystr) (rest : list pystr)
    (e : exn) :
  makedirs w = Return tt →
  get_domain (seed_url cfg) = Return sd →
  state_at cfg w sd n (initial cfg) = Some st →
  loop_cond cfg st = true →
  queue st = url :: rest →
  requests_get w (now st) url 5 user_agent = Raise e →
  (∀ k, e ≠ RequestException k) →
  fetch_page w (now st) url 5 = Raise e
  ∧ loop_body cfg w sd st = Raised e (popped st rest)
  ∧ (∀ fuel, (n < fuel)%nat →
       main cfg w fuel = Some (Raised e (popped st rest)))
  ∧ (url ∉ visited (popped st rest))
  ∧ failed (popped st rest) = failed st
  ∧ stdout (popped st rest) = stdout st.
Proof.
  intros Hmk Hsd Hat Hc Hq Hget Hne.
  pose proof (steps_inv _ _ _ _ (state_at_rtc _ _ _ _ _ _ Hat))
    as [_ Hdis Hvs _ _ _ _ _ _].
  assert (url ∉ visited_set st) as Hv.
  { apply Hdis. rewrite Hq. by left. }
  assert (fetch_page w (now st) url 5 = Raise e) as Hfetch.
  { unfold fetch_page. rewrite Hget. destruct e; try done. by destruct (Hne k). }
  assert (loop_body cfg w sd st = Raised e (popped st rest)) as Hbody.
  { unfold loop_body. rewrite Hq.
    cbn [visited_set visited queue retries failed page_id now stdout].
    by rewrite (bool_decide_eq_false_2 _ Hv), Hfetch. }
  split; [done|]. split; [done|]. split; [|split; [|done]].
  - intros fuel Hfuel. unfold main. rewrite Hmk, Hsd.
    replace fuel with (n + S (fuel - S n))%nat by lia.
    rewrite (state_at_crawl_loop _ _ _ _ _ _ _ Hat). simpl.
    by rewrite Hc, Hbody.
  - cbn [popped visited]. by rewrite <- Hvs.
Qed.

Lemma foreign_exception_aborts_witness :
  fetch_page interrupted_world 0 s_url 5
  = Raise (OtherException "KeyboardInterrupt")
  ∧ loop_body relink_cfg interrupted_world "s.example" (initial relink_cfg)
    = Raised (OtherException "KeyboardInterrupt")
        (popped (initial relink_cfg) [])
  ∧ (∀ fuel, (0 < fuel)%nat →
       main relink_cfg interrupted_world fuel
       = Some (Raised (OtherException "KeyboardInterrupt")
                 (popped (initial relink_cfg) [])))
  ∧ (s_url ∉ visited (popped (initial relink_cfg) []))
  ∧ failed (popped (initial relink_cfg) []) = failed (initial relink_cfg)
  ∧ stdout (popped (initial relink_cfg) []) = stdout (initial relink_cfg).
Proof.
  apply (foreign_exception_aborts relink_cfg interrupted_world "s.example" 0
           (initial relink_cfg) s_url []
           (OtherException "KeyboardInterrupt")).
  - reflexivity.
  - vm_compute. reflexivity.
  - reflexivity.
  - reflexivity.
  - vm_compute. reflexivity.
  - reflexivity.
  - intros k. discriminate.
Defined.

(** X22: with a page limit of zero or less nothing is fetched.  The loop
    does not run once: the script writes an empty manifest and prints a
    summary with no page crawled and the seed still in the queue. *)
Theorem nothing_to_crawl `{NetlocChecks} (cfg : Config) (w : World)
    (sd : pystr) :
  max_pages cfg ≤ 0 →
  makedirs w = Return tt →
  get_domain (seed_url cfg) = Return sd →
  open_write w 0 VisitedFile [] = Return tt →
  ∃ st,
    (∀ fuel, main cfg w fuel = Some (Normal st))
    ∧ now st = 0%nat
    ∧ visited st = []
    ∧ queue st = [rstrip "/" (seed_url cfg)]
    ∧ stdout st = [Summary (seed_url cfg) (max_pages cfg) 0 1 None].
Proof.
  intros Hmax Hmk Hsd Hw.
  assert (loop_cond cfg (initial cfg) = false) as Hc.
  { unfold loop_cond. simpl. apply Z.ltb_ge. lia. }
  assert (finish cfg w (initial cfg)
          = Normal (mkState [rstrip "/" (seed_url cfg)] [] ∅ ∅ ∅ 1 0
                      [Summary (seed_url cfg) (max_pages cfg) 0 1 None]))
    as Hfin.
  { unfold finish. cbn [initial now visited manifest flat_map]. by rewrite Hw. }
  exists (mkState [rstrip "/" (seed_url cfg)] [] ∅ ∅ ∅ 1 0
            [Summary (seed_url cfg) (max_pages cfg) 0 1 None]).
  split; [|done].
  intros fuel. unfold main. rewrite Hmk, Hsd.
  assert (crawl_loop cfg w sd fuel (initial cfg) = Some (Normal (initial cfg)))
    as ->.
  { destruct fuel; simpl; by rewrite Hc. }
  by rewrite Hfin.
Qed.

Lemma nothing_to_crawl_witness :
  ∃ st,
    (∀ fuel, main idle_cfg quiet_world fuel = Some (Normal st))
    ∧ now st = 0%nat
    ∧ visited st = []
    ∧ queue st = [rstrip "/" (seed_url idle_cfg)]
    ∧ stdout st = [Summary (seed_url idle_cfg) (max_pages idle_cfg) 0 1 None].
Proof.
  apply (nothing_to_crawl idle_cfg quiet_world "s.example").
  - simpl. lia.
  - reflexivity.
  - vm_compute. reflexivity.
  - reflexivity.
Defined.

End ScriptProps.

(** * The indexer *)
Module IndexProps.
Import Py PyProps Indexer IndexSpec TameProps.

(** *** [str.split()] *)

Lemma split_ws_from_chars (P : ascii → Prop) (word text : pystr) :
  Forall P word → Forall P text → Forall (Forall P) (split_ws_from word text).
Proof.
  intros Hw Ht. revert word Hw.
  induction Ht as [|c rest Hc _ IH]; intros word Hw; simpl.
  - destruct (truthy word); by repeat constructor.
  - destruct (isspace c).
    + destruct (truthy word); [constructor; [done|]|]; by apply IH.
    + apply IH. apply Forall_app. split; [done|]. by constructor.
Qed.

Lemma split_ws_from_words (word text : pystr) :
  Forall (λ c, isspace c = false) word →
  Forall (λ t : pystr, t ≠ [] ∧ Forall (λ c, isspace c = false) t)
    (split_ws_from word text).
Proof.
  revert word. induction text as [|c rest IH]; intros word Hw; simpl.
  - destruct (truthy word) eqn:Ht; [|constructor].
    constructor; [|constructor]. split; [by apply truthy_true|done].
  - destruct (isspace c) eqn:Hc.
    + destruct (truthy word) eqn:Ht; [constructor|]; try by apply IH.
      split; [by apply truthy_true|done].
    + apply IH. apply Forall_app. split; [done|]. by constructor.
Qed.

Lemma split_ws_from_run (word w rest : pystr) :
  Forall (λ c, isspace c = false) w →
  split_ws_from word (w ++ rest) = split_ws_from (word ++ w) rest.
Proof.
  intros Hw. revert word. induction Hw as [|c w Hc _ IH]; intros word; simpl.
  - by rewrite app_nil_r.
  - rewrite Hc, IH. by rewrite <- app_assoc.
Qed.

Lemma split_ws_from_space (word a b : pystr) (c : ascii) :
  isspace c = true →
  split_ws_from word (a ++ c :: b) = split_ws_from word a ++ split_ws b.
Proof.
  intros Hc. revert word. induction a as [|x a IH]; intros word; simpl.
  - rewrite Hc. by destruct (truthy word).
  - destruct (isspace x); [|apply IH].
    destruct (truthy word); simpl; by rewrite IH.
Qed.

Lemma split_ws_join (ts : list pystr) :
  Forall (λ t : pystr, t ≠ [] ∧ Forall (λ c, isspace c = false) t) ts →
  split_ws (join " " ts) = ts.
Proof.
  unfold split_ws. induction 1 as [|t ts [Hne Ht] Hts IH]; [done|].
  cbn [join]. destruct ts as [|t' ts].
  - replace (split_ws_from [] t) with (split_ws_from [] (t ++ []))
      by (by rewrite app_nil_r).
    rewrite split_ws_from_run by done. simpl.
    by rewrite (proj2 (truthy_true t) Hne).
  - rewrite split_ws_from_run by done. cbn [app split_ws_from].
    replace (isspace " ") with true by done.
    rewrite (proj2 (truthy_true t) Hne). by rewrite IH.
Qed.

(** *** Characters *)

Lemma lower_char_idemp (c : ascii) : lower_char (lower_char c) = lower_char c.
Proof.
  revert c. apply (ascii_all (λ c, lower_char (lower_char c) = lower_char c)).
  apply (bool_decide_unpack _). by vm_compute.
Qed.

Lemma lower_char_punctuation (c : ascii) :
  lower_char c ∈ punctuation ↔ c ∈ punctuation.
Proof.
  revert c.
  apply (ascii_all (λ c, lower_char c ∈ punctuation ↔ c ∈ punctuation)).
  apply (bool_decide_unpack _). by vm_compute.
Qed.

Lemma space_as_it_is (c : ascii) :
  isspace c = true → lower_char c = c ∧ (c ∉ punctuation).
Proof.
  revert c.
  apply (ascii_all (λ c, isspace c = true
                         → lower_char c = c ∧ (c ∉ punctuation))).
  apply (bool_decide_unpack _). by vm_compute.
Qed.

Lemma lower_delete (text : pystr) :
  lower (delete_chars punctuation text)
  = delete_chars punctuation (lower text).
Proof.
  unfold lower, delete_chars. induction text as [|c text IH]; [done|].
  cbn [map]. destruct (decide (c ∈ punctuation)) as [Hc|Hc].
  - rewrite filter_cons_False by (intros Hn; by apply Hn).
    rewrite filter_cons_False; [done|].
    intros Hn. by apply Hn, lower_char_punctuation.
  - rewrite filter_cons_True by done. cbn [map].
    rewrite filter_cons_True; [by rewrite IH|].
    by rewrite lower_char_punctuation.
Qed.

Lemma lower_idemp (text : pystr) : lower (lower text) = lower text.
Proof.
  unfold lower. rewrite map_map. apply map_ext. apply lower_char_idemp.
Qed.

Lemma delete_idemp (chars text : pystr) :
  delete_chars chars (delete_chars chars text) = delete_chars chars text.
Proof.
  unfold delete_chars. induction text as [|c text IH]; [done|].
  destruct (decide (c ∈ chars)).
  - by rewrite filter_cons_False by (intros Hn; by apply Hn).
  - rewrite filter_cons_True by done. by rewrite filter_cons_True, IH.
Qed.

Lemma lower_fixed (text : pystr) :
  Forall (λ c, lower_char c = c) text → lower text = text.
Proof.
  unfold lower. induction 1 as [|c text Hc _ IH]; [done|].
  simpl. by rewrite Hc, IH.
Qed.

Lemma delete_clean (text : pystr) :
  Forall (λ c, c ∉ punctuation) text → delete_chars punctuation text = text.
Proof.
  unfold delete_chars. induction 1 as [|c text Hc _ IH]; [done|].
  by rewrite filter_cons_True, IH.
Qed.

Lemma tokenize_all_tokens (text : pystr) : Forall token (tokenize text).
Proof.
  unfold tokenize. cbv zeta.
  set (x := delete_chars punctuation (lower text)).
  assert (Forall (λ c, (c ∉ punctuation) ∧ lower_char c = c) x) as Hx.
  { unfold x, delete_chars, lower. apply Forall_forall. intros c Hc.
    apply list_elem_of_filter in Hc as [Hp Hc]. split; [done|].
    apply list_elem_of_fmap in Hc as (c0 & -> & _). apply lower_char_idemp. }
  pose proof (split_ws_from_chars _ [] x (Forall_nil_2 _) Hx) as Hc.
  pose proof (split_ws_from_words [] x (Forall_nil_2 _)) as Hw.
  fold (split_ws x) in Hc, Hw.
  apply Forall_forall. intros t Hin.
  destruct (proj1 (Forall_forall _ _) Hw t Hin) as [Hne Hsp].
  split; [done|]. apply Forall_forall. intros c Hct.
  destruct (proj1 (Forall_forall _ _)
              (proj1 (Forall_forall _ _) Hc t Hin) c Hct) as [? ?].
  split; [|done]. by apply (proj1 (Forall_forall _ _) Hsp).
Qed.

(** X23: what [tokenize] returns are tokens: none is empty, and none
    has white space, punctuation or an upper-case letter. *)
Theorem tokenize_tokens (text t : pystr) :
  t ∈ tokenize text → token t.
Proof.
  intros Hin.
  by apply (proj1 (Forall_forall _ _) (tokenize_all_tokens text)).
Qed.

Lemma tokenize_tokens_witness : token "doh".
Proof.
  apply (tokenize_tokens "Well, D'OH!" "doh").
  apply (bool_decide_unpack _). vm_compute. exact I.
Defined.

(** X24: on a text of Latin-1 characters (code points below 256, where
    [lower] works character by character), [tokenize] does not see case
    or punctuation, and white space only separates.  Lowering the text or
    deleting its punctuation beforehand changes nothing, so punctuation
    inside a word joins its two halves; and the tokens of two texts with a
    white-space character between them are the tokens of the first
    followed by the tokens of the second. *)
Theorem tokenize_blind (text a b : pystr) (c : ascii) :
  tokenize (lower text) = tokenize text
  ∧ tokenize (delete_chars punctuation text) = tokenize text
  ∧ (isspace c = true → tokenize (a ++ c :: b) = tokenize a ++ tokenize b).
Proof.
  unfold tokenize. cbv zeta. split; [|split].
  - by rewrite lower_idemp.
  - by rewrite lower_delete, delete_idemp.
  - intros Hc. destruct (space_as_it_is c Hc) as [Hl Hp].
    unfold lower, delete_chars. rewrite map_app, filter_app. cbn [map].
    rewrite Hl, filter_cons_True by done.
    apply (split_ws_from_space [] _ _ c Hc).
Qed.

Lemma tokenize_blind_witness :
  isspace "010" = true
  ∧ tokenize (lower "Mrs. O'Neil-Smith") = tokenize "Mrs. O'Neil-Smith"
  ∧ tokenize (delete_chars punctuation "Mrs. O'Neil-Smith")
    = tokenize "Mrs. O'Neil-Smith"
  ∧ tokenize ("Mrs. O'Neil-Smith" ++ "010"%char :: "x")
    = tokenize "Mrs. O'Neil-Smith" ++ tokenize "x".
Proof.
  destruct (tokenize_blind "Mrs. O'Neil-Smith" "Mrs. O'Neil-Smith" "x" "010")
    as (Hlower & Hdelete & Hsplit).
  split; [reflexivity|]. split; [exact Hlower|]. split; [exact Hdelete|].
  apply Hsplit. reflexivity.
Defined.

(** X25: on Latin-1 characters (code points below 256), tokens survive
    a round trip.  Joining tokens with single spaces and tokenizing the
    text gives the tokens back; so tokenizing the joined tokens of a
    Latin-1 text gives the tokens of the text. *)
Theorem tokenize_join (ts : list pystr) (text : pystr) :
  (Forall token ts → tokenize (join " " ts) = ts)
  ∧ tokenize (join " " (tokenize text)) = tokenize text.
Proof.
  assert (∀ ts, Forall token ts → tokenize (join " " ts) = ts) as Hjoin.
  { clear ts. intros ts Hts. unfold tokenize. cbv zeta.
    assert (Forall (λ c, lower_char c = c ∧ (c ∉ punctuation))
              (join " " ts)) as Hkept.
    { apply CharProps.Forall_join.
      - apply (bool_decide_unpack _). by vm_compute.
      - eapply Forall_impl; [exact Hts|]. intros t [_ Ht].
        eapply Forall_impl; [exact Ht|]. by intros c (_ & ? & ?). }
    rewrite lower_fixed
      by (eapply Forall_impl; [exact Hkept|]; by intros c [? _]).
    rewrite delete_clean
      by (eapply Forall_impl; [exact Hkept|]; by intros c [_ ?]).
    apply split_ws_join. eapply Forall_impl; [exact Hts|].
    intros t [Hne Ht]. split; [done|].
    eapply Forall_impl; [exact Ht|]. by intros c [? _]. }
  split; [apply Hjoin|]. apply Hjoin, tokenize_all_tokens.
Qed.

Lemma tokenize_join_witness :
  tokenize (join " " [("mrs" : pystr); ("oneilsmith" : pystr)])
  = [("mrs" : pystr); ("oneilsmith" : pystr)].
Proof.
  apply (proj1 (tokenize_join [("mrs" : pystr); ("oneilsmith" : pystr)] [])).
  apply (bool_decide_unpack _). vm_compute. exact I.
Defined.

(** *** Dicts *)

Lemma get_set_eq {K V} `{EqDecision K} (d : list (K * V)) (k : K) (v : V) :
  Dict.get (Dict.set d k v) k = Some v.
Proof.
  induction d as [|[k' v'] d IH]; simpl.
  - by destruct (decide (k = k)).
  - destruct (decide (k' = k)) as [->|Hne]; simpl.
    + by destruct (decide (k = k)).
    + by destruct (decide (k' = k)).
Qed.

Lemma get_set_ne {K V} `{EqDecision K} (d : list (K * V)) (k k0 : K) (v : V) :
  k ≠ k0 → Dict.get (Dict.set d k v) k0 = Dict.get d k0.
Proof.
  intros Hne. induction d as [|[k' v'] d IH]; simpl.
  - by destruct (decide (k = k0)).
  - destruct (decide (k' = k)) as [->|Hk]; simpl.
    + by destruct (decide (k = k0)).
    + destruct (decide (k' = k0)); [done|apply IH].
Qed.

Lemma get_None {K V} `{EqDecision K} (d : list (K * V)) (k : K) :
  Dict.get d k = None ↔ k ∉ Dict.keys d.
Proof.
  unfold Dict.keys. induction d as [|[k' v'] d IH]; simpl.
  - split; [intros _; apply not_elem_of_nil|done].
  - rewrite not_elem_of_cons. destruct (decide (k' = k)) as [->|Hne].
    + split; [done|]. by intros [? _].
    + rewrite IH. split; [by intros ?; split; [apply not_eq_sym|]|].
      by intros [_ ?].
Qed.

Lemma keys_set {K V} `{EqDecision K} (d : list (K * V)) (k : K) (v : V) :
  Dict.keys (Dict.set d k v)
  = if decide (k ∈ Dict.keys d) then Dict.keys d else Dict.keys d ++ [k].
Proof.
  unfold Dict.keys. induction d as [|[k' v'] d IH].
  - by rewrite decide_False by apply not_elem_of_nil.
  - cbn [Dict.set fmap list_fmap fst].
    destruct (decide (k' = k)) as [->|Hne]; cbn [fmap list_fmap fst].
    + by rewrite decide_True by (by left).
    + rewrite IH. destruct (decide (k ∈ fst <$> d)) as [Hin|Hn].
      * by rewrite decide_True by (by right).
      * rewrite decide_False; [done|].
        intros Hin. apply elem_of_cons in Hin as [->|]; done.
Qed.

Lemma NoDup_keys_set {K V} `{EqDecision K} (d : list (K * V)) (k : K) (v : V) :
  NoDup (Dict.keys d) → NoDup (Dict.keys (Dict.set d k v)).
Proof.
  intros Hd. rewrite keys_set. destruct (decide (k ∈ Dict.keys d)); [done|].
  apply NoDup_app. split; [done|]. split; [|apply NoDup_singleton].
  intros x Hx Hx'. by apply list_elem_of_singleton in Hx' as ->.
Qed.

(** *** [compute_tf] *)

Lemma occurrences_cons (w t : pystr) (tokens : list pystr) :
  occurrences w (t :: tokens)
  = ((if decide (t = w) then 1 else 0) + occurrences w tokens)%nat.
Proof.
  unfold occurrences. destruct (decide (t = w)).
  - by rewrite filter_cons_True.
  - by rewrite filter_cons_False.
Qed.

Lemma occurrences_pos (w : pystr) (tokens : list pystr) :
  (0 < occurrences w tokens)%nat ↔ w ∈ tokens.
Proof.
  induction tokens as [|t tokens IH].
  - split; [by vm_compute; lia|]. intros Hin. by apply elem_of_nil in Hin.
  - rewrite occurrences_cons, elem_of_cons.
    destruct (decide (t = w)) as [->|Hne].
    + split; [by left|lia].
    + rewrite Nat.add_0_l, IH. split; [by right|].
      by intros [->|?].
Qed.

(** The loop of [compute_tf], from any dict. *)
Lemma compute_tf_from (tokens : list pystr) (tf : list (pystr * Z)) :
  let tf' := fold_left (λ tf word,
                          Dict.set tf word (default 0 (Dict.get tf word) + 1))
                       tokens tf in
  (∀ w, default 0 (Dict.get tf' w)
        = default 0 (Dict.get tf w) + Z.of_nat (occurrences w tokens))
  ∧ (∀ w, w ∈ Dict.keys tf' ↔ w ∈ Dict.keys tf ∨ w ∈ tokens)
  ∧ (NoDup (Dict.keys tf) → NoDup (Dict.keys tf'))
  ∧ foldr Z.add 0 (snd <$> tf')
    = foldr Z.add 0 (snd <$> tf) + Z.of_nat (length tokens).
Proof.
  revert tf. induction tokens as [|t tokens IH]; intros tf; cbn [fold_left].
  { split; [intros w; vm_compute occurrences; lia|].
    split; [intros w; rewrite elem_of_nil; tauto|]. split; [done|].
    simpl. lia. }
  destruct (IH (Dict.set tf t (default 0 (Dict.get tf t) + 1)))
    as (Hget & Hkeys & Hnd & Hsum).
  split; [|split; [|split]].
  - intros w. rewrite Hget, occurrences_cons.
    destruct (decide (t = w)) as [->|Hne].
    + rewrite get_set_eq. simpl. lia.
    + rewrite get_set_ne by done. lia.
  - intros w. rewrite Hkeys, keys_set, elem_of_cons.
    destruct (decide (t ∈ Dict.keys tf)) as [Hin|Hn].
    + split; [tauto|]. intros [Hw|[Hw|Hw]]; subst; tauto.
    + rewrite elem_of_app, list_elem_of_singleton. split; [|tauto].
      intros [[Hw|Hw]|Hw]; subst; tauto.
  - intros Hd. by apply Hnd, NoDup_keys_set.
  - rewrite Hsum. cbn [length].
    assert (∀ (d : list (pystr * Z)) v0,
              foldr Z.add 0 (snd <$> Dict.set d t v0)
              = foldr Z.add 0 (snd <$> d) - default 0 (Dict.get d t) + v0)
      as Hset.
    { induction d as [|[k v] d IHd]; intros v0.
      - cbn [Dict.set Dict.get fmap list_fmap foldr snd default]. lia.
      - cbn [Dict.set Dict.get].
        destruct (decide (k = t)).
        + cbn [fmap list_fmap foldr snd default]. unfold id. lia.
        + cbn [fmap list_fmap foldr snd default]. rewrite IHd. lia. }
    rewrite Hset. lia.
Qed.

Lemma compute_tf_get (tokens : list pystr) :
  (∀ w, Dict.get (compute_tf tokens) w
        = if decide (w ∈ tokens) then Some (Z.of_nat (occurrences w tokens))
          else None)
  ∧ NoDup (Dict.keys (compute_tf tokens)).
Proof.
  destruct (compute_tf_from tokens []) as (Hget & Hkeys & Hnd & _).
  fold (compute_tf tokens) in *.
  split; [|by apply Hnd, NoDup_nil_2].
  intros w. specialize (Hget w). specialize (Hkeys w). simpl in Hget.
  destruct (decide (w ∈ tokens)) as [Hin|Hn].
  - destruct (Dict.get (compute_tf tokens) w) as [v|] eqn:Hv;
      [simpl in Hget; by rewrite Hget|].
    apply get_None in Hv. destruct Hv. apply Hkeys. by right.
  - apply get_None. rewrite Hkeys. intros [Hin|Hin]; [|done].
    by apply elem_of_nil in Hin.
Qed.

(** X26: [compute_tf] counts.  A word is a key of the result exactly
    when it is among the tokens, its value is the number of its
    occurrences, no key occurs twice, and the values add up to the number
    of tokens. *)
Theorem compute_tf_counts (tokens : list pystr) :
  (∀ w, Dict.get (compute_tf tokens) w
        = if decide (w ∈ tokens) then Some (Z.of_nat (occurrences w tokens))
          else None)
  ∧ NoDup (Dict.keys (compute_tf tokens))
  ∧ foldr Z.add 0 (snd <$> compute_tf tokens) = Z.of_nat (length tokens).
Proof.
  destruct (compute_tf_get tokens) as [Hget Hnd].
  split; [done|]. split; [done|].
  destruct (compute_tf_from tokens []) as (_ & _ & _ & Hsum).
  fold (compute_tf tokens) in Hsum. by rewrite Hsum.
Qed.

(** *** [build_inverted_index] *)

Lemma add_postings_get (doc : pystr) (tf : list (pystr * Z))
    (index : list (pystr * list (pystr * Z))) (w : pystr) :
  NoDup (Dict.keys tf) →
  Dict.get (add_postings doc tf index) w
  = match Dict.get tf w with
    | Some f => Some (default [] (Dict.get index w) ++ [(doc, f)])
    | None => Dict.get index w
    end.
Proof.
  unfold add_postings. revert index.
  induction tf as [|[k f] tf IH]; intros index Hnd; [done|].
  unfold Dict.keys in Hnd. cbn [fmap list_fmap fst] in Hnd.
  apply NoDup_cons in Hnd as [Hk Hnd].
  cbn [fold_left Dict.get]. rewrite (IH _ Hnd).
  destruct (decide (k = w)) as [->|Hne].
  - rewrite (proj2 (get_None tf w) Hk). by rewrite get_set_eq.
  - rewrite get_set_ne by done. done.
Qed.

Lemma add_postings_keys (doc : pystr) (tf : list (pystr * Z))
    (index : list (pystr * list (pystr * Z))) :
  NoDup (Dict.keys index) → NoDup (Dict.keys (add_postings doc tf index)).
Proof.
  unfold add_postings. revert index.
  induction tf as [|[k f] tf IH]; intros index Hnd; [done|].
  cbn [fold_left]. by apply IH, NoDup_keys_set.
Qed.

Lemma postings_cons (w doc text : pystr) (texts : list (pystr * pystr)) :
  postings w ((doc, text) :: texts)
  = (if decide (w ∈ tokenize text)
     then [(doc, Z.of_nat (occurrences w (tokenize text)))] else [])
    ++ postings w texts.
Proof.
  unfold postings. cbn [omap list_omap].
  pose proof (occurrences_pos w (tokenize text)) as Hpos.
  destruct (decide (occurrences w (tokenize text) = 0%nat)) as [H0|H0].
  - rewrite decide_False; [done|]. intros Hin. apply Hpos in Hin. lia.
  - rewrite decide_True; [done|]. apply Hpos. lia.
Qed.

Section Index.
Context (extract_text_from_html : pystr → result pystr).

(** The documents, each with the text extracted from it. *)
Lemma index_documents_get (documents : list (pystr * pystr))
    (index index' : list (pystr * list (pystr * Z))) :
  index_documents extract_text_from_html documents index = Return index' →
  ∃ texts,
    Forall2 (λ d text, extract_text_from_html d.2 = Return text)
      documents texts
    ∧ (NoDup (Dict.keys index) → NoDup (Dict.keys index'))
    ∧ ∀ w,
        Dict.get index' w
        = match Dict.get index w, postings w (zip documents.*1 texts) with
          | None, [] => None
          | o, ps => Some (default [] o ++ ps)
          end.
Proof.
  revert index. induction documents as [|[doc html] documents IH];
    intros index; cbn [index_documents].
  { intros [= <-]. exists []. split; [constructor|]. split; [done|].
    intros w. simpl. destruct (Dict.get index w); simpl; [|done].
    by rewrite app_nil_r. }
  destruct (extract_text_from_html html) as [text|e] eqn:Hx; [|done].
  cbn [mbind result_bind]. cbv zeta. intros Hrun.
  destruct (IH _ Hrun) as (texts & Hall & Hnd & Hget).
  exists (text :: texts). split; [by constructor|].
  split; [intros Hk; by apply Hnd, add_postings_keys|].
  intros w. rewrite (Hget w). cbn [fmap list_fmap fst zip zip_with].
  rewrite postings_cons.
  destruct (compute_tf_get (tokenize text)) as [Htf Htfnd].
  rewrite add_postings_get by done. rewrite (Htf w).
  destruct (decide (w ∈ tokenize text)); cbn [app].
  - destruct (Dict.get index w), (postings w (zip documents.*1 texts));
      cbn [default app]; unfold id; by rewrite <- ?app_assoc, ?app_nil_r.
  - done.
Qed.

Lemma index_documents_returns (documents : list (pystr * pystr))
    (texts : list pystr) (index : list (pystr * list (pystr * Z))) :
  Forall2 (λ d text, extract_text_from_html d.2 = Return text)
    documents texts →
  ∃ index', index_documents extract_text_from_html documents index
            = Return index'.
Proof.
  intros Hall. revert index.
  induction Hall as [|[doc html] text documents texts Hx _ IH];
    intros index; cbn [index_documents]; [by eexists|].
  simpl in Hx. rewrite Hx. cbn [mbind result_bind]. apply IH.
Qed.

Lemma index_documents_texts (documents : list (pystr * pystr))
    (texts texts' : list pystr) :
  Forall2 (λ d text, extract_text_from_html d.2 = Return text)
    documents texts →
  Forall2 (λ d text, extract_text_from_html d.2 = Return text)
    documents texts' →
  texts = texts'.
Proof.
  intros Hall. revert texts'.
  induction Hall as [|d text documents texts Hx _ IH]; intros texts' Hall';
    inversion Hall' as [|? text' ? texts'' Hx' Hall'']; subst; [done|].
  rewrite Hx in Hx'. injection Hx' as <-. f_equal. by apply IH.
Qed.

End Index.

(** X27: what the inverted index holds.  When every document has a
    text, [build_inverted_index] returns, and the index maps a word to
    its postings: one entry for each document whose tokens have the word,
    in the order of the documents, with the number of occurrences.  A
    word that is in no document is not a key, and no key occurs twice. *)
Theorem inverted_index_postings
    (extract_text_from_html : pystr → result pystr)
    (documents : list (pystr * pystr)) (texts : list pystr) :
  Forall2 (λ d text, extract_text_from_html d.2 = Return text)
    documents texts →
  ∃ index,
    build_inverted_index extract_text_from_html documents = Return index
    ∧ NoDup (Dict.keys index)
    ∧ ∀ w,
        Dict.get index w
        = match postings w (zip documents.*1 texts) with
          | [] => None
          | ps => Some ps
          end.
Proof.
  unfold build_inverted_index. intros Hall.
  destruct (index_documents_returns _ _ _ [] Hall) as [index Hrun].
  exists index. split; [done|].
  destruct (index_documents_get _ _ _ _ Hrun) as (texts' & Hall' & Hnd & Hget).
  rewrite (index_documents_texts _ _ _ _ Hall Hall').
  split; [apply Hnd, NoDup_nil_2|].
  intros w. rewrite (Hget w). simpl.
  by destruct (postings w (zip documents.*1 texts')).
Qed.

Lemma inverted_index_postings_witness :
  ∃ index,
    build_inverted_index Return
      [("1.html" : pystr, "To be, or not to be?" : pystr);
       ("2.html" : pystr, "   " : pystr);
       ("3.html" : pystr, "Be QUIET." : pystr)] = Return index
    ∧ NoDup (Dict.keys index)
    ∧ ∀ w,
        Dict.get index w
        = match postings w (zip [("1.html" : pystr); ("2.html" : pystr);
                                 ("3.html" : pystr)]
                              [("To be, or not to be?" : pystr);
                               ("   " : pystr); ("Be QUIET." : pystr)]) with
          | [] => None
          | ps => Some ps
          end.
Proof.
  apply (inverted_index_postings Return
           [("1.html" : pystr, "To be, or not to be?" : pystr);
            ("2.html" : pystr, "   " : pystr);
            ("3.html" : pystr, "Be QUIET." : pystr)]
           [("To be, or not to be?" : pystr); ("   " : pystr);
            ("Be QUIET." : pystr)]).
  repeat constructor.
Defined.

Lemma postings_sublist (w : pystr) (texts : list (pystr * pystr)) :
  (postings w texts).*1 `sublist_of` texts.*1
  ∧ Forall (λ p, 1 ≤ p.2) (postings w texts).
Proof.
  induction texts as [|[doc text] texts [IHs IHf]].
  { split; [done|constructor]. }
  rewrite postings_cons.
  destruct (decide (w ∈ tokenize text)) as [Hin|Hn]; cbn [app fmap list_fmap fst].
  - split; [by apply sublist_skip|]. constructor; [|done]. simpl.
    apply occurrences_pos in Hin. lia.
  - split; [by apply sublist_cons|done].
Qed.

(** X28: the postings of an index that [build_inverted_index] returned
    are never empty and never longer than the number of documents, so the
    quotient [total_docs / len(postings)] of [compute_idf] is defined and
    at least 1 when [total_docs] is the number of documents; every
    frequency is at least 1; the documents of the postings of a word are
    documents of the input, in their order; and none of them occurs twice
    when the documents' names are distinct, as the keys of a dict are. *)
Theorem postings_bounds (extract_text_from_html : pystr → result pystr)
    (documents : list (pystr * pystr))
    (index : list (pystr * list (pystr * Z)))
    (w : pystr) (ps : list (pystr * Z)) :
  build_inverted_index extract_text_from_html documents = Return index →
  Dict.get index w = Some ps →
  (0 < length ps ≤ length documents)%nat
  ∧ Forall (λ p, 1 ≤ p.2) ps
  ∧ ps.*1 `sublist_of` documents.*1
  ∧ (NoDup documents.*1 → NoDup ps.*1).
Proof.
  unfold build_inverted_index. intros Hrun Hw.
  destruct (index_documents_get _ _ _ _ Hrun) as (texts & Hall & _ & Hget).
  rewrite (Hget w) in Hw. simpl in Hw.
  assert (length texts = length documents) as Hlen
    by (symmetry; by eapply Forall2_length).
  assert ((zip documents.*1 texts).*1 = documents.*1) as Hzip.
  { apply fst_zip. rewrite length_fmap. lia. }
  destruct (postings_sublist w (zip documents.*1 texts)) as [Hsub Hf].
  rewrite Hzip in Hsub.
  destruct (postings w (zip documents.*1 texts)) as [|p ps'] eqn:Hp; [done|].
  injection Hw as <-.
  split; [|split; [done|split; [done|intros Hnd; by eapply sublist_NoDup]]].
  apply sublist_length in Hsub. rewrite !length_fmap in Hsub.
  simpl in *. lia.
Qed.

Lemma postings_bounds_witness :
  (0 < length [("1.html" : pystr, 2); ("3.html" : pystr, 1)] ≤ 3)%nat
  ∧ Forall (λ p : pystr * Z, 1 ≤ p.2)
      [("1.html" : pystr, 2); ("3.html" : pystr, 1)]
  ∧ [("1.html" : pystr); ("3.html" : pystr)]
    `sublist_of` [("1.html" : pystr); ("2.html" : pystr); ("3.html" : pystr)]
  ∧ (NoDup [("1.html" : pystr); ("2.html" : pystr); ("3.html" : pystr)]
     → NoDup [("1.html" : pystr); ("3.html" : pystr)]).
Proof.
  refine (postings_bounds Return
            [("1.html" : pystr, "To be, or not to be?" : pystr);
             ("2.html" : pystr, "   " : pystr);
             ("3.html" : pystr, "Be QUIET." : pystr)] _ "be"
            [("1.html" : pystr, 2); ("3.html" : pystr, 1)] _ _).
  - vm_compute. reflexivity.
  - vm_compute. reflexivity.
Defined.

End IndexProps.
